(** * PackageVersionFileService: tarball ingestion and file index

    A shallow embedding of [app/core/service/PackageVersionFileService.ts]
    and of the host functions it calls ([String.prototype.split],
    [includes], [replace], [Array.prototype.join], [encodeURI] and the
    POSIX [dirname] and [basename] of [node:path]).

    JavaScript strings are sequences of UTF-16 code units; they are
    modelled as lists of [N].  Asynchronous service methods become
    computations in a state-and-exception monad over an explicit world
    (file index, blob store, temporary files, call trace). *)

From Stdlib Require Import String Ascii List NArith Bool Arith Lia.
Import ListNotations.

Local Open Scope N_scope.

(* ================================================================== *)
(** ** JavaScript strings *)

Module Js.

Definition jsstring := list N.

(** An ASCII literal as a sequence of code units. *)
Fixpoint lit (s : string) : jsstring :=
  match s with
  | EmptyString => []
  | String c s' => N_of_ascii c :: lit s'
  end.

Fixpoint eqb (a b : jsstring) : bool :=
  match a, b with
  | [], [] => true
  | x :: a', y :: b' => (x =? y) && eqb a' b'
  | _, _ => false
  end.

(** [!s] on a string: only the empty string is falsy. *)
Definition falsy (s : jsstring) : bool :=
  match s with [] => true | _ => false end.

Definition CHAR_FORWARD_SLASH : N := 47.
Definition CHAR_PERCENT : N := 37.

(** [s.charCodeAt(i)]; the loops below never index out of range. *)
Definition charCodeAt (s : jsstring) (i : nat) : N := nth i s 0.

(** [s.slice(start, end)] for [0 <= start], [end <= s.length]. *)
Definition slice (s : jsstring) (start end_ : nat) : jsstring :=
  firstn (end_ - start) (skipn start s).

Fixpoint startsWith (s pat : jsstring) : bool :=
  match pat, s with
  | [], _ => true
  | p :: pat', c :: s' => (c =? p) && startsWith s' pat'
  | _ :: _, [] => false
  end.

(** [s.includes(pat)] *)
Fixpoint includes (s pat : jsstring) : bool :=
  startsWith s pat ||
  match s with
  | [] => false
  | _ :: s' => includes s' pat
  end.

(** [s.split(sep)] for a separator of one code unit. *)
Fixpoint split (sep : N) (s : jsstring) : list jsstring :=
  match s with
  | [] => [[]]
  | c :: s' =>
      if c =? sep then [] :: split sep s'
      else match split sep s' with
           | [] => [[c]]
           | seg :: segs => (c :: seg) :: segs
           end
  end.

(** [arr.join(sep)] *)
Fixpoint arr_join (sep : jsstring) (l : list jsstring) : jsstring :=
  match l with
  | [] => []
  | [x] => x
  | x :: rest => x ++ sep ++ arr_join sep rest
  end.

(** [s.replace(pat, by)] with a one-unit string pattern: only the first
    occurrence is replaced. *)
Fixpoint replace (pat : N) (by_ : jsstring) (s : jsstring) : jsstring :=
  match s with
  | [] => []
  | c :: s' => if c =? pat then by_ ++ s' else c :: replace pat by_ s'
  end.

(** *** [encodeURI] (ECMA-262, [Encode] with the reserved and unescaped
    sets plus [#]) *)

Definition inRange (lo hi c : N) : bool := (lo <=? c) && (c <=? hi).

Definition isAlpha (c : N) : bool := inRange 65 90 c || inRange 97 122 c.
Definition isDigit (c : N) : bool := inRange 48 57 c.

(** [;/?:@&=+$,] *)
Definition uriReserved : jsstring := lit ";/?:@&=+$,".
(** [-_.!~*'()] *)
Definition uriMark : jsstring := lit "-_.!~*'()".

Definition mem (c : N) (set : jsstring) : bool := existsb (N.eqb c) set.

Definition uriUnescaped (c : N) : bool := isAlpha c || isDigit c || mem c uriMark.

Definition unescapedURISet (c : N) : bool :=
  mem c uriReserved || uriUnescaped c || (c =? 35).

Definition isLeadingSurrogate (c : N) : bool := inRange 0xD800 0xDBFF c.
Definition isTrailingSurrogate (c : N) : bool := inRange 0xDC00 0xDFFF c.

Definition UTF16SurrogatePairToCodePoint (lead trail : N) : N :=
  (lead - 0xD800) * 0x400 + (trail - 0xDC00) + 0x10000.

(** The UTF-8 octets of a code point. *)
Definition utf8 (cp : N) : list N :=
  if cp <? 0x80 then [cp]
  else if cp <? 0x800 then
    [N.lor 0xC0 (N.shiftr cp 6); N.lor 0x80 (N.land cp 0x3F)]
  else if cp <? 0x10000 then
    [N.lor 0xE0 (N.shiftr cp 12);
     N.lor 0x80 (N.land (N.shiftr cp 6) 0x3F);
     N.lor 0x80 (N.land cp 0x3F)]
  else
    [N.lor 0xF0 (N.shiftr cp 18);
     N.lor 0x80 (N.land (N.shiftr cp 12) 0x3F);
     N.lor 0x80 (N.land (N.shiftr cp 6) 0x3F);
     N.lor 0x80 (N.land cp 0x3F)].

Definition hexDigit (d : N) : N :=
  if d <? 10 then 48 + d else 65 + (d - 10).

(** ["%XX"], upper-case hexadecimal, for one octet. *)
Definition percent (octet : N) : jsstring :=
  [CHAR_PERCENT; hexDigit (N.shiftr octet 4); hexDigit (N.land octet 0xF)].

Definition percentAll (octets : list N) : jsstring :=
  flat_map percent octets.

(** [None] stands for the [URIError] thrown on an unpaired surrogate. *)
Fixpoint encodeURI (s : jsstring) : option jsstring :=
  match s with
  | [] => Some []
  | c :: rest =>
      if unescapedURISet c then option_map (cons c) (encodeURI rest)
      else if isTrailingSurrogate c then None
      else if isLeadingSurrogate c then
        match rest with
        | [] => None
        | c2 :: rest' =>
            if isTrailingSurrogate c2 then
              option_map
                (app (percentAll (utf8 (UTF16SurrogatePairToCodePoint c c2))))
                (encodeURI rest')
            else None
        end
      else option_map (app (percentAll (utf8 c))) (encodeURI rest)
  end.

(** The Greek letter [χ], U+03C7. *)
Definition chi : N := 967.

End Js.

Import Js.

(* ================================================================== *)
(** ** [node:path], POSIX flavour *)

Module Path.

(** The scan of [dirname]: [for (i = path.length - 1; i >= 1; --i)].
    The result is the final value of [end]; [None] stands for [-1]. *)
Fixpoint dirname_scan (path : jsstring) (i : nat) (matchedSlash : bool)
  : option nat :=
  match i with
  | O => None
  | S i' =>
      if charCodeAt path i =? CHAR_FORWARD_SLASH then
        if negb matchedSlash then Some i
        else dirname_scan path i' matchedSlash
      else dirname_scan path i' false
  end.

Definition dirname (path : jsstring) : jsstring :=
  if (length path =? 0)%nat then lit "."
  else
    let hasRoot := charCodeAt path 0 =? CHAR_FORWARD_SLASH in
    match dirname_scan path (length path - 1) true with
    | None => if hasRoot then lit "/" else lit "."
    | Some end_ =>
        if hasRoot && (end_ =? 1)%nat then lit "//"
        else slice path 0 end_
    end.

(** The scan of [basename] without suffix:
    [for (i = path.length - 1; i >= 0; --i)], with [n = i + 1].
    The result is the final [(start, end)]. *)
Fixpoint basename_scan (path : jsstring) (n : nat) (end_ : option nat)
  (matchedSlash : bool) : nat * option nat :=
  match n with
  | O => (O, end_)
  | S i =>
      if charCodeAt path i =? CHAR_FORWARD_SLASH then
        if negb matchedSlash then (S i, end_)
        else basename_scan path i end_ matchedSlash
      else
        match end_ with
        | None => basename_scan path i (Some (S i)) false
        | Some _ => basename_scan path i end_ matchedSlash
        end
  end.

Definition basename (path : jsstring) : jsstring :=
  match basename_scan path (length path) None true with
  | (_, None) => []
  | (start, Some end_) => slice path start end_
  end.

End Path.

(* ================================================================== *)
(** ** Entities *)

(** A JavaScript error object; [code] is its [code] property. *)
Record JsError := mkError {
  code : option string;
  message : string
}.

(** [err.code === c] *)
Definition hasCode (err : JsError) (c : string) : bool :=
  match code err with
  | Some c' => String.eqb c' c
  | None => false
  end.

Definition TAR_BAD_ARCHIVE : string := "TAR_BAD_ARCHIVE".
Definition ER_DUP_ENTRY : string := "ER_DUP_ENTRY".
Definition ENOENT : string := "ENOENT".

(** Modelled from the spec: the [Dist] entity and the factory
    [Package.createPackageVersionFile] are not part of this file.  A
    content blob is keyed by the owning package, the path key it is given
    and the version string, and carries size, digest and integrity. *)
Record Dist := mkDist {
  distPackageId : jsstring;
  distPath : jsstring;
  distVersion : jsstring;
  size : N;
  shasum : jsstring;
  integrity : jsstring
}.

Record Package := mkPackage {
  pkgPackageId : jsstring;
  fullname : jsstring
}.

Record PackageVersion := mkPackageVersion {
  packageId : jsstring;
  packageVersionId : jsstring;
  version : jsstring;
  publishTime : N;
  tarDist : Dist
}.

(** The file index entry. *)
Record PackageVersionFile := mkPackageVersionFile {
  filePackageVersionId : jsstring;
  directory : jsstring;
  name : jsstring;
  dist : Dist;
  contentType : jsstring;
  mtime : N
}.

(** Modelled from the spec:
    [pkg.createPackageVersionFile(path, version, info)]. *)
Definition createPackageVersionFileDist (pkg : Package) (path version : jsstring)
  (sz : N) (sha integ : jsstring) : Dist :=
  mkDist (pkgPackageId pkg) path version sz sha integ.

(** Modelled from the spec: [PackageVersionFile.create({...})]; the
    generated identifier of the entry is left out. *)
Definition PackageVersionFile_create (vid dir nm : jsstring) (d : Dist)
  (ct : jsstring) (mt : N) : PackageVersionFile :=
  mkPackageVersionFile vid dir nm d ct mt.

(** One member of a tarball, as handed to [onentry]. *)
Inductive EntryType := File | Directory | SymbolicLink | Link | OtherEntry.

Definition EntryType_eqb (a b : EntryType) : bool :=
  match a, b with
  | File, File | Directory, Directory | SymbolicLink, SymbolicLink
  | Link, Link | OtherEntry, OtherEntry => true
  | _, _ => false
  end.

Record TarEntry := mkEntry {
  entryType : EntryType;
  entryPath : jsstring
}.

(** What the archive reader (the [tar] library) makes of a tarball file:
    the members it recognises, in archive order, and the error that ends
    the reading early, if any.  A gzip stream that is cut short ends the
    reading with the error of the decompressor, whose [code] is
    [Z_BUF_ERROR]. *)
Record Archive := mkArchive {
  members : list TarEntry;
  readError : option JsError
}.

(** The error of the reader for an input in which it recognised no
    member: less than one block of data, or no valid header at all. *)
Definition unrecognized : JsError :=
  mkError (Some TAR_BAD_ARCHIVE) "TAR_BAD_ARCHIVE: Unrecognized archive format".

(** The error with which the reader rejects an archive: the error that
    ended the reading, or [unrecognized] when the reading came to its end
    without any member. *)
Definition rejection (a : Archive) : option JsError :=
  match readError a with
  | Some e => Some e
  | None =>
      match members a with
      | [] => Some unrecognized
      | _ :: _ => None
      end
  end.

(** An archive the reader rejects, whatever the error. *)
Definition corrupt (a : Archive) : bool :=
  match rejection a with
  | Some _ => true
  | None => false
  end.

(* ================================================================== *)
(** ** The world: collaborators' state and the trace of their calls *)

Inductive LogLevel := Info | Warn.

Inductive Call :=
| CfindPackageByPackageId (id : jsstring)
| CcreateTempDir (base nameHint : jsstring)
| CdownloadDistToFile (d : Dist) (tarFile : jsstring)
| Ctar_extract (file cwd : jsstring)
| ChasPackageVersionFiles (vid : jsstring)
| ClistPackageVersionFiles (vid dir : jsstring)
| CfindPackageVersionFile (vid dir nm : jsstring)
| Cfs_stat (localFile : jsstring)
| CcalculateIntegrity (localFile : jsstring)
| CsaveDist (d : Dist) (localFile : jsstring)
| CcreatePackageVersionFile (f : PackageVersionFile)
| CsavePackageVersionReadme (vid readmeFile : jsstring)
| Cfs_rm (path : jsstring) (recursive : bool)
| Clogger (level : LogLevel) (tag : string).

(** A completed call and the error it threw, if any. *)
Definition Event := (Call * option JsError)%type.

Inductive Node := NDir | NTarball (a : Archive).

Record World := mkWorld {
  packages : list Package;
  index : list PackageVersionFile;
  blobs : list (Dist * jsstring);
  readmes : list (jsstring * jsstring);
  disk : list (jsstring * Node);
  trace : list Event
}.

Definition emit (ev : Event) (w : World) : World :=
  mkWorld (packages w) (index w) (blobs w) (readmes w) (disk w) (trace w ++ [ev]).

Definition set_index (ix : list PackageVersionFile) (w : World) : World :=
  mkWorld (packages w) ix (blobs w) (readmes w) (disk w) (trace w).

Definition set_blobs (bs : list (Dist * jsstring)) (w : World) : World :=
  mkWorld (packages w) (index w) bs (readmes w) (disk w) (trace w).

Definition set_readmes (rs : list (jsstring * jsstring)) (w : World) : World :=
  mkWorld (packages w) (index w) (blobs w) rs (disk w) (trace w).

Definition set_disk (d : list (jsstring * Node)) (w : World) : World :=
  mkWorld (packages w) (index w) (blobs w) (readmes w) d (trace w).

(** What the service cannot see from its own code: configuration, host
    functions whose results no property below depends on, the content
    behind a dist, and which collaborator calls fail. *)
Record Env := mkEnv {
  dataDir : jsstring;
  randomUUID : World -> jsstring;
  tempDirPath : jsstring -> jsstring -> jsstring;
  join : jsstring -> jsstring -> jsstring;
  tarball : Dist -> Archive;
  fileSize : jsstring -> N;
  integrityOf : jsstring -> jsstring * jsstring;
  mimeLookup : jsstring -> jsstring;
  fault : Call -> World -> option JsError
}.

(* ================================================================== *)
(** ** A state-and-exception monad *)

Inductive Outcome (A : Type) :=
| Ok (a : A)
| Throw (e : JsError).
Arguments Ok {A} a.
Arguments Throw {A} e.

Definition M (S A : Type) : Type := S -> Outcome A * S.

Definition ret {S A} (a : A) : M S A := fun s => (Ok a, s).

Definition throw {S A} (e : JsError) : M S A := fun s => (Throw e, s).

Definition bind {S A B} (m : M S A) (k : A -> M S B) : M S B :=
  fun s =>
    match m s with
    | (Ok a, s') => k a s'
    | (Throw e, s') => (Throw e, s')
    end.

(** [try { body } catch (err) { handler }] *)
Definition try_catch {S A} (body : M S A) (handler : JsError -> M S A) : M S A :=
  fun s =>
    match body s with
    | (Ok a, s') => (Ok a, s')
    | (Throw e, s') => handler e s'
    end.

(** [try { body } finally { fin }]: the finalizer always runs; when it
    throws, its error replaces the outcome of the body. *)
Definition try_finally {S A} (body : M S A) (fin : M S unit) : M S A :=
  fun s =>
    match body s with
    | (r, s') =>
        match fin s' with
        | (Ok _, s'') => (r, s'')
        | (Throw e, s'') => (Throw e, s'')
        end
    end.

Declare Scope monad_scope.
Delimit Scope monad_scope with monad.
Notation "x <- m ;; k" := (bind m (fun x => k))
  (at level 61, m at next level, right associativity) : monad_scope.
Notation "m ;; k" := (bind m (fun _ => k))
  (at level 61, right associativity) : monad_scope.
Local Open Scope monad_scope.

Definition thrown {A} (r : Outcome A) : option JsError :=
  match r with
  | Ok _ => None
  | Throw e => Some e
  end.

(* ================================================================== *)
(** ** The service and its collaborators *)

(** Locals of [syncPackageVersionFiles] that the [catch] block and the
    [onentry] callback share with the [try] block. *)
Record Frame := mkFrame {
  world : World;
  files : list PackageVersionFile;
  paths : list jsstring;
  readmeFilename : jsstring
}.

Definition URIError : JsError := mkError None "URI malformed".

(** [fs.rm(path, { force: true })]: a missing path is not an error. *)
Definition disk_remove (path : jsstring) (d : list (jsstring * Node))
  : list (jsstring * Node) :=
  filter (fun e => negb (eqb (fst e) path)) d.

Definition disk_lookup (path : jsstring) (d : list (jsstring * Node))
  : option Node :=
  option_map snd (find (fun e => eqb (fst e) path) d).

Definition disk_exists (path : jsstring) (d : list (jsstring * Node)) : bool :=
  existsb (fun e => eqb (fst e) path) d.

(** The unique tuple of the file index. *)
Definition sameFile (vid dir nm : jsstring) (f : PackageVersionFile) : bool :=
  eqb (filePackageVersionId f) vid && eqb (directory f) dir && eqb (name f) nm.

Section Service.

Variable env : Env.

(** A collaborator call.  The oracle of [env] may make it fail without
    effect; otherwise its own semantics runs.  The completed call is
    appended to the trace. *)
Definition invoke {A} (c : Call) (sem : World -> Outcome A * World)
  : M World A :=
  fun w =>
    match fault env c w with
    | Some e => (Throw e, emit (c, Some e) w)
    | None => let (r, w') := sem w in (r, emit (c, thrown r) w')
    end.

Definition logger (level : LogLevel) (tag : string) : M World unit :=
  fun w => (Ok tt, emit (Clogger level tag, None) w).

(** *** Repositories *)

(** Modelled from the spec: [PackageRepository.findPackageByPackageId],
    [findPackageByPackageId(id) -> Package | absent]. *)
Definition findPackageByPackageId (id : jsstring) : M World (option Package) :=
  invoke (CfindPackageByPackageId id)
    (fun w => (Ok (find (fun p => eqb (pkgPackageId p) id) (packages w)), w)).

(** Modelled from the spec: [PackageVersionFileRepository]; whether the
    index has an entry of the version. *)
Definition hasPackageVersionFiles (vid : jsstring) : M World bool :=
  invoke (ChasPackageVersionFiles vid)
    (fun w => (Ok (existsb (fun f => eqb (filePackageVersionId f) vid) (index w)), w)).

(** Modelled from the spec: [PackageVersionFileRepository]; all entries
    of the version whose directory matches, in index order. *)
Definition listPackageVersionFilesRepo (vid dir : jsstring)
  : M World (list PackageVersionFile) :=
  invoke (ClistPackageVersionFiles vid dir)
    (fun w => (Ok (filter (fun f => eqb (filePackageVersionId f) vid
                                    && eqb (directory f) dir) (index w)), w)).

(** Modelled from the spec: [PackageVersionFileRepository]; the entry of
    the tuple (version, directory, name), if any. *)
Definition findPackageVersionFile (vid dir nm : jsstring)
  : M World (option PackageVersionFile) :=
  invoke (CfindPackageVersionFile vid dir nm)
    (fun w => (Ok (find (sameFile vid dir nm) (index w)), w)).

(** Modelled from the spec: [PackageVersionFileRepository]; the index
    enforces the unique tuple, a second insert fails with [ER_DUP_ENTRY]. *)
Definition createPackageVersionFile (f : PackageVersionFile) : M World unit :=
  invoke (CcreatePackageVersionFile f)
    (fun w =>
       if existsb (sameFile (filePackageVersionId f) (directory f) (name f)) (index w)
       then (Throw (mkError (Some ER_DUP_ENTRY) "Duplicate entry"), w)
       else (Ok tt, set_index (index w ++ [f]) w)).

(** Modelled from the spec: [DistRepository.saveDist]; [blobs] records
    every blob write. *)
Definition saveDist (d : Dist) (localFile : jsstring) : M World unit :=
  invoke (CsaveDist d localFile)
    (fun w => (Ok tt, set_blobs (blobs w ++ [(d, localFile)]) w)).

(** Modelled from the spec: [DistRepository.downloadDistToFile]; copies
    the bytes behind the dist to [tarFile]. *)
Definition downloadDistToFile (d : Dist) (tarFile : jsstring) : M World unit :=
  invoke (CdownloadDistToFile d tarFile)
    (fun w => (Ok tt, set_disk ((tarFile, NTarball (tarball env d))
                                :: disk_remove tarFile (disk w)) w)).

(** Modelled from the spec: [PackageManagerService.savePackageVersionReadme];
    [readmes] records every file handed over. *)
Definition savePackageVersionReadme (pkgVersion : PackageVersion)
  (readmeFile : jsstring) : M World unit :=
  invoke (CsavePackageVersionReadme (packageVersionId pkgVersion) readmeFile)
    (fun w => (Ok tt, set_readmes (readmes w ++ [(packageVersionId pkgVersion, readmeFile)]) w)).

(** *** Host and utility functions *)

(** Modelled from the spec: [FileUtil.createTempDir],
    [createTempDir(baseDir, nameHint) -> tempDirPath]; the directory exists
    afterwards. *)
Definition createTempDir (base nameHint : jsstring) : M World jsstring :=
  invoke (CcreateTempDir base nameHint)
    (fun w =>
       let p := tempDirPath env base nameHint in
       (Ok p, set_disk ((p, NDir) :: disk_remove p (disk w)) w)).

(** [(await fs.stat(localFile)).size] *)
Definition fs_stat (localFile : jsstring) : M World N :=
  invoke (Cfs_stat localFile) (fun w => (Ok (fileSize env localFile), w)).

(** Modelled from the spec: [PackageUtil.calculateIntegrity], a function
    of the file's bytes giving digest and integrity value. *)
Definition calculateIntegrity (localFile : jsstring) : M World (jsstring * jsstring) :=
  invoke (CcalculateIntegrity localFile) (fun w => (Ok (integrityOf env localFile), w)).

(** [fs.rm(path, { recursive, force: true })]; only the path itself is
    tracked on the modelled disk. *)
Definition fs_rm (path : jsstring) (recursive : bool) : M World unit :=
  invoke (Cfs_rm path recursive)
    (fun w => (Ok tt, set_disk (disk_remove path (disk w)) w)).

Definition js_encodeURI {S} (s : jsstring) : M S jsstring :=
  match encodeURI s with
  | Some r => ret r
  | None => throw URIError
  end.

(** *** Locals *)

Definition liftW {A} (m : M World A) : M Frame A :=
  fun fr =>
    let (r, w') := m (world fr) in
    (r, mkFrame w' (files fr) (paths fr) (readmeFilename fr)).

Definition push_file (f : PackageVersionFile) : M Frame unit :=
  fun fr => (Ok tt, mkFrame (world fr) (files fr ++ [f]) (paths fr) (readmeFilename fr)).

Definition get_files : M Frame (list PackageVersionFile) :=
  fun fr => (Ok (files fr), fr).

Definition get_paths : M Frame (list jsstring) :=
  fun fr => (Ok (paths fr), fr).

Definition get_readmeFilename : M Frame jsstring :=
  fun fr => (Ok (readmeFilename fr), fr).

(** Runs a block with fresh [paths] and [readmeFilename] and the given
    [files]. *)
Definition with_locals {A} (fs : list PackageVersionFile) (m : M Frame A)
  : M World A :=
  fun w => let (r, fr) := m (mkFrame w fs [] []) in (r, world fr).

(** *** [#getDirectoryAndName] *)

Definition getDirectoryAndName (path : jsstring) : jsstring * jsstring :=
  (Path.dirname path, Path.basename path).

(** *** [#savePackageVersionFile] *)

Definition savePackageVersionFile (pkg : Package) (pkgVersion : PackageVersion)
  (path localFile : jsstring) : M World PackageVersionFile :=
  let '(directory, name) := getDirectoryAndName path in
  file <- findPackageVersionFile (packageVersionId pkgVersion) directory name ;;
  match file with
  | Some file => ret file
  | None =>
      stat_size <- fs_stat localFile ;;
      distIntegrity <- calculateIntegrity localFile ;;
      distPath <- js_encodeURI path ;;
      let dist := createPackageVersionFileDist pkg distPath (version pkgVersion)
                    stat_size (fst distIntegrity) (snd distIntegrity) in
      saveDist dist localFile ;;
      let file := PackageVersionFile_create (packageVersionId pkgVersion)
                    directory name dist (mimeLookup env path)
                    (publishTime pkgVersion) in
      try_catch
        (createPackageVersionFile file ;;
         logger Info "savePackageVersionFile:success" ;;
         ret file)
        (fun err =>
           if hasCode err ER_DUP_ENTRY then ret file
           else throw err)
  end.

(** *** The [onentry] callback of [tar.extract] *)

Definition stripFirstSegment (entry_path : jsstring) : jsstring :=
  arr_join (lit "/") (skipn 1 (split CHAR_FORWARD_SLASH entry_path)).

Definition isReadmeName (filename : jsstring) : bool :=
  eqb filename (lit "README.md") || eqb filename (lit "readme.md")
  || eqb filename (lit "Readme.md").

Definition onentry (entry : TarEntry) (fr : Frame) : Frame :=
  if negb (EntryType_eqb (entryType entry) File) then fr
  else if includes (entryPath entry) (lit "/./") then fr
  else
    let filename := stripFirstSegment (entryPath entry) in
    let fr1 := mkFrame (world fr) (files fr)
                 (paths fr ++ [lit "/" ++ filename]) (readmeFilename fr) in
    if falsy (readmeFilename fr1) then
      if isReadmeName filename then
        mkFrame (world fr1) (files fr1) (paths fr1) filename
      else fr1
    else fr1.

(** [tar.extract({ file, cwd, strip: 1, onentry })]: a missing tarball
    file fails with [ENOENT]; otherwise every member the reader
    recognises is handed to [onentry] in archive order, and the promise
    is rejected with the error of [rejection], if there is one.  The
    error keeps its own [code]: [TAR_BAD_ARCHIVE] for an input the reader
    does not recognise as an archive, the code of the decompressor for a
    damaged gzip stream. *)
Definition tar_extract (file cwd : jsstring) : M Frame unit :=
  fun fr =>
    let w := world fr in
    let c := Ctar_extract file cwd in
    let fin (r : Outcome unit) (fr' : Frame) :=
      (r, mkFrame (emit (c, thrown r) (world fr')) (files fr') (paths fr')
            (readmeFilename fr')) in
    match fault env c w with
    | Some e => fin (Throw e) fr
    | None =>
        match disk_lookup file (disk w) with
        | Some (NTarball a) =>
            let fr' := fold_left (fun f e => onentry e f) (members a) fr in
            match rejection a with
            | Some e => fin (Throw e) fr'
            | None => fin (Ok tt) fr'
            end
        | _ => fin (Throw (mkError (Some ENOENT) "no such file")) fr
        end
    end.

(** *** [syncPackageVersionFiles] *)

(** [for (const path of paths) { ... files.push(file) }] *)
Fixpoint materialize (pkg : Package) (pkgVersion : PackageVersion)
  (tmpdir : jsstring) (ps : list jsstring) : M Frame unit :=
  match ps with
  | [] => ret tt
  | path :: rest =>
      let localFile := join env tmpdir path in
      file <- liftW (savePackageVersionFile pkg pkgVersion path localFile) ;;
      push_file file ;;
      materialize pkg pkgVersion tmpdir rest
  end.

Definition sync_try (pkg : Package) (pkgVersion : PackageVersion)
  (tmpdir tarFile : jsstring) : M Frame (list PackageVersionFile) :=
  liftW (logger Info "syncPackageVersionFiles:download-start") ;;
  liftW (downloadDistToFile (tarDist pkgVersion) tarFile) ;;
  liftW (logger Info "syncPackageVersionFiles:extract-start") ;;
  tar_extract tarFile tmpdir ;;
  ps <- get_paths ;;
  materialize pkg pkgVersion tmpdir ps ;;
  liftW (logger Info "syncPackageVersionFiles:success") ;;
  readme <- get_readmeFilename ;;
  (if negb (falsy readme) then
     let readmeFile := join env tmpdir readme in
     liftW (savePackageVersionReadme pkgVersion readmeFile)
   else ret tt) ;;
  get_files.

Definition sync_catch (err : JsError) : M Frame (list PackageVersionFile) :=
  liftW (logger Warn "syncPackageVersionFiles:error") ;;
  if hasCode err TAR_BAD_ARCHIVE then get_files
  else throw err.

Definition sync_finally (tmpdir tarFile : jsstring) : M Frame unit :=
  try_catch
    (liftW (fs_rm tarFile false) ;;
     liftW (fs_rm tmpdir true))
    (fun err => liftW (logger Warn "syncPackageVersionFiles:warn")).

(** The [try]/[catch] part and the [try]/[catch]/[finally] statement as a
    whole. *)
Definition sync_primary (pkg : Package) (pkgVersion : PackageVersion)
  (tmpdir tarFile : jsstring) : M Frame (list PackageVersionFile) :=
  try_catch (sync_try pkg pkgVersion tmpdir tarFile) sync_catch.

Definition sync_protected (pkg : Package) (pkgVersion : PackageVersion)
  (tmpdir tarFile : jsstring) : M Frame (list PackageVersionFile) :=
  try_finally (sync_primary pkg pkgVersion tmpdir tarFile)
    (sync_finally tmpdir tarFile).

Definition tempDirName (pkg : Package) (pkgVersion : PackageVersion)
  (uuid : jsstring) : jsstring :=
  lit "unpkg_" ++ replace CHAR_FORWARD_SLASH (lit "_") (fullname pkg)
  ++ lit "@" ++ version pkgVersion ++ lit "_" ++ uuid.

Definition syncPackageVersionFiles (pkgVersion : PackageVersion)
  : M World (list PackageVersionFile) :=
  let files : list PackageVersionFile := [] in
  pkg <- findPackageByPackageId (packageId pkgVersion) ;;
  match pkg with
  | None => ret files
  | Some pkg =>
      uuid <- (fun w => (Ok (randomUUID env w), w)) ;;
      let dirname := tempDirName pkg pkgVersion uuid in
      tmpdir <- createTempDir (dataDir env) dirname ;;
      let tarFile := tmpdir ++ lit ".tgz" in
      with_locals files (sync_protected pkg pkgVersion tmpdir tarFile)
  end.

(** *** The lazy trigger and the read operations *)

Definition ensurePackageVersionFilesSync (pkgVersion : PackageVersion)
  : M World unit :=
  hasFiles <- hasPackageVersionFiles (packageVersionId pkgVersion) ;;
  if negb hasFiles then
    syncPackageVersionFiles pkgVersion ;; ret tt
  else ret tt.

Definition listPackageVersionFiles (pkgVersion : PackageVersion)
  (directory : jsstring) : M World (list PackageVersionFile) :=
  ensurePackageVersionFilesSync pkgVersion ;;
  listPackageVersionFilesRepo (packageVersionId pkgVersion) directory.

Definition showPackageVersionFile (pkgVersion : PackageVersion)
  (path : jsstring) : M World (option PackageVersionFile) :=
  ensurePackageVersionFilesSync pkgVersion ;;
  let '(directory, name) := getDirectoryAndName path in
  findPackageVersionFile (packageVersionId pkgVersion) directory name.

End Service.

(* ================================================================== *)
(** ** A concrete environment, used to run the service on examples *)

Module Demo.

Definition noFault : Call -> World -> option JsError := fun _ _ => None.

(** [join] restricted to what the service passes: a normalized directory
    and a relative or [/]-prefixed file path. *)
Definition simpleJoin (a b : jsstring) : jsstring :=
  if startsWith b (lit "/") then a ++ b else a ++ lit "/" ++ b.

Definition env (tb : Archive) (flt : Call -> World -> option JsError) : Env :=
  mkEnv (lit "/data")
        (fun w => lit "u" ++ [48 + N.of_nat (List.length (trace w))])
        (fun base hint => base ++ lit "/" ++ hint)
        simpleJoin
        (fun _ => tb)
        (fun p => N.of_nat (List.length p))
        (fun p => (lit "sha1-" ++ p, lit "sha512-" ++ p))
        (fun _ => lit "application/octet-stream")
        flt.

Definition foo : Package := mkPackage (lit "pkg-1") (lit "@scope/foo").

Definition foo_tgz : Dist :=
  mkDist (lit "pkg-1") (lit "/foo-1.0.0.tgz") (lit "1.0.0") 15 (lit "sha1") (lit "sha512").

Definition foo_1_0_0 : PackageVersion :=
  mkPackageVersion (lit "pkg-1") (lit "ver-1") (lit "1.0.0") 1700000000 foo_tgz.

(** A version whose package is unknown. *)
Definition orphan : PackageVersion :=
  mkPackageVersion (lit "pkg-9") (lit "ver-9") (lit "0.0.1") 1700000000 foo_tgz.

Definition file (p : string) : TarEntry := mkEntry File (lit p).

(** [package/index.js] and [package/README.md] *)
Definition tgz_basic : Archive :=
  mkArchive [file "package/index.js"; file "package/README.md"] None.

(** Two README candidates, a directory member and a hidden segment. *)
Definition tgz_readmes : Archive :=
  mkArchive [mkEntry Directory (lit "package/");
             file "package/lib/./x.js";
             file "package/readme.md";
             file "package/dir/sub/file.js";
             file "package/README.md"] None.

(** The error of the decompressor for a gzip stream that is cut short. *)
Definition Z_BUF_ERROR : JsError :=
  mkError (Some "Z_BUF_ERROR"%string) "unexpected end of file".

(** A truncated [.tgz]: one member is read, then the decompressor
    fails. *)
Definition tgz_truncated : Archive :=
  mkArchive [file "package/index.js"] (Some Z_BUF_ERROR).

(** An archive without any member. *)
Definition tgz_empty : Archive := mkArchive [] None.

(** An archive of one directory member: nothing to index. *)
Definition tgz_dir_only : Archive :=
  mkArchive [mkEntry Directory (lit "package/")] None.

Definition chi_path : jsstring :=
  lit "package/resource/ToOneFrom" ++ [chi] ++ lit ".js".

(** The manifest path of [chi_path]. *)
Definition chi_manifest_path : jsstring :=
  lit "/resource/ToOneFrom" ++ [chi] ++ lit ".js".

Definition tgz_chi : Archive := mkArchive [mkEntry File chi_path] None.

Definition w0 : World := mkWorld [foo] [] [] [] [] [].

Definition faultOn (p : Call -> bool) (e : JsError) : Call -> World -> option JsError :=
  fun c _ => if p c then Some e else None.

Definition isRm (c : Call) : bool :=
  match c with Cfs_rm _ _ => true | _ => false end.

(** The removal of a file, as opposed to the recursive one of a
    directory. *)
Definition isRmFile (c : Call) : bool :=
  match c with Cfs_rm _ false => true | _ => false end.

Definition isCreateFile (c : Call) : bool :=
  match c with CcreatePackageVersionFile _ => true | _ => false end.

Definition isStat (c : Call) : bool :=
  match c with Cfs_stat _ => true | _ => false end.

Definition EPERM : JsError := mkError (Some "EPERM"%string) "operation not permitted".
Definition EIO : JsError := mkError (Some "EIO"%string) "i/o error".
Definition dupEntry : JsError := mkError (Some ER_DUP_ENTRY) "Duplicate entry".

End Demo.

(* ================================================================== *)
(** ** Vocabulary of the properties *)

(** The calls a computation added to the trace. *)
Definition newEvents (w w' : World) : list Event :=
  skipn (List.length (trace w)) (trace w').

(** No collaborator call ever fails by the oracle. *)
Definition NoFault (env : Env) : Prop :=
  forall c w, fault env c w = None.

(** The unique tuple of an index entry. *)
Definition fileKey (f : PackageVersionFile) : jsstring * jsstring * jsstring :=
  (filePackageVersionId f, directory f, name f).

(** The tuple under which a manifest path is indexed. *)
Definition pathKey (pkgVersion : PackageVersion) (path : jsstring)
  : jsstring * jsstring * jsstring :=
  (packageVersionId pkgVersion, Path.dirname path, Path.basename path).

(** The index entry stored for a manifest path, if any. *)
Definition indexed (pkgVersion : PackageVersion) (path : jsstring)
  (ix : list PackageVersionFile) : option PackageVersionFile :=
  find (sameFile (packageVersionId pkgVersion) (Path.dirname path)
          (Path.basename path)) ix.

(** Members that [onentry] keeps: regular files without a [/./] segment. *)
Definition isFileEntry (e : TarEntry) : bool := EntryType_eqb (entryType e) File.

Definition hidden (e : TarEntry) : bool := includes (entryPath e) (lit "/./").

Definition retained (e : TarEntry) : bool := isFileEntry e && negb (hidden e).

(** The manifest as the specification words it: one path per retained
    member, in archive order, first segment stripped, [/] prefixed. *)
Definition manifestOf (ms : list TarEntry) : list jsstring :=
  map (fun e => lit "/" ++ stripFirstSegment (entryPath e)) (filter retained ms).

(** The README member as the specification words it: the first stripped
    name equal to one of the candidates; the empty string when absent. *)
Definition readmeOf (ms : list TarEntry) : jsstring :=
  match find isReadmeName
          (map (fun e => stripFirstSegment (entryPath e)) (filter retained ms)) with
  | Some n => n
  | None => []
  end.

(** Well-formed UTF-16: every surrogate is part of a pair. *)
Fixpoint wellFormed (s : jsstring) : bool :=
  match s with
  | [] => true
  | c :: rest =>
      if isLeadingSurrogate c then
        match rest with
        | c2 :: rest' => isTrailingSurrogate c2 && wellFormed rest'
        | [] => false
        end
      else negb (isTrailingSurrogate c) && wellFormed rest
  end.

(** Code units [encodeURI] can output. *)
Definition isHexDigit (c : N) : bool := inRange 48 57 c || inRange 65 70 c.

Definition uriSafe (c : N) : bool :=
  unescapedURISet c || (c =? CHAR_PERCENT) || isHexDigit c.

(** Code units are below [2^16]. *)
Definition validUnits (s : jsstring) : bool :=
  forallb (fun c => c <? 0x10000) s.

Definition noSlash (s : jsstring) : bool :=
  forallb (fun c => negb (c =? CHAR_FORWARD_SLASH)) s.

(** Classes of collaborator calls. *)
Definition isMaterializeCall (c : Call) : bool :=
  match c with
  | CfindPackageVersionFile _ _ _ | Cfs_stat _ | CcalculateIntegrity _
  | CsaveDist _ _ | CcreatePackageVersionFile _ => true
  | _ => false
  end.

Definition isReadmeCall (c : Call) : bool :=
  match c with
  | CsavePackageVersionReadme _ _ => true
  | _ => false
  end.

Definition isDownloadCall (c : Call) : bool :=
  match c with
  | CdownloadDistToFile _ _ => true
  | _ => false
  end.

Definition isHasFilesCall (c : Call) : bool :=
  match c with
  | ChasPackageVersionFiles _ => true
  | _ => false
  end.

(** The log line of [#savePackageVersionFile]. *)
Definition isSaveLog (c : Call) : bool :=
  match c with
  | Clogger Info tag => String.eqb tag "savePackageVersionFile:success"
  | _ => false
  end.

(** Events of [#savePackageVersionFile]: its collaborator calls and its
    own log line. *)
Definition isSaveEvent (ev : Event) : bool :=
  isMaterializeCall (fst ev) || isSaveLog (fst ev).

Definition countCalls (p : Call -> bool) (evs : list Event) : nat :=
  List.length (filter (fun ev => p (fst ev)) evs).

(** What the [catch] block of [syncPackageVersionFiles] makes of an error. *)
Definition caught (e : JsError) (fs : list PackageVersionFile)
  : Outcome (list PackageVersionFile) :=
  if hasCode e TAR_BAD_ARCHIVE then Ok fs else Throw e.

Definition logDownloadStart : Event :=
  (Clogger Info "syncPackageVersionFiles:download-start", None).
Definition logExtractStart : Event :=
  (Clogger Info "syncPackageVersionFiles:extract-start", None).
Definition logSuccess : Event :=
  (Clogger Info "syncPackageVersionFiles:success", None).
Definition logError : Event :=
  (Clogger Warn "syncPackageVersionFiles:error", None).
Definition logCleanupWarn : Event :=
  (Clogger Warn "syncPackageVersionFiles:warn", None).

(** The oracle makes call [c] fail with [e] in some world. *)
Definition FaultAt (env : Env) (c : Call) (e : JsError) : Prop :=
  exists w, fault env c w = Some e.

(** [w'] is [w] with the events [evs] added, index [ix] and blobs [bs];
    packages, READMEs and disk are those of [w]. *)
Definition updated (w w' : World) (evs : list Event)
  (ix : list PackageVersionFile) (bs : list (Dist * jsstring)) : Prop :=
  trace w' = trace w ++ evs /\ index w' = ix /\ blobs w' = bs /\
  packages w' = packages w /\ readmes w' = readmes w /\ disk w' = disk w.

(** The blob record and the index entry that [#savePackageVersionFile]
    builds for a path whose percent-encoded form is [distPath]. *)
Definition newDist (env : Env) (pkg : Package) (pkgVersion : PackageVersion)
  (localFile distPath : jsstring) : Dist :=
  createPackageVersionFileDist pkg distPath (version pkgVersion)
    (fileSize env localFile) (fst (integrityOf env localFile))
    (snd (integrityOf env localFile)).

Definition newFile (env : Env) (pkg : Package) (pkgVersion : PackageVersion)
  (path localFile distPath : jsstring) : PackageVersionFile :=
  PackageVersionFile_create (packageVersionId pkgVersion)
    (Path.dirname path) (Path.basename path)
    (newDist env pkg pkgVersion localFile distPath)
    (mimeLookup env path) (publishTime pkgVersion).

(** What the [catch] block of [#savePackageVersionFile] makes of an
    error of the insert. *)
Definition caughtDup (e : JsError) (f : PackageVersionFile)
  : Outcome PackageVersionFile :=
  if hasCode e ER_DUP_ENTRY then Ok f else Throw e.

(** The shapes a run of [#savePackageVersionFile] can take. *)
Inductive SaveRun (env : Env) (pkg : Package) (pkgVersion : PackageVersion)
  (path localFile : jsstring) (w : World)
  : Outcome PackageVersionFile -> World -> Prop :=
| SR_find_failed e w' :
    FaultAt env (CfindPackageVersionFile (packageVersionId pkgVersion)
                   (Path.dirname path) (Path.basename path)) e ->
    updated w w'
      [(CfindPackageVersionFile (packageVersionId pkgVersion)
          (Path.dirname path) (Path.basename path), Some e)]
      (index w) (blobs w) ->
    SaveRun env pkg pkgVersion path localFile w (Throw e) w'
| SR_found f w' :
    indexed pkgVersion path (index w) = Some f ->
    updated w w'
      [(CfindPackageVersionFile (packageVersionId pkgVersion)
          (Path.dirname path) (Path.basename path), None)]
      (index w) (blobs w) ->
    SaveRun env pkg pkgVersion path localFile w (Ok f) w'
| SR_stat_failed e w' :
    indexed pkgVersion path (index w) = None ->
    FaultAt env (Cfs_stat localFile) e ->
    updated w w'
      [(CfindPackageVersionFile (packageVersionId pkgVersion)
          (Path.dirname path) (Path.basename path), None);
       (Cfs_stat localFile, Some e)]
      (index w) (blobs w) ->
    SaveRun env pkg pkgVersion path localFile w (Throw e) w'
| SR_integrity_failed e w' :
    indexed pkgVersion path (index w) = None ->
    FaultAt env (CcalculateIntegrity localFile) e ->
    updated w w'
      [(CfindPackageVersionFile (packageVersionId pkgVersion)
          (Path.dirname path) (Path.basename path), None);
       (Cfs_stat localFile, None);
       (CcalculateIntegrity localFile, Some e)]
      (index w) (blobs w) ->
    SaveRun env pkg pkgVersion path localFile w (Throw e) w'
| SR_uri_error w' :
    indexed pkgVersion path (index w) = None ->
    encodeURI path = None ->
    updated w w'
      [(CfindPackageVersionFile (packageVersionId pkgVersion)
          (Path.dirname path) (Path.basename path), None);
       (Cfs_stat localFile, None);
       (CcalculateIntegrity localFile, None)]
      (index w) (blobs w) ->
    SaveRun env pkg pkgVersion path localFile w (Throw URIError) w'
| SR_saveDist_failed dp e w' :
    indexed pkgVersion path (index w) = None ->
    encodeURI path = Some dp ->
    FaultAt env (CsaveDist (newDist env pkg pkgVersion localFile dp) localFile) e ->
    updated w w'
      [(CfindPackageVersionFile (packageVersionId pkgVersion)
          (Path.dirname path) (Path.basename path), None);
       (Cfs_stat localFile, None);
       (CcalculateIntegrity localFile, None);
       (CsaveDist (newDist env pkg pkgVersion localFile dp) localFile, Some e)]
      (index w) (blobs w) ->
    SaveRun env pkg pkgVersion path localFile w (Throw e) w'
| SR_create_failed dp e w' :
    indexed pkgVersion path (index w) = None ->
    encodeURI path = Some dp ->
    FaultAt env (CcreatePackageVersionFile
                   (newFile env pkg pkgVersion path localFile dp)) e ->
    updated w w'
      [(CfindPackageVersionFile (packageVersionId pkgVersion)
          (Path.dirname path) (Path.basename path), None);
       (Cfs_stat localFile, None);
       (CcalculateIntegrity localFile, None);
       (CsaveDist (newDist env pkg pkgVersion localFile dp) localFile, None);
       (CcreatePackageVersionFile (newFile env pkg pkgVersion path localFile dp),
        Some e)]
      (index w)
      (blobs w ++ [(newDist env pkg pkgVersion localFile dp, localFile)]) ->
    SaveRun env pkg pkgVersion path localFile w
      (caughtDup e (newFile env pkg pkgVersion path localFile dp)) w'
| SR_created dp w' :
    indexed pkgVersion path (index w) = None ->
    encodeURI path = Some dp ->
    updated w w'
      [(CfindPackageVersionFile (packageVersionId pkgVersion)
          (Path.dirname path) (Path.basename path), None);
       (Cfs_stat localFile, None);
       (CcalculateIntegrity localFile, None);
       (CsaveDist (newDist env pkg pkgVersion localFile dp) localFile, None);
       (CcreatePackageVersionFile (newFile env pkg pkgVersion path localFile dp),
        None);
       (Clogger Info "savePackageVersionFile:success", None)]
      (index w ++ [newFile env pkg pkgVersion path localFile dp])
      (blobs w ++ [(newDist env pkg pkgVersion localFile dp, localFile)]) ->
    SaveRun env pkg pkgVersion path localFile w
      (Ok (newFile env pkg pkgVersion path localFile dp)) w'.

(** The shapes a run of the [try]/[catch] part can take: its outcome and
    the events it adds, for the tarball behind the version. *)
Inductive TryRun (env : Env) (pkgVersion : PackageVersion)
  (tmpdir tarFile : jsstring)
  : Outcome (list PackageVersionFile) -> list Event -> Prop :=
| TR_download_failed e :
    FaultAt env (CdownloadDistToFile (tarDist pkgVersion) tarFile) e ->
    TryRun env pkgVersion tmpdir tarFile (caught e [])
      [logDownloadStart;
       (CdownloadDistToFile (tarDist pkgVersion) tarFile, Some e);
       logError]
| TR_extract_failed e :
    FaultAt env (Ctar_extract tarFile tmpdir) e \/
    rejection (tarball env (tarDist pkgVersion)) = Some e ->
    TryRun env pkgVersion tmpdir tarFile (caught e [])
      [logDownloadStart;
       (CdownloadDistToFile (tarDist pkgVersion) tarFile, None);
       logExtractStart;
       (Ctar_extract tarFile tmpdir, Some e);
       logError]
| TR_materialize_failed e mat fs :
    corrupt (tarball env (tarDist pkgVersion)) = false ->
    forallb isSaveEvent mat = true ->
    TryRun env pkgVersion tmpdir tarFile (caught e fs)
      ([logDownloadStart;
        (CdownloadDistToFile (tarDist pkgVersion) tarFile, None);
        logExtractStart;
        (Ctar_extract tarFile tmpdir, None)] ++ mat ++ [logError])
| TR_no_readme mat fs :
    corrupt (tarball env (tarDist pkgVersion)) = false ->
    forallb isSaveEvent mat = true ->
    map fileKey fs
    = map (pathKey pkgVersion) (manifestOf (members (tarball env (tarDist pkgVersion)))) ->
    readmeOf (members (tarball env (tarDist pkgVersion))) = [] ->
    TryRun env pkgVersion tmpdir tarFile (Ok fs)
      ([logDownloadStart;
        (CdownloadDistToFile (tarDist pkgVersion) tarFile, None);
        logExtractStart;
        (Ctar_extract tarFile tmpdir, None)] ++ mat ++ [logSuccess])
| TR_readme mat fs :
    corrupt (tarball env (tarDist pkgVersion)) = false ->
    forallb isSaveEvent mat = true ->
    map fileKey fs
    = map (pathKey pkgVersion) (manifestOf (members (tarball env (tarDist pkgVersion)))) ->
    readmeOf (members (tarball env (tarDist pkgVersion))) <> [] ->
    TryRun env pkgVersion tmpdir tarFile (Ok fs)
      ([logDownloadStart;
        (CdownloadDistToFile (tarDist pkgVersion) tarFile, None);
        logExtractStart;
        (Ctar_extract tarFile tmpdir, None)] ++ mat ++
       [logSuccess;
        (CsavePackageVersionReadme (packageVersionId pkgVersion)
           (join env tmpdir (readmeOf (members (tarball env (tarDist pkgVersion))))),
         None)])
| TR_readme_failed mat fs e :
    corrupt (tarball env (tarDist pkgVersion)) = false ->
    forallb isSaveEvent mat = true ->
    map fileKey fs
    = map (pathKey pkgVersion) (manifestOf (members (tarball env (tarDist pkgVersion)))) ->
    readmeOf (members (tarball env (tarDist pkgVersion))) <> [] ->
    TryRun env pkgVersion tmpdir tarFile (caught e fs)
      ([logDownloadStart;
        (CdownloadDistToFile (tarDist pkgVersion) tarFile, None);
        logExtractStart;
        (Ctar_extract tarFile tmpdir, None)] ++ mat ++
       [logSuccess;
        (CsavePackageVersionReadme (packageVersionId pkgVersion)
           (join env tmpdir (readmeOf (members (tarball env (tarDist pkgVersion))))),
         Some e);
        logError]).

(** The shapes a run of the [finally] block can take: the events it adds
    and the disk it leaves, from the disk [d] it starts on. *)
Inductive CleanupRun (env : Env) (tmpdir tarFile : jsstring)
  (d : list (jsstring * Node))
  : list Event -> list (jsstring * Node) -> Prop :=
| CR_done :
    CleanupRun env tmpdir tarFile d
      [(Cfs_rm tarFile false, None); (Cfs_rm tmpdir true, None)]
      (disk_remove tmpdir (disk_remove tarFile d))
| CR_dir_failed e :
    FaultAt env (Cfs_rm tmpdir true) e ->
    CleanupRun env tmpdir tarFile d
      [(Cfs_rm tarFile false, None); (Cfs_rm tmpdir true, Some e); logCleanupWarn]
      (disk_remove tarFile d)
| CR_file_failed e :
    FaultAt env (Cfs_rm tarFile false) e ->
    CleanupRun env tmpdir tarFile d
      [(Cfs_rm tarFile false, Some e); logCleanupWarn]
      d.

(** An index entry whose blob is keyed by the percent-encoded form of a
    path it is the entry of. *)
Definition uriKeyed (f : PackageVersionFile) : Prop :=
  exists path,
    directory f = Path.dirname path /\ name f = Path.basename path /\
    encodeURI path = Some (distPath (dist f)).

(** Every path of [ps] has an entry in the index [ix]. *)
Definition allIndexed (pkgVersion : PackageVersion) (ps : list jsstring)
  (ix : list PackageVersionFile) : Prop :=
  Forall (fun p => indexed pkgVersion p ix <> None) ps.

(** The temporary directory of a run that starts in world [w]. *)
Definition syncTempDir (env : Env) (pkg : Package) (pkgVersion : PackageVersion)
  (w : World) : jsstring :=
  tempDirPath env (dataDir env)
    (tempDirName pkg pkgVersion
       (randomUUID env (emit (CfindPackageByPackageId (packageId pkgVersion), None) w))).

Definition findPackage (pkgVersion : PackageVersion) (w : World) : option Package :=
  find (fun p => eqb (pkgPackageId p) (packageId pkgVersion)) (packages w).

(** The world after a download without fault, and the locals after an
    extraction without fault of an archive that is not corrupt. *)
Definition downloadedWorld (env : Env) (pkgVersion : PackageVersion)
  (tarFile : jsstring) (w : World) : World :=
  emit logExtractStart
    (emit (CdownloadDistToFile (tarDist pkgVersion) tarFile, None)
       (set_disk ((tarFile, NTarball (tarball env (tarDist pkgVersion)))
                  :: disk_remove tarFile (disk w))
          (emit logDownloadStart w))).

Definition extractedFrame (env : Env) (pkgVersion : PackageVersion)
  (tmpdir tarFile : jsstring) (w : World) : Frame :=
  mkFrame
    (emit (Ctar_extract tarFile tmpdir, None) (downloadedWorld env pkgVersion tarFile w))
    []
    (manifestOf (members (tarball env (tarDist pkgVersion))))
    (readmeOf (members (tarball env (tarDist pkgVersion)))).

(** The world in which the [try] block starts: the temporary directory
    exists. *)
Definition preparedWorld (env : Env) (pkg : Package) (pkgVersion : PackageVersion)
  (w : World) : World :=
  emit (CcreateTempDir (dataDir env)
          (tempDirName pkg pkgVersion
             (randomUUID env
                (emit (CfindPackageByPackageId (packageId pkgVersion), None) w))),
        None)
    (set_disk
       ((syncTempDir env pkg pkgVersion w, NDir)
        :: disk_remove (syncTempDir env pkg pkgVersion w) (disk w))
       (emit (CfindPackageByPackageId (packageId pkgVersion), None) w)).

(** The shapes a run of [syncPackageVersionFiles] can take. *)
Inductive SyncRun (env : Env) (pkgVersion : PackageVersion) (w : World)
  : Outcome (list PackageVersionFile) -> World -> Prop :=
| SY_find_failed e w' :
    FaultAt env (CfindPackageByPackageId (packageId pkgVersion)) e ->
    trace w' = trace w ++ [(CfindPackageByPackageId (packageId pkgVersion), Some e)] ->
    index w' = index w -> blobs w' = blobs w ->
    SyncRun env pkgVersion w (Throw e) w'
| SY_no_package :
    findPackage pkgVersion w = None ->
    SyncRun env pkgVersion w (Ok [])
      (emit (CfindPackageByPackageId (packageId pkgVersion), None) w)
| SY_tempdir_failed pkg e w' :
    findPackage pkgVersion w = Some pkg ->
    FaultAt env (CcreateTempDir (dataDir env)
                   (tempDirName pkg pkgVersion
                      (randomUUID env
                         (emit (CfindPackageByPackageId (packageId pkgVersion), None) w)))) e ->
    trace w' = trace w ++
      [(CfindPackageByPackageId (packageId pkgVersion), None);
       (CcreateTempDir (dataDir env)
          (tempDirName pkg pkgVersion
             (randomUUID env
                (emit (CfindPackageByPackageId (packageId pkgVersion), None) w))),
        Some e)] ->
    index w' = index w -> blobs w' = blobs w ->
    SyncRun env pkgVersion w (Throw e) w'
| SY_protected pkg r body cleanup d1 w' :
    findPackage pkgVersion w = Some pkg ->
    fault env (CfindPackageByPackageId (packageId pkgVersion)) w = None ->
    fault env
      (CcreateTempDir (dataDir env)
         (tempDirName pkg pkgVersion
            (randomUUID env
               (emit (CfindPackageByPackageId (packageId pkgVersion), None) w))))
      (emit (CfindPackageByPackageId (packageId pkgVersion), None) w) = None ->
    TryRun env pkgVersion (syncTempDir env pkg pkgVersion w)
      (syncTempDir env pkg pkgVersion w ++ lit ".tgz") r body ->
    CleanupRun env (syncTempDir env pkg pkgVersion w)
      (syncTempDir env pkg pkgVersion w ++ lit ".tgz") d1 cleanup (disk w') ->
    trace w' = trace w ++
      [(CfindPackageByPackageId (packageId pkgVersion), None);
       (CcreateTempDir (dataDir env)
          (tempDirName pkg pkgVersion
             (randomUUID env
                (emit (CfindPackageByPackageId (packageId pkgVersion), None) w))),
        None)] ++ body ++ cleanup ->
    (index w' = index w /\ blobs w' = blobs w /\
     forall fs, r = Ok fs -> fs = []) \/
    (exists rm frM,
        materialize env pkg pkgVersion (syncTempDir env pkg pkgVersion w)
          (manifestOf (members (tarball env (tarDist pkgVersion))))
          (extractedFrame env pkgVersion (syncTempDir env pkg pkgVersion w)
             (syncTempDir env pkg pkgVersion w ++ lit ".tgz")
             (preparedWorld env pkg pkgVersion w)) = (rm, frM) /\
        index w' = index (world frM) /\ blobs w' = blobs (world frM) /\
        forall fs, r = Ok fs -> fs = files frM) ->
    SyncRun env pkgVersion w r w'.

(** Calls that precede or perform the extraction. *)
Definition reachesExtraction (c : Call) : bool :=
  match c with
  | CfindPackageByPackageId _ | CcreateTempDir _ _
  | CdownloadDistToFile _ _ | Ctar_extract _ _ => true
  | _ => false
  end.

(** The three shapes of the events of the [finally] block. *)
Definition cleanupEvents (tmpdir tarFile : jsstring) (evs : list Event) : Prop :=
  evs = [(Cfs_rm tarFile false, None); (Cfs_rm tmpdir true, None)]
  \/ (exists e, evs = [(Cfs_rm tarFile false, None); (Cfs_rm tmpdir true, Some e);
                       logCleanupWarn])
  \/ (exists e, evs = [(Cfs_rm tarFile false, Some e); logCleanupWarn]).

(** *** Vocabulary of the further properties *)

(** Occurrences of [/] in a string. *)
Definition countSlash (s : jsstring) : nat :=
  List.length (filter (fun c => c =? CHAR_FORWARD_SLASH) s).

(** An index entry is well placed when its name has no [/] and its
    directory starts with [/]. *)
Definition wellPlaced (f : PackageVersionFile) : Prop :=
  noSlash (name f) = true /\ startsWith (directory f) (lit "/") = true.

(** The blob of an index entry is in the blob store. *)
Definition blobStored (bs : list (Dist * jsstring)) (f : PackageVersionFile) : Prop :=
  In (dist f) (map fst bs).

(** Failures used to run the service on examples. *)
Module Scenario.

(** A failure of kind [TAR_BAD_ARCHIVE], as any call may raise it. *)
Definition badArchive : JsError :=
  mkError (Some TAR_BAD_ARCHIVE) "Unrecognized archive format".

(** [fs.stat] fails with [e] on the file [p], and nothing else fails. *)
Definition statFails (p : jsstring) (e : JsError)
  : Call -> World -> option JsError :=
  fun c _ =>
    match c with
    | Cfs_stat f => if eqb f p then Some e else None
    | _ => None
    end.

Definition isCreateTempDir (c : Call) : bool :=
  match c with CcreateTempDir _ _ => true | _ => false end.

(** The file [README.md] of [Demo.tgz_basic] in the temporary directory
    of a run that starts in [Demo.w0]. *)
Definition readmeFile : jsstring :=
  lit "/data/unpkg_@scope_foo@1.0.0_u1/README.md".

End Scenario.

(** The calls [syncPackageVersionFiles] makes before its [try] block. *)
Definition isSetupCall (c : Call) : bool :=
  match c with
  | CfindPackageByPackageId _ | CcreateTempDir _ _ => true
  | _ => false
  end.

(** Whether the index holds an entry of the version, as
    [hasPackageVersionFiles] answers. *)
Definition hasFiles (pkgVersion : PackageVersion) (w : World) : bool :=
  existsb (fun f => eqb (filePackageVersionId f) (packageVersionId pkgVersion))
    (index w).

(* ================================================================== *)
(** ** Facts about strings *)

Section StringFacts.

Lemma jseqb_refl (a : jsstring) : eqb a a = true.
Proof.
  induction a as [|x a IH]; simpl; [reflexivity|].
  now rewrite N.eqb_refl, IH.
Qed.

Lemma jseqb_eq (a b : jsstring) : eqb a b = true <-> a = b.
Proof.
  split.
  - revert b; induction a as [|x a IH]; intros [|y b] H; simpl in H;
      try discriminate; [reflexivity|].
    apply andb_true_iff in H as [Hx Hab].
    apply N.eqb_eq in Hx; subst y.
    now rewrite (IH b Hab).
  - intros ->; apply jseqb_refl.
Qed.

Lemma split_nonempty (sep : N) (s : jsstring) : split sep s <> [].
Proof.
  destruct s as [|c s]; simpl; [discriminate|].
  destruct (c =? sep); [discriminate|].
  destruct (split sep s); discriminate.
Qed.

(** Joining what was split gives the string back. *)
Lemma arr_join_split (sep : N) (s : jsstring) :
  arr_join [sep] (split sep s) = s.
Proof.
  induction s as [|c s IH]; [reflexivity|].
  simpl split.
  destruct (c =? sep) eqn:E.
  - apply N.eqb_eq in E; subst c.
    pose proof (split_nonempty sep s) as Hne.
    destruct (split sep s) as [|seg segs] eqn:Hs; [contradiction|].
    change (arr_join [sep] ([] :: seg :: segs))
      with ([] ++ [sep] ++ arr_join [sep] (seg :: segs)).
    now rewrite IH.
  - destruct (split sep s) as [|seg segs] eqn:Hs.
    + exfalso; eapply split_nonempty; eassumption.
    + destruct segs as [|seg2 segs].
      * simpl in *; now rewrite IH.
      * change (arr_join [sep] ((c :: seg) :: seg2 :: segs))
          with (c :: (seg ++ [sep] ++ arr_join [sep] (seg2 :: segs))).
        change (arr_join [sep] (seg :: seg2 :: segs))
          with (seg ++ [sep] ++ arr_join [sep] (seg2 :: segs)) in IH.
        now rewrite IH.
Qed.

Lemma split_first_segment (seg rest : jsstring) :
  noSlash seg = true ->
  split CHAR_FORWARD_SLASH (seg ++ CHAR_FORWARD_SLASH :: rest)
  = seg :: split CHAR_FORWARD_SLASH rest.
Proof.
  induction seg as [|c seg IH]; intros H.
  - reflexivity.
  - simpl in H. apply andb_true_iff in H as [Hc Hs].
    apply negb_true_iff in Hc.
    change ((c :: seg) ++ CHAR_FORWARD_SLASH :: rest)
      with (c :: (seg ++ CHAR_FORWARD_SLASH :: rest)).
    simpl split. rewrite Hc, (IH Hs). reflexivity.
Qed.

Lemma split_single_segment (s : jsstring) :
  noSlash s = true -> split CHAR_FORWARD_SLASH s = [s].
Proof.
  induction s as [|c s IH]; intros H; [reflexivity|].
  simpl in H. apply andb_true_iff in H as [Hc Hs].
  apply negb_true_iff in Hc.
  simpl split. now rewrite Hc, (IH Hs).
Qed.

(** Stripping removes the text up to and including the first [/]. *)
Lemma stripFirstSegment_segment (seg rest : jsstring) :
  noSlash seg = true ->
  stripFirstSegment (seg ++ CHAR_FORWARD_SLASH :: rest) = rest.
Proof.
  intros H. unfold stripFirstSegment.
  rewrite (split_first_segment seg rest H). simpl skipn.
  apply (arr_join_split CHAR_FORWARD_SLASH).
Qed.

(** A name without [/] has nothing after its first segment. *)
Lemma stripFirstSegment_single (s : jsstring) :
  noSlash s = true -> stripFirstSegment s = [].
Proof.
  intros H. unfold stripFirstSegment.
  now rewrite (split_single_segment s H).
Qed.

Lemma noSlash_nth (nm : jsstring) (j : nat) :
  noSlash nm = true -> (j < List.length nm)%nat ->
  (nth j nm 0 =? CHAR_FORWARD_SLASH) = false.
Proof.
  revert j; induction nm as [|c nm IH]; intros j H Hj; simpl in Hj; [lia|].
  simpl in H. apply andb_true_iff in H as [Hc Hs].
  apply negb_true_iff in Hc.
  destruct j as [|j]; simpl; [exact Hc|].
  apply IH; [exact Hs | lia].
Qed.

End StringFacts.

(* ================================================================== *)
(** ** Facts about [dirname] and [basename] *)

Section PathFacts.

Variables (d nm : jsstring).
Hypothesis nm_noSlash : noSlash nm = true.

Local Abbreviation path := (d ++ CHAR_FORWARD_SLASH :: nm).

Lemma charCodeAt_name (j : nat) :
  charCodeAt path (List.length d + S j) = nth j nm 0.
Proof.
  unfold charCodeAt.
  rewrite app_nth2 by lia.
  replace (List.length d + S j - List.length d)%nat with (S j) by lia.
  reflexivity.
Qed.

Lemma charCodeAt_slash :
  charCodeAt path (List.length d) = CHAR_FORWARD_SLASH.
Proof.
  unfold charCodeAt.
  rewrite app_nth2 by lia.
  now rewrite Nat.sub_diag.
Qed.

Lemma dirname_scan_slash :
  Path.dirname_scan path (List.length d) false
  = match List.length d with O => None | S _ => Some (List.length d) end.
Proof.
  pose proof charCodeAt_slash as Hc.
  destruct (List.length d) as [|k] eqn:Hk; [reflexivity|].
  simpl. rewrite Hc. reflexivity.
Qed.

Lemma dirname_scan_name (j : nat) (matchedSlash : bool) :
  (j < List.length nm)%nat ->
  Path.dirname_scan path (List.length d + S j) matchedSlash
  = match List.length d with O => None | S _ => Some (List.length d) end.
Proof.
  revert matchedSlash; induction j as [|j IH]; intros ms Hj.
  - rewrite Nat.add_succ_r. simpl Path.dirname_scan.
    rewrite <- Nat.add_succ_r, charCodeAt_name, (noSlash_nth nm 0 nm_noSlash Hj).
    rewrite Nat.add_0_r. apply dirname_scan_slash.
  - rewrite Nat.add_succ_r. simpl Path.dirname_scan.
    rewrite <- Nat.add_succ_r, charCodeAt_name, (noSlash_nth nm (S j) nm_noSlash Hj).
    apply IH; lia.
Qed.

Lemma basename_scan_name (j : nat) (e : nat) :
  (j <= List.length nm)%nat ->
  Path.basename_scan path (List.length d + S j) (Some e) false
  = (S (List.length d), Some e).
Proof.
  induction j as [|j IH]; intros Hj.
  - rewrite Nat.add_succ_r, Nat.add_0_r. simpl Path.basename_scan.
    now rewrite charCodeAt_slash.
  - rewrite Nat.add_succ_r. simpl Path.basename_scan.
    rewrite charCodeAt_name, (noSlash_nth nm j nm_noSlash) by lia.
    apply IH; lia.
Qed.

Lemma path_length :
  List.length path = (List.length d + S (List.length nm))%nat.
Proof. rewrite length_app. reflexivity. Qed.

End PathFacts.

Lemma nonempty_length (s : jsstring) :
  s <> [] -> exists k, List.length s = S k.
Proof. destruct s; [contradiction | intros _; eexists; reflexivity]. Qed.

(** The base name of [d/nm] is [nm]. *)
Lemma basename_of_name (d nm : jsstring) :
  noSlash nm = true -> nm <> [] ->
  Path.basename (d ++ CHAR_FORWARD_SLASH :: nm) = nm.
Proof.
  intros Hs Hne. unfold Path.basename. rewrite path_length.
  destruct (nonempty_length nm Hne) as [k Hk].
  rewrite Hk, Nat.add_succ_r. simpl Path.basename_scan.
  rewrite (charCodeAt_name d nm), (noSlash_nth nm _ Hs) by lia.
  rewrite (basename_scan_name d nm Hs) by lia.
  unfold slice.
  replace (S (List.length d + S k) - S (List.length d))%nat
    with (List.length nm) by lia.
  replace (S (List.length d)) with (List.length (d ++ [CHAR_FORWARD_SLASH]))
    by (rewrite length_app; simpl; lia).
  replace (d ++ CHAR_FORWARD_SLASH :: nm) with ((d ++ [CHAR_FORWARD_SLASH]) ++ nm)
    by (now rewrite <- app_assoc).
  rewrite skipn_app, Nat.sub_diag, skipn_all. simpl.
  apply firstn_all.
Qed.

(** The directory of [d/nm] is [d], except that an empty [d] gives [/]
    and [d = "/"] gives [//]. *)
Lemma dirname_of_name (d nm : jsstring) :
  noSlash nm = true -> nm <> [] ->
  Path.dirname (d ++ CHAR_FORWARD_SLASH :: nm)
  = if falsy d then lit "/" else if eqb d (lit "/") then lit "//" else d.
Proof.
  intros Hs Hne. unfold Path.dirname. rewrite path_length.
  rewrite Nat.add_succ_r. simpl Nat.eqb. cbn iota.
  replace (S (List.length d + List.length nm) - 1)%nat
    with (List.length d + List.length nm)%nat by lia.
  destruct (nonempty_length nm Hne) as [k Hk].
  rewrite Hk, (dirname_scan_name d nm Hs) by lia.
  destruct d as [|c0 d'].
  - reflexivity.
  - simpl List.length. unfold slice. rewrite Nat.sub_0_r. simpl skipn.
    assert (Hfirst : firstn (S (List.length d'))
                       (c0 :: d' ++ CHAR_FORWARD_SLASH :: nm) = c0 :: d').
    { change (c0 :: d' ++ CHAR_FORWARD_SLASH :: nm)
        with ((c0 :: d') ++ CHAR_FORWARD_SLASH :: nm).
      change (S (List.length d')) with (List.length (c0 :: d')).
      rewrite firstn_app, Nat.sub_diag, firstn_all.
      simpl. now rewrite app_nil_r. }
    rewrite Hfirst. simpl falsy. cbn iota.
    change (charCodeAt ((c0 :: d') ++ CHAR_FORWARD_SLASH :: nm) 0) with c0.
    destruct d' as [|c1 d''].
    + simpl. rewrite !andb_true_r. reflexivity.
    + simpl List.length. simpl Nat.eqb. rewrite andb_false_r.
      simpl eqb. now rewrite andb_false_r.
Qed.

(* ================================================================== *)
(** ** Facts about [encodeURI] *)

Section EncodeFacts.

(** Induction that follows [encodeURI], which consumes one or two code
    units at a time. *)
Lemma jsstring_ind2 (P : jsstring -> Prop) :
  P [] ->
  (forall c, P [c]) ->
  (forall c c2 s, P s -> P (c2 :: s) -> P (c :: c2 :: s)) ->
  forall s, P s.
Proof.
  intros H0 H1 H2 s.
  enough (P s /\ forall c, P (c :: s)) by tauto.
  induction s as [|c2 s [IHs IHc]]; split; auto.
Qed.

Lemma option_map_Some {A B} (f : A -> B) (o : option A) (r : B) :
  option_map f o = Some r -> exists x, o = Some x /\ r = f x.
Proof. destruct o; simpl; intros H; inversion H; eauto. Qed.

Lemma encodeURI_cons (c : N) (rest : jsstring) :
  encodeURI (c :: rest) =
  if unescapedURISet c then option_map (cons c) (encodeURI rest)
  else if isTrailingSurrogate c then None
  else if isLeadingSurrogate c then
    match rest with
    | [] => None
    | c2 :: rest' =>
        if isTrailingSurrogate c2 then
          option_map
            (app (percentAll (utf8 (UTF16SurrogatePairToCodePoint c c2))))
            (encodeURI rest')
        else None
    end
  else option_map (app (percentAll (utf8 c))) (encodeURI rest).
Proof. reflexivity. Qed.

Lemma encodeURI_chi_head (b : jsstring) :
  encodeURI (967 :: b) = option_map (app (lit "%CF%87")) (encodeURI b).
Proof. rewrite encodeURI_cons. reflexivity. Qed.

(** A [χ] in the input comes out as [%CF%87], between the encodings of
    what precedes and what follows it. *)
Lemma encodeURI_chi (a : jsstring) :
  forall b r,
    encodeURI (a ++ 967 :: b) = Some r ->
    exists ra rb,
      encodeURI a = Some ra /\ encodeURI b = Some rb /\
      r = ra ++ lit "%CF%87" ++ rb.
Proof.
  induction a as [|c|c c2 s IHs IHc] using jsstring_ind2; intros b r H.
  - simpl app in H. rewrite encodeURI_chi_head in H.
    apply option_map_Some in H as (rb & Hb & ->).
    exists [], rb. auto.
  - change ([c] ++ 967 :: b) with (c :: 967 :: b) in H.
    rewrite encodeURI_cons in H. rewrite encodeURI_cons.
    destruct (unescapedURISet c).
    + apply option_map_Some in H as (x & Hx & ->).
      rewrite encodeURI_chi_head in Hx.
      apply option_map_Some in Hx as (rb & Hb & ->).
      exists [c], rb. auto.
    + destruct (isTrailingSurrogate c); [discriminate|].
      destruct (isLeadingSurrogate c); [discriminate|].
      apply option_map_Some in H as (x & Hx & ->).
      rewrite encodeURI_chi_head in Hx.
      apply option_map_Some in Hx as (rb & Hb & ->).
      exists (percentAll (utf8 c)), rb. simpl encodeURI. unfold option_map.
      rewrite app_nil_r. auto.
  - change ((c :: c2 :: s) ++ 967 :: b) with (c :: (c2 :: s) ++ 967 :: b) in H.
    rewrite encodeURI_cons in H. rewrite (encodeURI_cons c (c2 :: s)).
    destruct (unescapedURISet c).
    + apply option_map_Some in H as (x & Hx & ->).
      apply IHc in Hx as (ra & rb & Ha & Hb & ->).
      rewrite Ha. exists (c :: ra), rb. auto.
    + destruct (isTrailingSurrogate c); [discriminate|].
      destruct (isLeadingSurrogate c).
      * change ((c2 :: s) ++ 967 :: b) with (c2 :: s ++ 967 :: b) in H.
        cbn iota in H.
        destruct (isTrailingSurrogate c2); [|discriminate].
        apply option_map_Some in H as (x & Hx & ->).
        apply IHs in Hx as (ra & rb & Ha & Hb & ->).
        rewrite Ha. eexists _, rb. split; [reflexivity|]. split; [exact Hb|].
        now rewrite app_assoc.
      * apply option_map_Some in H as (x & Hx & ->).
        apply IHc in Hx as (ra & rb & Ha & Hb & ->).
        rewrite Ha. eexists _, rb. split; [reflexivity|]. split; [exact Hb|].
        now rewrite app_assoc.
Qed.

Lemma unescaped_ascii (c : N) : unescapedURISet c = true -> c < 128.
Proof.
  unfold unescapedURISet, uriUnescaped, isAlpha, isDigit, inRange, mem.
  simpl existsb.
  repeat rewrite orb_true_iff. repeat rewrite andb_true_iff.
  repeat rewrite N.eqb_eq. repeat rewrite N.leb_le.
  lia.
Qed.

Lemma leading_not_unescaped (c : N) :
  isLeadingSurrogate c = true -> unescapedURISet c = false.
Proof.
  intros H. destruct (unescapedURISet c) eqn:E; [|reflexivity].
  apply unescaped_ascii in E.
  unfold isLeadingSurrogate, inRange in H.
  apply andb_true_iff in H as [H _]. apply N.leb_le in H. lia.
Qed.

Lemma leading_not_trailing (c : N) :
  isLeadingSurrogate c = true -> isTrailingSurrogate c = false.
Proof.
  unfold isLeadingSurrogate, isTrailingSurrogate, inRange.
  intros H. apply andb_true_iff in H as [_ H]. apply N.leb_le in H.
  apply andb_false_iff. left. apply N.leb_gt. lia.
Qed.

(** [encodeURI] is defined on every well-formed string. *)
Lemma encodeURI_wellFormed (s : jsstring) :
  wellFormed s = true -> exists r, encodeURI s = Some r.
Proof.
  induction s as [|c|c c2 s IHs IHc] using jsstring_ind2; intros H.
  - exists []. reflexivity.
  - rewrite encodeURI_cons. simpl in H.
    destruct (unescapedURISet c); [simpl; eauto|].
    destruct (isLeadingSurrogate c); [discriminate|].
    rewrite andb_true_r in H. apply negb_true_iff in H. rewrite H.
    simpl; eauto.
  - rewrite encodeURI_cons.
    change (wellFormed (c :: c2 :: s)) with
      (if isLeadingSurrogate c then isTrailingSurrogate c2 && wellFormed s
       else negb (isTrailingSurrogate c) && wellFormed (c2 :: s)) in H.
    destruct (isLeadingSurrogate c) eqn:Hl.
    + apply andb_true_iff in H as [Ht Hs].
      destruct (IHs Hs) as [r Hr].
      rewrite (leading_not_unescaped c Hl), (leading_not_trailing c Hl), Ht, Hr.
      simpl; eauto.
    + apply andb_true_iff in H as [Ht Hs].
      apply negb_true_iff in Ht. rewrite Ht.
      destruct (IHc Hs) as [r Hr]. rewrite Hr.
      destruct (unescapedURISet c); simpl; eauto.
Qed.

(** What follows a [/] in a well-formed string is well-formed. *)
Lemma wellFormed_after_slash (a : jsstring) :
  forall b, wellFormed (a ++ CHAR_FORWARD_SLASH :: b) = true ->
            wellFormed b = true.
Proof.
  induction a as [|c|c c2 s IHs IHc] using jsstring_ind2; intros b H.
  - exact H.
  - change ([c] ++ CHAR_FORWARD_SLASH :: b) with (c :: CHAR_FORWARD_SLASH :: b) in H.
    change (wellFormed (c :: CHAR_FORWARD_SLASH :: b)) with
      (if isLeadingSurrogate c then isTrailingSurrogate CHAR_FORWARD_SLASH && wellFormed b
       else negb (isTrailingSurrogate c) && wellFormed (CHAR_FORWARD_SLASH :: b)) in H.
    destruct (isLeadingSurrogate c); [discriminate|].
    apply andb_true_iff in H as [_ H]. exact H.
  - change ((c :: c2 :: s) ++ CHAR_FORWARD_SLASH :: b)
      with (c :: c2 :: (s ++ CHAR_FORWARD_SLASH :: b)) in H.
    change (wellFormed (c :: c2 :: (s ++ CHAR_FORWARD_SLASH :: b))) with
      (if isLeadingSurrogate c
       then isTrailingSurrogate c2 && wellFormed (s ++ CHAR_FORWARD_SLASH :: b)
       else negb (isTrailingSurrogate c)
            && wellFormed (c2 :: (s ++ CHAR_FORWARD_SLASH :: b))) in H.
    destruct (isLeadingSurrogate c).
    + apply andb_true_iff in H as [_ H]. now apply IHs.
    + apply andb_true_iff in H as [_ H]. now apply IHc.
Qed.

Lemma first_segment_cases (p : jsstring) :
  noSlash p = true \/
  exists seg rest, p = seg ++ CHAR_FORWARD_SLASH :: rest /\ noSlash seg = true.
Proof.
  induction p as [|c p IH]; [left; reflexivity|].
  destruct (c =? CHAR_FORWARD_SLASH) eqn:E.
  - right. apply N.eqb_eq in E; subst c. exists [], p. auto.
  - destruct IH as [H | (seg & rest & -> & H)].
    + left. simpl. now rewrite E, H.
    + right. exists (c :: seg), rest. split; [reflexivity|].
      simpl. now rewrite E, H.
Qed.

(** Manifest paths of well-formed member names are well-formed. *)
Lemma wellFormed_manifest_path (p : jsstring) :
  wellFormed p = true -> wellFormed (lit "/" ++ stripFirstSegment p) = true.
Proof.
  intros H.
  destruct (first_segment_cases p) as [Hs | (seg & rest & -> & Hs)].
  - now rewrite (stripFirstSegment_single p Hs).
  - rewrite (stripFirstSegment_segment seg rest Hs).
    apply wellFormed_after_slash in H. exact H.
Qed.

Lemma lor_lt_256 (a b : N) : a < 256 -> b < 256 -> N.lor a b < 256.
Proof.
  intros Ha Hb.
  destruct (N.eq_dec a 0) as [->|Ha0]; [now rewrite N.lor_0_l|].
  destruct (N.eq_dec b 0) as [->|Hb0]; [now rewrite N.lor_0_r|].
  change 256 with (2 ^ 8) in *.
  assert (Hpos : 0 < N.lor a b).
  { destruct (N.eq_dec (N.lor a b) 0) as [E|E]; [|lia].
    apply N.lor_eq_0_iff in E. lia. }
  apply N.log2_lt_pow2; [exact Hpos|].
  rewrite N.log2_lor. apply N.max_lub_lt; apply N.log2_lt_pow2; lia.
Qed.

Lemma land_63 (x : N) : N.land x 0x3F < 64.
Proof.
  change 0x3F with (N.ones 6). rewrite N.land_ones.
  change (2 ^ 6) with 64. apply N.mod_lt. discriminate.
Qed.

Lemma shiftr_bound (x n q : N) : x < 2 ^ n * q -> N.shiftr x n < q.
Proof.
  intros H. rewrite N.shiftr_div_pow2.
  apply N.Div0.div_lt_upper_bound. exact H.
Qed.

(** The UTF-8 octets of a code point are octets. *)
Lemma utf8_octets (cp : N) :
  cp < 0x200000 -> Forall (fun o => o < 256) (utf8 cp).
Proof.
  intros H. unfold utf8.
  destruct (cp <? 0x80) eqn:E1; [apply N.ltb_lt in E1; repeat constructor; lia|].
  destruct (cp <? 0x800) eqn:E2; [apply N.ltb_lt in E2|].
  { repeat constructor; apply lor_lt_256; try lia.
    - assert (N.shiftr cp 6 < 32) by (apply shiftr_bound; simpl; lia). lia.
    - pose proof (land_63 cp). lia. }
  destruct (cp <? 0x10000) eqn:E3; [apply N.ltb_lt in E3|].
  { repeat constructor; apply lor_lt_256; try lia.
    - assert (N.shiftr cp 12 < 16) by (apply shiftr_bound; simpl; lia). lia.
    - pose proof (land_63 (N.shiftr cp 6)). lia.
    - pose proof (land_63 cp). lia. }
  repeat constructor; apply lor_lt_256; try lia.
  - assert (N.shiftr cp 18 < 8) by (apply shiftr_bound; simpl; lia). lia.
  - pose proof (land_63 (N.shiftr cp 12)). lia.
  - pose proof (land_63 (N.shiftr cp 6)). lia.
  - pose proof (land_63 cp). lia.
Qed.

Lemma hexDigit_hex (d : N) : d < 16 -> isHexDigit (hexDigit d) = true.
Proof.
  intros H. unfold hexDigit, isHexDigit, inRange.
  destruct (d <? 10) eqn:E.
  - apply N.ltb_lt in E. apply orb_true_iff. left.
    apply andb_true_iff. split; apply N.leb_le; lia.
  - apply N.ltb_ge in E. apply orb_true_iff. right.
    apply andb_true_iff. split; apply N.leb_le; lia.
Qed.

Lemma percent_safe (o : N) : o < 256 -> forallb uriSafe (percent o) = true.
Proof.
  intros H. unfold percent. cbn [forallb].
  assert (H1 : isHexDigit (hexDigit (N.shiftr o 4)) = true).
  { apply hexDigit_hex. apply shiftr_bound. simpl. lia. }
  assert (H2 : isHexDigit (hexDigit (N.land o 0xF)) = true).
  { apply hexDigit_hex. change 0xF with (N.ones 4). rewrite N.land_ones.
    change (2 ^ 4) with 16. apply N.mod_lt. discriminate. }
  change (uriSafe CHAR_PERCENT) with true. cbn [andb].
  unfold uriSafe. rewrite H1, H2, !orb_true_r. reflexivity.
Qed.

Lemma percentAll_safe (os : list N) :
  Forall (fun o => o < 256) os -> forallb uriSafe (percentAll os) = true.
Proof.
  induction 1 as [|o os Ho _ IH]; [reflexivity|].
  unfold percentAll in *.
  change (flat_map percent (o :: os)) with (percent o ++ flat_map percent os).
  rewrite forallb_app, IH, percent_safe by exact Ho. reflexivity.
Qed.

Lemma pair_code_point (c c2 : N) :
  isLeadingSurrogate c = true -> isTrailingSurrogate c2 = true ->
  UTF16SurrogatePairToCodePoint c c2 < 0x200000.
Proof.
  unfold isLeadingSurrogate, isTrailingSurrogate, inRange,
    UTF16SurrogatePairToCodePoint.
  rewrite !andb_true_iff, !N.leb_le. lia.
Qed.

(** Whatever [encodeURI] returns consists of unescaped ASCII characters,
    [%] and hexadecimal digits. *)
Lemma encodeURI_safe (s : jsstring) :
  forall r, validUnits s = true -> encodeURI s = Some r ->
            forallb uriSafe r = true.
Proof.
  induction s as [|c|c c2 s IHs IHc] using jsstring_ind2; intros r Hv H.
  - inversion H. reflexivity.
  - rewrite encodeURI_cons in H. simpl in Hv. rewrite andb_true_r in Hv.
    apply N.ltb_lt in Hv.
    destruct (unescapedURISet c) eqn:Hu.
    + inversion H; subst. simpl. unfold uriSafe. now rewrite Hu.
    + destruct (isTrailingSurrogate c); [discriminate|].
      destruct (isLeadingSurrogate c); [discriminate|].
      inversion H; subst. rewrite app_nil_r.
      apply percentAll_safe, utf8_octets. lia.
  - rewrite encodeURI_cons in H.
    change (validUnits (c :: c2 :: s))
      with ((c <? 0x10000) && validUnits (c2 :: s)) in Hv.
    apply andb_true_iff in Hv as [Hc Hv]. apply N.ltb_lt in Hc.
    destruct (unescapedURISet c) eqn:Hu.
    + apply option_map_Some in H as (x & Hx & ->).
      simpl. unfold uriSafe at 1. rewrite Hu. simpl. now apply IHc.
    + destruct (isTrailingSurrogate c); [discriminate|].
      destruct (isLeadingSurrogate c) eqn:Hl.
      * destruct (isTrailingSurrogate c2) eqn:Ht; [|discriminate].
        apply option_map_Some in H as (x & Hx & ->).
        rewrite forallb_app. apply andb_true_iff. split.
        -- apply percentAll_safe, utf8_octets, pair_code_point; assumption.
        -- apply IHs; [|exact Hx].
           simpl in Hv. apply andb_true_iff in Hv as [_ Hv]. exact Hv.
      * apply option_map_Some in H as (x & Hx & ->).
        rewrite forallb_app. apply andb_true_iff. split.
        -- apply percentAll_safe, utf8_octets. lia.
        -- now apply IHc.
Qed.

End EncodeFacts.
(* ================================================================== *)
(** ** Runs of the service *)

Section IndexFacts.

Lemma sameFile_key (vid dir nm : jsstring) (f : PackageVersionFile) :
  sameFile vid dir nm f = true <-> fileKey f = (vid, dir, nm).
Proof.
  unfold sameFile, fileKey. rewrite !andb_true_iff, !jseqb_eq.
  split; [intros [[-> ->] ->]; reflexivity | intros H; inversion H; auto].
Qed.

Lemma find_none_existsb {A} (p : A -> bool) (l : list A) :
  find p l = None -> existsb p l = false.
Proof.
  induction l as [|x l IH]; simpl; [reflexivity|].
  destruct (p x); [discriminate | exact IH].
Qed.

Lemma find_app_found {A} (p : A -> bool) (l l' : list A) (x : A) :
  find p l = Some x -> find p (l ++ l') = Some x.
Proof.
  induction l as [|y l IH]; simpl; [discriminate|].
  destruct (p y); [auto | exact IH].
Qed.

Lemma find_app_new {A} (p : A -> bool) (l : list A) (x : A) :
  find p l = None -> p x = true -> find p (l ++ [x]) = Some x.
Proof.
  induction l as [|y l IH]; simpl; intros Hn Hx.
  - now rewrite Hx.
  - destruct (p y); [discriminate | auto].
Qed.

(** An entry found in the index stays the one found after appends. *)
Lemma indexed_app (pkgVersion : PackageVersion) (path : jsstring)
  (ix more : list PackageVersionFile) (f : PackageVersionFile) :
  indexed pkgVersion path ix = Some f ->
  indexed pkgVersion path (ix ++ more) = Some f.
Proof. apply find_app_found. Qed.

Lemma indexed_key (pkgVersion : PackageVersion) (path : jsstring)
  (ix : list PackageVersionFile) (f : PackageVersionFile) :
  indexed pkgVersion path ix = Some f -> fileKey f = pathKey pkgVersion path.
Proof.
  intros H. apply find_some in H as [_ H]. now apply sameFile_key in H.
Qed.

Lemma indexed_new (env : Env) (pkg : Package) (pkgVersion : PackageVersion)
  (path localFile dp : jsstring) (ix : list PackageVersionFile) :
  indexed pkgVersion path ix = None ->
  indexed pkgVersion path (ix ++ [newFile env pkg pkgVersion path localFile dp])
  = Some (newFile env pkg pkgVersion path localFile dp).
Proof.
  intros H. apply find_app_new; [exact H|].
  apply sameFile_key. reflexivity.
Qed.

Lemma newEvents_app (w w' : World) (evs : list Event) :
  trace w' = trace w ++ evs -> newEvents w w' = evs.
Proof.
  intros H. unfold newEvents. rewrite H, skipn_app, skipn_all, Nat.sub_diag.
  reflexivity.
Qed.

Lemma disk_lookup_head (p : jsstring) (n : Node) (d : list (jsstring * Node)) :
  disk_lookup p ((p, n) :: d) = Some n.
Proof. unfold disk_lookup. simpl. now rewrite jseqb_refl. Qed.

Lemma disk_exists_remove (p q : jsstring) (d : list (jsstring * Node)) :
  disk_exists p d = false -> disk_exists p (disk_remove q d) = false.
Proof.
  induction d as [|[k n] d IH]; simpl; [auto|].
  intros H. apply orb_false_iff in H as [Hk Hd].
  destruct (negb (eqb k q)); simpl; [rewrite Hk|]; auto.
Qed.

Lemma disk_exists_removed (p : jsstring) (d : list (jsstring * Node)) :
  disk_exists p (disk_remove p d) = false.
Proof.
  induction d as [|[k n] d IH]; simpl; [reflexivity|].
  destruct (eqb k p) eqn:E; simpl; [exact IH|].
  now rewrite E, IH.
Qed.

End IndexFacts.

Ltac upd :=
  unfold updated; simpl; rewrite <- ?app_assoc; simpl;
  repeat split; reflexivity.

Section SaveFacts.

Variable env : Env.
Variables (pkg : Package) (pkgVersion : PackageVersion).
Variables (path localFile : jsstring).

(** Every run of [#savePackageVersionFile] has one of the shapes of
    [SaveRun]. *)
Lemma save_run (w : World) (r : Outcome PackageVersionFile) (w' : World) :
  savePackageVersionFile env pkg pkgVersion path localFile w = (r, w') ->
  SaveRun env pkg pkgVersion path localFile w r w'.
Proof.
  intros H.
  unfold savePackageVersionFile, getDirectoryAndName, bind in H.
  unfold findPackageVersionFile, invoke in H.
  destruct (fault env _ w) as [e|] eqn:F1.
  { injection H as <- <-. apply SR_find_failed; [exists w; exact F1 | upd]. }
  destruct (find _ (index w)) as [f|] eqn:Hfind.
  { injection H as <- <-. apply SR_found; [exact Hfind | upd]. }
  unfold fs_stat, invoke in H.
  destruct (fault env (Cfs_stat localFile) _) as [e|] eqn:F2.
  { injection H as <- <-.
    apply SR_stat_failed; [exact Hfind | eexists; exact F2 | upd]. }
  unfold calculateIntegrity, invoke in H.
  destruct (fault env (CcalculateIntegrity localFile) _) as [e|] eqn:F3.
  { injection H as <- <-.
    apply SR_integrity_failed; [exact Hfind | eexists; exact F3 | upd]. }
  unfold js_encodeURI in H.
  destruct (encodeURI path) as [dp|] eqn:Henc.
  2:{ injection H as <- <-. apply SR_uri_error; [exact Hfind | exact Henc | upd]. }
  unfold ret at 1 in H.
  fold (newDist env pkg pkgVersion localFile dp) in H.
  fold (newFile env pkg pkgVersion path localFile dp) in H.
  unfold saveDist, invoke in H.
  destruct (fault env (CsaveDist _ localFile) _) as [e|] eqn:F4.
  { injection H as <- <-.
    apply (SR_saveDist_failed env pkg pkgVersion path localFile w dp e);
      [exact Hfind | exact Henc | eexists; exact F4 | upd]. }
  unfold try_catch, bind, createPackageVersionFile, invoke in H.
  destruct (fault env (CcreatePackageVersionFile _) _) as [e|] eqn:F5.
  { assert (Hr : r = caughtDup e (newFile env pkg pkgVersion path localFile dp)).
    { unfold caughtDup. destruct (hasCode e ER_DUP_ENTRY);
        unfold ret, throw in H; now injection H as <- _. }
    subst r.
    apply (SR_create_failed env pkg pkgVersion path localFile w dp e);
      [exact Hfind | exact Henc | eexists; exact F5 |].
    destruct (hasCode e ER_DUP_ENTRY); unfold ret, throw in H;
      injection H as _ <-; upd. }
  cbn [index set_blobs emit] in H.
  assert (Hex : existsb
            (sameFile (filePackageVersionId (newFile env pkg pkgVersion path localFile dp))
               (directory (newFile env pkg pkgVersion path localFile dp))
               (name (newFile env pkg pkgVersion path localFile dp))) (index w) = false)
    by (apply find_none_existsb; exact Hfind).
  rewrite Hex in H. unfold logger, ret in H. injection H as <- <-.
  apply (SR_created env pkg pkgVersion path localFile w dp);
    [exact Hfind | exact Henc | upd].
Qed.

End SaveFacts.

Lemma caughtDup_Ok (e : JsError) (f g : PackageVersionFile) :
  caughtDup e f = Ok g -> g = f.
Proof.
  unfold caughtDup. destruct (hasCode e ER_DUP_ENTRY); intros H; now inversion H.
Qed.

Section SaveConsequences.

Variable env : Env.
Variables (pkg : Package) (pkgVersion : PackageVersion).

(** A run of [#savePackageVersionFile] adds only its own events and
    leaves packages, READMEs and disk alone. *)
Lemma save_frame (path localFile : jsstring) (w w' : World)
  (r : Outcome PackageVersionFile) :
  savePackageVersionFile env pkg pkgVersion path localFile w = (r, w') ->
  exists mat,
    trace w' = trace w ++ mat /\ forallb isSaveEvent mat = true /\
    packages w' = packages w /\ readmes w' = readmes w /\ disk w' = disk w.
Proof.
  intros H. apply save_run in H.
  inversion H; subst;
    match goal with
    | U : updated _ _ ?evs _ _ |- _ =>
        destruct U as (Ht & _ & _ & Hp & Hr & Hd); exists evs; auto
    end.
Qed.

(** Whatever [#savePackageVersionFile] returns is an entry of the tuple
    of the path. *)
Lemma save_ok_key (path localFile : jsstring) (w w' : World)
  (f : PackageVersionFile) :
  savePackageVersionFile env pkg pkgVersion path localFile w = (Ok f, w') ->
  fileKey f = pathKey pkgVersion path.
Proof.
  intros H. apply save_run in H.
  inversion H as [ | f0 w0 Hix | | | | | dp e w0 Hix Henc F U | ]; subst.
  - now apply indexed_key in Hix.
  - match goal with E : caughtDup _ _ = Ok _ |- _ =>
      unfold caughtDup in E; destruct (hasCode e ER_DUP_ENTRY);
      [injection E as <-; reflexivity | discriminate E]
    end.
  - reflexivity.
Qed.

(** On a path that is indexed, [#savePackageVersionFile] writes neither
    index nor blobs, whatever fails. *)
Lemma save_no_write (path localFile : jsstring) (w w' : World)
  (r : Outcome PackageVersionFile) :
  indexed pkgVersion path (index w) <> None ->
  savePackageVersionFile env pkg pkgVersion path localFile w = (r, w') ->
  index w' = index w /\ blobs w' = blobs w.
Proof.
  intros Hix H. apply save_run in H.
  inversion H; subst; try congruence;
    match goal with
    | U : updated _ _ _ _ _ |- _ => destruct U as (_ & Hi & Hb & _); auto
    end.
Qed.

(** Properties of index entries and of blob writes that hold of what
    [#savePackageVersionFile] builds are invariants of the index and of
    the blob store, and hold of every entry it returns. *)
Lemma save_invariant (P : PackageVersionFile -> Prop)
  (Q : Dist * jsstring -> Prop) (path localFile : jsstring) (w w' : World)
  (r : Outcome PackageVersionFile) :
  (forall dp, encodeURI path = Some dp ->
              P (newFile env pkg pkgVersion path localFile dp) /\
              Q (newDist env pkg pkgVersion localFile dp, localFile)) ->
  Forall P (index w) -> Forall Q (blobs w) ->
  savePackageVersionFile env pkg pkgVersion path localFile w = (r, w') ->
  Forall P (index w') /\ Forall Q (blobs w') /\ (forall f, r = Ok f -> P f).
Proof.
  intros Hnew HP HQ H. apply save_run in H.
  inversion H as [e w0 F U | f0 w0 Hix U | e w0 Hix F U | e w0 Hix F U
                 | w0 Hix Henc U | dp e w0 Hix Henc F U
                 | dp e w0 Hix Henc F U | dp w0 Hix Henc U]; subst;
    destruct U as (_ & Hi & Hb & _); rewrite Hi, Hb;
    try (destruct (Hnew dp Henc) as [HPn HQn]).
  - repeat split; auto; discriminate.
  - repeat split; auto. intros f Hf. injection Hf as <-.
    apply find_some in Hix as [Hin _].
    rewrite Forall_forall in HP. now apply HP.
  - repeat split; auto; discriminate.
  - repeat split; auto; discriminate.
  - repeat split; auto; discriminate.
  - repeat split; auto; discriminate.
  - split; [exact HP|]. split.
    + apply Forall_app. split; [exact HQ | now constructor].
    + intros f Hf. apply caughtDup_Ok in Hf. now subst f.
  - split; [apply Forall_app; split; [exact HP | now constructor]|]. split.
    + apply Forall_app. split; [exact HQ | now constructor].
    + intros f Hf. now injection Hf as <-.
Qed.

(** Without faults, [#savePackageVersionFile] returns the stored entry,
    or fails on a path [encodeURI] rejects, or stores a new entry. *)
Lemma save_nofault (path localFile : jsstring) (w w' : World)
  (r : Outcome PackageVersionFile) :
  NoFault env ->
  savePackageVersionFile env pkg pkgVersion path localFile w = (r, w') ->
  (exists f, indexed pkgVersion path (index w) = Some f /\ r = Ok f /\
             index w' = index w /\ blobs w' = blobs w)
  \/ (indexed pkgVersion path (index w) = None /\ encodeURI path = None /\
      r = Throw URIError /\ index w' = index w /\ blobs w' = blobs w)
  \/ (exists dp, indexed pkgVersion path (index w) = None /\
                 encodeURI path = Some dp /\
                 r = Ok (newFile env pkg pkgVersion path localFile dp) /\
                 index w' = index w ++ [newFile env pkg pkgVersion path localFile dp] /\
                 blobs w' = blobs w ++ [(newDist env pkg pkgVersion localFile dp, localFile)]).
Proof.
  intros Hnf H. apply save_run in H.
  inversion H; subst;
    try match goal with
    | F : FaultAt _ _ _ |- _ =>
        destruct F as [w0 F]; rewrite (Hnf _ w0) in F; discriminate
    end;
    match goal with
    | U : updated _ _ _ _ _ |- _ => destruct U as (_ & Hi & Hb & _)
    end.
  - left. eauto.
  - right; left. auto.
  - right; right. exists dp. auto.
Qed.

End SaveConsequences.

Section ExtractFacts.

Lemma isReadmeName_nonempty (n : jsstring) : isReadmeName n = true -> falsy n = false.
Proof. destruct n; [discriminate | reflexivity]. Qed.

Lemma manifestOf_cons (e : TarEntry) (ms : list TarEntry) :
  manifestOf (e :: ms) =
  if retained e then (lit "/" ++ stripFirstSegment (entryPath e)) :: manifestOf ms
  else manifestOf ms.
Proof. unfold manifestOf. simpl filter. now destruct (retained e). Qed.

Lemma readmeOf_cons (e : TarEntry) (ms : list TarEntry) :
  readmeOf (e :: ms) =
  if retained e && isReadmeName (stripFirstSegment (entryPath e))
  then stripFirstSegment (entryPath e)
  else readmeOf ms.
Proof.
  unfold readmeOf. simpl filter.
  destruct (retained e); [|reflexivity]. simpl.
  now destruct (isReadmeName (stripFirstSegment (entryPath e))).
Qed.

(** What the [onentry] callbacks of one extraction leave in the locals:
    the manifest and the README member as the specification words them. *)
Lemma onentry_fold (ms : list TarEntry) :
  forall fr,
    fold_left (fun f e => onentry e f) ms fr
    = mkFrame (world fr) (files fr) (paths fr ++ manifestOf ms)
        (if falsy (readmeFilename fr) then readmeOf ms else readmeFilename fr).
Proof.
  induction ms as [|e ms IH]; intros fr.
  - simpl. rewrite app_nil_r. destruct fr as [w fs ps rn]; simpl.
    now destruct rn.
  - simpl fold_left. rewrite IH, manifestOf_cons, readmeOf_cons.
    unfold onentry, retained, isFileEntry, hidden.
    destruct (EntryType_eqb (entryType e) File); simpl; [|reflexivity].
    destruct (includes (entryPath e) _); simpl; [reflexivity|].
    destruct (falsy (readmeFilename fr)) eqn:Hf.
    + destruct (isReadmeName (stripFirstSegment (entryPath e))) eqn:Hr; simpl.
      * rewrite (isReadmeName_nonempty _ Hr). now rewrite <- app_assoc.
      * rewrite Hf. now rewrite <- app_assoc.
    + simpl. rewrite Hf. now rewrite <- app_assoc.
Qed.

End ExtractFacts.

Section MaterializeFacts.

Variable env : Env.
Variables (pkg : Package) (pkgVersion : PackageVersion) (tmpdir : jsstring).

Lemma materialize_cons (path : jsstring) (rest : list jsstring) (fr : Frame) :
  materialize env pkg pkgVersion tmpdir (path :: rest) fr =
  match savePackageVersionFile env pkg pkgVersion path (join env tmpdir path)
          (world fr) with
  | (Ok f, w1) =>
      materialize env pkg pkgVersion tmpdir rest
        (mkFrame w1 (files fr ++ [f]) (paths fr) (readmeFilename fr))
  | (Throw e, w1) =>
      (Throw e, mkFrame w1 (files fr) (paths fr) (readmeFilename fr))
  end.
Proof.
  simpl. unfold bind, liftW, push_file.
  destruct (savePackageVersionFile _ _ _ _ _ _) as [[f|e] w1]; reflexivity.
Qed.

(** The loop only appends to [files], adds only events of
    [#savePackageVersionFile] and leaves the other locals, the packages,
    the READMEs and the disk alone. *)
Lemma materialize_run (ps : list jsstring) :
  forall fr r fr',
    materialize env pkg pkgVersion tmpdir ps fr = (r, fr') ->
    paths fr' = paths fr /\ readmeFilename fr' = readmeFilename fr /\
    exists fs mat,
      files fr' = files fr ++ fs /\
      trace (world fr') = trace (world fr) ++ mat /\
      forallb isSaveEvent mat = true /\
      packages (world fr') = packages (world fr) /\
      readmes (world fr') = readmes (world fr) /\
      disk (world fr') = disk (world fr) /\
      (r = Ok tt -> map fileKey fs = map (pathKey pkgVersion) ps).
Proof.
  induction ps as [|path rest IH]; intros fr r fr' H.
  - injection H as <- <-. repeat split.
    exists [], []. rewrite !app_nil_r. repeat split.
  - rewrite materialize_cons in H.
    destruct (savePackageVersionFile _ _ _ _ _ _) as [[f|e] w1] eqn:Hs;
      pose proof (save_frame _ _ _ _ _ _ _ _ Hs) as (m1 & Ht & Hm & Hp & Hr & Hd).
    + apply IH in H
        as (Hps & Hrn & fs & m2 & Hf & Ht2 & Hm2 & Hp2 & Hr2 & Hd2 & Hk).
      simpl in *. repeat split; auto.
      exists (f :: fs), (m1 ++ m2).
      rewrite Hf, Ht2, Ht, <- !app_assoc, forallb_app, Hm, Hm2.
      repeat split; try congruence.
      intros Hok. simpl. now rewrite (Hk Hok), (save_ok_key _ _ _ _ _ _ _ _ Hs).
    + injection H as <- <-. simpl. repeat split.
      exists [], m1. rewrite app_nil_r. repeat split; try assumption.
      discriminate.
Qed.

(** A loop over paths that are all indexed writes neither index nor
    blobs, whatever fails. *)
Lemma materialize_no_write (ps : list jsstring) :
  forall fr r fr',
    materialize env pkg pkgVersion tmpdir ps fr = (r, fr') ->
    allIndexed pkgVersion ps (index (world fr)) ->
    index (world fr') = index (world fr) /\ blobs (world fr') = blobs (world fr).
Proof.
  induction ps as [|path rest IH]; intros fr r fr' H Hall.
  - injection H as _ <-. auto.
  - rewrite materialize_cons in H.
    inversion Hall as [|p ps' Hp Hrest]; subst.
    destruct (savePackageVersionFile _ _ _ _ _ _) as [[f|e] w1] eqn:Hs;
      apply (save_no_write env pkg pkgVersion _ _ _ _ _ Hp) in Hs as [Hi Hb].
    + apply IH in H; [|simpl; unfold allIndexed; now rewrite Hi].
      simpl in H. destruct H as [Hi2 Hb2]. split; congruence.
    + injection H as _ <-. auto.
Qed.

(** Invariants of [#savePackageVersionFile] are invariants of the loop. *)
Lemma materialize_invariant (P : PackageVersionFile -> Prop)
  (Q : Dist * jsstring -> Prop) :
  (forall path localFile dp,
      encodeURI path = Some dp ->
      P (newFile env pkg pkgVersion path localFile dp) /\
      Q (newDist env pkg pkgVersion localFile dp, localFile)) ->
  forall ps fr r fr',
    Forall P (index (world fr)) -> Forall Q (blobs (world fr)) ->
    Forall P (files fr) ->
    materialize env pkg pkgVersion tmpdir ps fr = (r, fr') ->
    Forall P (index (world fr')) /\ Forall Q (blobs (world fr')) /\
    Forall P (files fr').
Proof.
  intros Hnew. induction ps as [|path rest IH]; intros fr r fr' HP HQ HF H.
  - injection H as _ <-. auto.
  - rewrite materialize_cons in H.
    destruct (savePackageVersionFile _ _ _ _ _ _) as [[f|e] w1] eqn:Hs;
      apply (save_invariant env pkg pkgVersion P Q _ _ _ _ _
               (Hnew path (join env tmpdir path)) HP HQ) in Hs
      as (HP1 & HQ1 & Hf).
    + apply IH in H; auto. simpl.
      apply Forall_app. split; [exact HF | constructor; auto].
    + injection H as _ <-. auto.
Qed.

Hypothesis no_fault : NoFault env.

(** Without faults, a loop that completes has returned, for every path,
    the entry the index then holds for it; the index only grew. *)
Lemma materialize_indexed (ps : list jsstring) :
  forall fr fr',
    materialize env pkg pkgVersion tmpdir ps fr = (Ok tt, fr') ->
    exists fs added,
      files fr' = files fr ++ fs /\
      index (world fr') = index (world fr) ++ added /\
      Forall2 (fun p f => indexed pkgVersion p (index (world fr')) = Some f) ps fs.
Proof.
  induction ps as [|path rest IH]; intros fr fr' H.
  - injection H as <-. exists [], []. rewrite !app_nil_r. auto.
  - rewrite materialize_cons in H.
    destruct (savePackageVersionFile _ _ _ _ _ _) as [[f|e] w1] eqn:Hs;
      [|discriminate].
    apply IH in H as (fs & added & Hf & Hi & Hall). simpl in Hf, Hi.
    apply (save_nofault env pkg pkgVersion _ _ _ _ _ no_fault) in Hs
      as [(f0 & Hix & Hr & Hi1 & _) | [(_ & _ & Hr & _) | (dp & Hix & _ & Hr & Hi1 & _)]];
      try discriminate; injection Hr as ->.
    + exists (f0 :: fs), added. rewrite Hf, <- app_assoc. split; [reflexivity|].
      split; [congruence|]. constructor; [|exact Hall].
      rewrite Hi, Hi1. now apply indexed_app.
    + eexists (_ :: fs), (_ :: added). rewrite Hf, <- app_assoc.
      split; [reflexivity|]. rewrite Hi, Hi1, <- app_assoc.
      split; [reflexivity|]. constructor.
      * rewrite app_assoc. apply indexed_app. now apply indexed_new.
      * rewrite app_assoc, <- Hi1, <- Hi. exact Hall.
Qed.

(** Without faults, the loop completes when [encodeURI] accepts every
    path. *)
Lemma materialize_completes (ps : list jsstring) :
  Forall (fun p => wellFormed p = true) ps ->
  forall fr, exists fr', materialize env pkg pkgVersion tmpdir ps fr = (Ok tt, fr').
Proof.
  induction 1 as [|path rest Hw _ IH]; intros fr.
  - eexists. reflexivity.
  - rewrite materialize_cons.
    destruct (savePackageVersionFile _ _ _ _ _ _) as [r w1] eqn:Hs.
    apply (save_nofault env pkg pkgVersion _ _ _ _ _ no_fault) in Hs
      as [(f0 & _ & -> & _) | [(_ & Hn & _) | (dp & _ & _ & -> & _)]].
    + apply IH.
    + destruct (encodeURI_wellFormed path Hw) as [x Hx]. congruence.
    + apply IH.
Qed.

(** Without faults, a loop over paths that are all indexed returns the
    stored entries and writes neither index nor blobs. *)
Lemma materialize_stored (ps : list jsstring) (fs : list PackageVersionFile) :
  forall fr,
    Forall2 (fun p f => indexed pkgVersion p (index (world fr)) = Some f) ps fs ->
    exists fr',
      materialize env pkg pkgVersion tmpdir ps fr = (Ok tt, fr') /\
      files fr' = files fr ++ fs /\
      index (world fr') = index (world fr) /\
      blobs (world fr') = blobs (world fr).
Proof.
  revert fs; induction ps as [|path rest IH]; intros fs fr Hall;
    inversion Hall as [|p f ps' fs' Hp Hrest]; subst.
  - eexists. rewrite app_nil_r. repeat split.
  - rewrite materialize_cons.
    destruct (savePackageVersionFile _ _ _ _ _ _) as [r w1] eqn:Hs.
    apply (save_nofault env pkg pkgVersion _ _ _ _ _ no_fault) in Hs
      as [(f0 & Hix & -> & Hi1 & Hb1) | [(Hix & _) | (dp & Hix & _)]];
      try congruence.
    assert (f0 = f) by congruence. subst f0.
    destruct (IH fs' (mkFrame w1 (files fr ++ [f]) (paths fr) (readmeFilename fr)))
      as (fr' & Hm & Hf & Hi & Hb).
    { simpl. rewrite Hi1. exact Hrest. }
    exists fr'. simpl in *. rewrite Hf, <- app_assoc.
    repeat split; [exact Hm | congruence | congruence].
Qed.

End MaterializeFacts.

Section SyncFacts.

Variable env : Env.
Variables (pkg : Package) (pkgVersion : PackageVersion).
Variables (tmpdir tarFile : jsstring).

(** The [finally] block never throws; it only removes from the disk. *)
Lemma sync_finally_run (fr : Frame) :
  exists fr' evs,
    sync_finally env tmpdir tarFile fr = (Ok tt, fr') /\
    CleanupRun env tmpdir tarFile (disk (world fr)) evs (disk (world fr')) /\
    trace (world fr') = trace (world fr) ++ evs /\
    files fr' = files fr /\
    index (world fr') = index (world fr) /\
    blobs (world fr') = blobs (world fr) /\
    readmes (world fr') = readmes (world fr) /\
    packages (world fr') = packages (world fr).
Proof.
  unfold sync_finally, try_catch, bind, liftW, fs_rm, invoke, logger.
  destruct (fault env (Cfs_rm tarFile false) (world fr)) as [e|] eqn:F1.
  { eexists _, _. split; [reflexivity|]. simpl.
    split; [apply (CR_file_failed env tmpdir tarFile _ e); eexists; exact F1|].
    rewrite <- app_assoc. repeat split. }
  cbn [world].
  destruct (fault env (Cfs_rm tmpdir true) _) as [e|] eqn:F2.
  { eexists _, _. split; [reflexivity|]. simpl.
    split; [apply (CR_dir_failed env tmpdir tarFile _ e); eexists; exact F2|].
    rewrite <- !app_assoc. repeat split. }
  eexists _, _. split; [reflexivity|]. simpl.
  split; [apply CR_done|].
  rewrite <- !app_assoc. repeat split.
Qed.

(** The statement as a whole returns what its [try]/[catch] part
    returns, after the [finally] block has run. *)
Lemma sync_protected_run (fr fr1 : Frame) (r : Outcome (list PackageVersionFile)) :
  sync_primary env pkg pkgVersion tmpdir tarFile fr = (r, fr1) ->
  exists fr2 evs,
    sync_protected env pkg pkgVersion tmpdir tarFile fr = (r, fr2) /\
    CleanupRun env tmpdir tarFile (disk (world fr1)) evs (disk (world fr2)) /\
    trace (world fr2) = trace (world fr1) ++ evs /\
    files fr2 = files fr1 /\
    index (world fr2) = index (world fr1) /\
    blobs (world fr2) = blobs (world fr1) /\
    readmes (world fr2) = readmes (world fr1) /\
    packages (world fr2) = packages (world fr1).
Proof.
  intros H. unfold sync_protected, try_finally. rewrite H.
  destruct (sync_finally_run fr1) as (fr2 & evs & Hf & Hrest).
  rewrite Hf. exists fr2, evs. split; [reflexivity | exact Hrest].
Qed.

(** An archive is corrupt when the reader rejects it. *)
Lemma corrupt_rejected (a : Archive) :
  corrupt a = true <-> exists e, rejection a = Some e.
Proof.
  unfold corrupt. destruct (rejection a) as [e|]; split; intros H;
    try reflexivity; try discriminate; eauto.
  now destruct H.
Qed.

Lemma corrupt_accepted (a : Archive) :
  corrupt a = false <-> rejection a = None.
Proof.
  unfold corrupt. destruct (rejection a) as [e|]; split; intros H;
    try reflexivity; discriminate.
Qed.

Lemma accepted_no_error (a : Archive) :
  corrupt a = false ->
  forall e, rejection a = Some e -> hasCode e TAR_BAD_ARCHIVE = true.
Proof.
  intros Hc e He. apply corrupt_accepted in Hc. congruence.
Qed.

Lemma caught_catch (e : JsError) (fr : Frame) :
  sync_catch e fr =
  (caught e (files fr),
   mkFrame (emit logError (world fr)) (files fr) (paths fr) (readmeFilename fr)).
Proof.
  unfold sync_catch, bind, liftW, logger, caught, get_files, throw.
  simpl. now destruct (hasCode e TAR_BAD_ARCHIVE).
Qed.

Lemma caught_Ok (e : JsError) (fs gs : list PackageVersionFile) :
  caught e fs = Ok gs -> gs = fs.
Proof.
  unfold caught. destruct (hasCode e TAR_BAD_ARCHIVE); intros H; now inversion H.
Qed.

(** Every run of the [try]/[catch] part on fresh locals has one of the
    shapes of [TryRun]; it writes index and blobs in its loop only, and
    the entries it returns are those the loop collected. *)
Lemma sync_primary_run (w : World) (fr1 : Frame)
  (r : Outcome (list PackageVersionFile)) :
  sync_primary env pkg pkgVersion tmpdir tarFile (mkFrame w [] [] []) = (r, fr1) ->
  exists evs,
    trace (world fr1) = trace w ++ evs /\
    TryRun env pkgVersion tmpdir tarFile r evs /\
    ((index (world fr1) = index w /\ blobs (world fr1) = blobs w /\
      forall fs, r = Ok fs -> fs = []) \/
     (exists rm frM,
         materialize env pkg pkgVersion tmpdir
           (manifestOf (members (tarball env (tarDist pkgVersion))))
           (extractedFrame env pkgVersion tmpdir tarFile w) = (rm, frM) /\
         index (world fr1) = index (world frM) /\
         blobs (world fr1) = blobs (world frM) /\
         forall fs, r = Ok fs -> fs = files frM)).
Proof.
  intros H.
  unfold sync_primary, try_catch, sync_try in H.
  unfold bind at 1 in H. unfold liftW at 1, logger at 1 in H. cbn [world] in H.
  unfold bind at 1 in H.
  unfold liftW at 1, downloadDistToFile, invoke in H. cbn [world files paths readmeFilename] in H.
  destruct (fault env (CdownloadDistToFile _ _) _) as [e|] eqn:F1.
  { rewrite caught_catch in H. injection H as <- <-. simpl.
    eexists. rewrite <- !app_assoc. split; [reflexivity|].
    split; [|left; split; [reflexivity | split; [reflexivity | intros fs0 Hr; now apply caught_Ok in Hr]]].
    apply TR_download_failed. eexists; exact F1. }
  unfold bind at 1 in H. unfold liftW at 1, logger at 1 in H. cbn [world files paths readmeFilename] in H.
  unfold bind at 1 in H. unfold tar_extract in H. cbn [world files paths readmeFilename] in H.
  destruct (fault env (Ctar_extract _ _) _) as [e|] eqn:F2.
  { rewrite caught_catch in H. injection H as <- <-. simpl.
    eexists. rewrite <- !app_assoc. split; [reflexivity|].
    split; [|left; split; [reflexivity | split; [reflexivity | intros fs0 Hr; now apply caught_Ok in Hr]]].
    apply TR_extract_failed. left. eexists; exact F2. }
  cbn [disk emit set_disk] in H. rewrite disk_lookup_head in H.
  rewrite onentry_fold in H. cbn [world files paths readmeFilename falsy app] in H.
  destruct (rejection (tarball env (tarDist pkgVersion))) as [e|] eqn:Hrej.
  { rewrite caught_catch in H. injection H as <- <-. simpl.
    eexists. rewrite <- !app_assoc. split; [reflexivity|].
    split; [|left; split; [reflexivity | split; [reflexivity | intros fs0 Hr; now apply caught_Ok in Hr]]].
    apply TR_extract_failed. right. exact Hrej. }
  assert (Hc : corrupt (tarball env (tarDist pkgVersion)) = false)
    by (unfold corrupt; now rewrite Hrej).
  unfold bind at 1 in H. unfold get_paths at 1 in H. cbn [paths] in H.
  unfold bind at 1 in H.
  destruct (materialize _ _ _ _ _ _) as [rm frm] eqn:Hm.
  apply materialize_run in Hm
    as (Hps & Hrn & fs & mat & Hf & Ht & Hmat & _ & _ & _ & Hkeys).
  cbn [world files paths readmeFilename thrown emit set_disk trace] in Hps, Hrn, Hf, Ht.
  destruct rm as [[]|e].
  2:{ rewrite caught_catch in H. injection H as <- <-. simpl.
      rewrite Hf, Ht. simpl.
      eexists. rewrite <- !app_assoc. split; [reflexivity|].
      split; [|right; eexists _, frm; split; [reflexivity | split; [reflexivity | split; [reflexivity | intros fs0 Hr; rewrite Hf; simpl; first [now apply caught_Ok in Hr | now injection Hr as <-]]]]].
      apply (TR_materialize_failed env pkgVersion tmpdir tarFile e mat fs Hc Hmat). }
  unfold bind at 1 in H. unfold liftW at 1, logger at 1 in H. cbn [world files paths readmeFilename] in H.
  unfold bind at 1 in H. unfold get_readmeFilename at 1 in H. cbn [readmeFilename] in H.
  rewrite Hrn in H.
  destruct (falsy (readmeOf (members (tarball env (tarDist pkgVersion))))) eqn:Hfalsy.
  { cbn [negb] in H. unfold bind, ret, get_files in H. cbn [files] in H.
    injection H as <- <-. simpl. rewrite Hf, Ht. simpl.
    eexists. rewrite <- !app_assoc. split; [reflexivity|].
    split; [|right; eexists _, frm; split; [reflexivity | split; [reflexivity | split; [reflexivity | intros fs0 Hr; rewrite Hf; simpl; first [now apply caught_Ok in Hr | now injection Hr as <-]]]]].
    apply (TR_no_readme env pkgVersion tmpdir tarFile mat fs Hc Hmat (Hkeys eq_refl)).
    destruct (readmeOf _); [reflexivity | discriminate]. }
  cbn [negb] in H.
  assert (Hne : readmeOf (members (tarball env (tarDist pkgVersion))) <> [])
    by (intros E; rewrite E in Hfalsy; discriminate).
  unfold bind at 1 in H.
  unfold liftW at 1, savePackageVersionReadme, invoke in H.
  cbn [world files paths readmeFilename] in H.
  destruct (fault env (CsavePackageVersionReadme _ _) _) as [e|] eqn:F3.
  { rewrite caught_catch in H. injection H as <- <-. simpl.
    rewrite Hf, Ht. simpl.
    eexists. rewrite <- !app_assoc. split; [reflexivity|].
    split; [|right; eexists _, frm; split; [reflexivity | split; [reflexivity | split; [reflexivity | intros fs0 Hr; rewrite Hf; simpl; first [now apply caught_Ok in Hr | now injection Hr as <-]]]]].
    apply (TR_readme_failed env pkgVersion tmpdir tarFile mat fs e Hc Hmat
             (Hkeys eq_refl) Hne). }
  unfold get_files in H. cbn [files] in H.
  injection H as <- <-. simpl. rewrite Hf, Ht. simpl.
  eexists. rewrite <- !app_assoc. split; [reflexivity|].
  split; [|right; eexists _, frm; split; [reflexivity | split; [reflexivity | split; [reflexivity | intros fs0 Hr; rewrite Hf; simpl; first [now apply caught_Ok in Hr | now injection Hr as <-]]]]].
  apply (TR_readme env pkgVersion tmpdir tarFile mat fs Hc Hmat (Hkeys eq_refl) Hne).
Qed.

End SyncFacts.

Section SyncRuns.

Variable env : Env.
Variable pkgVersion : PackageVersion.

(** Every run of [syncPackageVersionFiles] has one of the shapes of
    [SyncRun]. *)
Lemma sync_run (w w' : World) (r : Outcome (list PackageVersionFile)) :
  syncPackageVersionFiles env pkgVersion w = (r, w') ->
  SyncRun env pkgVersion w r w'.
Proof.
  intros H. unfold syncPackageVersionFiles in H.
  unfold bind at 1 in H. unfold findPackageByPackageId, invoke in H.
  destruct (fault env (CfindPackageByPackageId _) w) as [e|] eqn:F1.
  { injection H as <- <-.
    apply SY_find_failed; [eexists; exact F1 | reflexivity..]. }
  fold (findPackage pkgVersion w) in H.
  destruct (findPackage pkgVersion w) as [pkg|] eqn:Hfind.
  2:{ injection H as <- <-. now apply SY_no_package. }
  unfold bind at 1 in H. unfold bind at 1 in H.
  unfold createTempDir, invoke in H.
  destruct (fault env (CcreateTempDir _ _) _) as [e|] eqn:F2.
  { injection H as <- <-.
    apply (SY_tempdir_failed env pkgVersion w pkg e);
      [exact Hfind | eexists; exact F2 | | reflexivity..].
    simpl. now rewrite <- app_assoc. }
  cbn [thrown] in H. fold (syncTempDir env pkg pkgVersion w) in H.
  unfold with_locals in H.
  match type of H with
  | context [sync_protected _ _ _ ?t ?f ?fr] =>
      destruct (sync_primary env pkg pkgVersion t f fr) as [r1 fr1] eqn:Hprim
  end.
  pose proof (sync_primary_run _ _ _ _ _ _ _ _ Hprim) as (body & Ht1 & Htry & Hw).
  pose proof (sync_protected_run _ _ _ _ _ _ _ _ Hprim)
    as (fr2 & cleanup & Hp & Hcl & Ht2 & _ & Hi2 & Hb2 & _).
  rewrite Hp in H. injection H as <- <-.
  apply (SY_protected env pkgVersion w pkg r1 body cleanup (disk (world fr1)));
    [exact Hfind | exact F1 | exact F2 | exact Htry | exact Hcl | |].
  - rewrite Ht2, Ht1. simpl. now rewrite <- !app_assoc.
  - rewrite Hi2, Hb2. exact Hw.
Qed.

(** Invariants of [#savePackageVersionFile] are invariants of
    [syncPackageVersionFiles], and hold of every entry it returns. *)
Lemma sync_invariant (P : PackageVersionFile -> Prop)
  (Q : Dist * jsstring -> Prop) (w w' : World)
  (r : Outcome (list PackageVersionFile)) :
  (forall pkg path localFile dp,
      encodeURI path = Some dp ->
      P (newFile env pkg pkgVersion path localFile dp) /\
      Q (newDist env pkg pkgVersion localFile dp, localFile)) ->
  Forall P (index w) -> Forall Q (blobs w) ->
  syncPackageVersionFiles env pkgVersion w = (r, w') ->
  Forall P (index w') /\ Forall Q (blobs w') /\
  (forall fs, r = Ok fs -> Forall P fs).
Proof.
  intros Hnew HP HQ H. apply sync_run in H.
  inversion H as [e0 w0 F Ht Hi Hb | Hnone | pkg0 e0 w0 Hf F Ht Hi Hb
                 | pkg r0 body cleanup d1 w0 Hf F1 F2 Htry Hcl Ht Hw]; subst.
  - rewrite Hi, Hb. repeat split; auto; discriminate.
  - repeat split; auto. intros fs Hfs. injection Hfs as <-. constructor.
  - rewrite Hi, Hb. repeat split; auto; discriminate.
  - destruct Hw as [(Hi & Hb & Hfs) | (rm & frM & Hm & Hi & Hb & Hfs)].
    + rewrite Hi, Hb. repeat split; auto.
      intros fs E. rewrite (Hfs fs E). constructor.
    + pose proof (fun a b c =>
                    materialize_invariant env pkg pkgVersion _ P Q (Hnew pkg)
                      _ _ _ _ a b c Hm) as Hinv.
      destruct (Hinv HP HQ (Forall_nil P)) as (HP1 & HQ1 & HF1).
      rewrite Hi, Hb. repeat split; auto.
      intros fs E. now rewrite (Hfs fs E).
Qed.

(** A run on a world in which every manifest path is indexed writes
    neither index nor blobs, whatever fails. *)
Lemma sync_no_write (w w' : World) (r : Outcome (list PackageVersionFile)) :
  allIndexed pkgVersion (manifestOf (members (tarball env (tarDist pkgVersion))))
    (index w) ->
  syncPackageVersionFiles env pkgVersion w = (r, w') ->
  index w' = index w /\ blobs w' = blobs w.
Proof.
  intros Hall H. apply sync_run in H.
  inversion H as [e0 w0 F Ht Hi Hb | Hnone | pkg0 e0 w0 Hf F Ht Hi Hb
                 | pkg r0 body cleanup d1 w0 Hf F1 F2 Htry Hcl Ht Hw]; subst; auto.
  destruct Hw as [(Hi & Hb & _) | (rm & frM & Hm & Hi & Hb & _)]; [auto|].
  apply materialize_no_write in Hm; [|exact Hall].
  destruct Hm as [Hi2 Hb2]. simpl in Hi2, Hb2. split; congruence.
Qed.

End SyncRuns.

Section NoFaultRuns.

Variable env : Env.
Hypothesis no_fault : NoFault env.
Variables (pkg : Package) (pkgVersion : PackageVersion).
Variables (tmpdir tarFile : jsstring).

Local Abbreviation tgz := (tarball env (tarDist pkgVersion)).

(** Without faults, the loop can only fail on a path [encodeURI]
    rejects. *)
Lemma materialize_throws (ps : list jsstring) :
  forall fr e fr',
    materialize env pkg pkgVersion tmpdir ps fr = (Throw e, fr') -> e = URIError.
Proof.
  induction ps as [|path rest IH]; intros fr e fr' H; [discriminate|].
  rewrite materialize_cons in H.
  destruct (savePackageVersionFile _ _ _ _ _ _) as [[f|e1] w1] eqn:Hs.
  - eapply IH; eassumption.
  - injection H as <- <-.
    apply (save_nofault env pkg pkgVersion _ _ _ _ _ no_fault) in Hs
      as [(f0 & _ & Hr & _) | [(_ & _ & Hr & _) | (dp & _ & _ & Hr & _)]];
      congruence.
Qed.

(** Without faults, an archive the reader rejects makes the
    [try]/[catch] part end in the [catch] block with the error of the
    reader and without entries, and leaves index, blobs, READMEs and
    packages. *)
Lemma sync_primary_rejected (w : World) (e : JsError) :
  rejection tgz = Some e ->
  exists fr1,
    sync_primary env pkg pkgVersion tmpdir tarFile (mkFrame w [] [] [])
    = (caught e [], fr1) /\
    index (world fr1) = index w /\ blobs (world fr1) = blobs w /\
    readmes (world fr1) = readmes w /\ packages (world fr1) = packages w.
Proof.
  intros Hc.
  unfold sync_primary, try_catch, sync_try.
  unfold bind at 1. unfold liftW at 1, logger at 1. cbn [world].
  unfold bind at 1.
  unfold liftW at 1, downloadDistToFile, invoke. cbn [world files paths readmeFilename].
  rewrite no_fault.
  unfold bind at 1. unfold liftW at 1, logger at 1. cbn [world files paths readmeFilename].
  unfold bind at 1. unfold tar_extract. cbn [world files paths readmeFilename].
  rewrite no_fault.
  cbn [disk emit set_disk].
  rewrite disk_lookup_head, Hc, onentry_fold, caught_catch.
  cbn [world files paths readmeFilename].
  eexists. split; [reflexivity|]. simpl. repeat split.
Qed.

(** Without faults and with an intact archive, the [try]/[catch] part
    is the loop over the manifest, followed by the README hand-over. *)
Lemma sync_primary_intact (w : World) (rm : Outcome unit) (frM : Frame) :
  corrupt tgz = false ->
  materialize env pkg pkgVersion tmpdir (manifestOf (members tgz))
    (extractedFrame env pkgVersion tmpdir tarFile w) = (rm, frM) ->
  exists fr1,
    sync_primary env pkg pkgVersion tmpdir tarFile (mkFrame w [] [] [])
    = (match rm with Ok _ => Ok (files frM) | Throw e => Throw e end, fr1) /\
    index (world fr1) = index (world frM) /\
    blobs (world fr1) = blobs (world frM) /\
    packages (world fr1) = packages (world frM) /\
    readmes (world fr1)
    = match rm with
      | Ok _ =>
          readmes (world frM) ++
          (if falsy (readmeOf (members tgz)) then []
           else [(packageVersionId pkgVersion, join env tmpdir (readmeOf (members tgz)))])
      | Throw _ => readmes (world frM)
      end.
Proof.
  intros Hc Hm.
  unfold sync_primary, try_catch, sync_try.
  unfold bind at 1. unfold liftW at 1, logger at 1. cbn [world].
  unfold bind at 1.
  unfold liftW at 1, downloadDistToFile, invoke. cbn [world files paths readmeFilename].
  rewrite no_fault.
  unfold bind at 1. unfold liftW at 1, logger at 1. cbn [world files paths readmeFilename].
  unfold bind at 1. unfold tar_extract. cbn [world files paths readmeFilename].
  rewrite no_fault.
  cbn [disk emit set_disk].
  rewrite disk_lookup_head, (proj1 (corrupt_accepted _) Hc), onentry_fold.
  cbn [world files paths readmeFilename falsy app thrown].
  unfold bind at 1. unfold get_paths at 1. cbn [paths].
  unfold bind at 1.
  unfold extractedFrame, downloadedWorld in Hm. cbn [disk emit] in Hm.
  unfold logExtractStart, logDownloadStart in Hm.
  rewrite Hm.
  pose proof (materialize_run _ _ _ _ _ _ _ _ Hm) as (_ & Hrn & _).
  cbn [readmeFilename] in Hrn.
  destruct rm as [[]|e].
  2:{ pose proof (materialize_throws _ _ _ _ Hm) as ->.
      rewrite caught_catch. eexists. split; [reflexivity|]. simpl. repeat split. }
  unfold bind at 1. unfold liftW at 1, logger at 1. cbn [world files paths readmeFilename].
  unfold bind at 1. unfold get_readmeFilename at 1. cbn [readmeFilename].
  rewrite Hrn.
  destruct (falsy (readmeOf (members tgz))) eqn:Hfalsy; cbn [negb].
  { unfold bind, ret, get_files. cbn [files].
    eexists. split; [reflexivity|]. simpl. rewrite app_nil_r. repeat split. }
  unfold bind at 1.
  unfold liftW at 1, savePackageVersionReadme, invoke.
  cbn [world files paths readmeFilename]. rewrite no_fault.
  unfold get_files. cbn [files].
  eexists. split; [reflexivity|]. simpl. repeat split.
Qed.

End NoFaultRuns.

Section NoFaultSync.

Variable env : Env.
Variable pkgVersion : PackageVersion.

Local Abbreviation tgz := (tarball env (tarDist pkgVersion)).

(** When the package is found and the temporary directory is created,
    the run is the [try]/[catch]/[finally] statement on fresh locals. *)
Lemma sync_enters_protected (w : World) (pkg : Package) :
  fault env (CfindPackageByPackageId (packageId pkgVersion)) w = None ->
  findPackage pkgVersion w = Some pkg ->
  fault env
    (CcreateTempDir (dataDir env)
       (tempDirName pkg pkgVersion
          (randomUUID env
             (emit (CfindPackageByPackageId (packageId pkgVersion), None) w))))
    (emit (CfindPackageByPackageId (packageId pkgVersion), None) w) = None ->
  syncPackageVersionFiles env pkgVersion w
  = with_locals []
      (sync_protected env pkg pkgVersion (syncTempDir env pkg pkgVersion w)
         (syncTempDir env pkg pkgVersion w ++ lit ".tgz"))
      (preparedWorld env pkg pkgVersion w).
Proof.
  intros F1 Hfind F2.
  unfold syncPackageVersionFiles.
  unfold bind at 1. unfold findPackageByPackageId, invoke. rewrite F1.
  fold (findPackage pkgVersion w). rewrite Hfind. cbn [thrown].
  unfold bind at 1. unfold bind at 1.
  unfold createTempDir, invoke. rewrite F2. reflexivity.
Qed.

Hypothesis no_fault : NoFault env.

(** A fault-free run on an archive the reader rejects: the error of the
    reader decides, by its code, between the empty result and the
    error. *)
Lemma sync_nofault_rejected (w : World) (pkg : Package) (e : JsError) :
  findPackage pkgVersion w = Some pkg ->
  rejection tgz = Some e ->
  exists w',
    syncPackageVersionFiles env pkgVersion w = (caught e [], w') /\
    index w' = index w /\ blobs w' = blobs w /\
    readmes w' = readmes w /\ packages w' = packages w.
Proof.
  intros Hfind Hc.
  rewrite (sync_enters_protected w pkg) by (try apply no_fault; exact Hfind).
  unfold with_locals.
  destruct (sync_primary_rejected env no_fault pkg pkgVersion
              (syncTempDir env pkg pkgVersion w)
              (syncTempDir env pkg pkgVersion w ++ lit ".tgz")
              (preparedWorld env pkg pkgVersion w) e Hc)
    as (fr1 & Hprim & Hi & Hb & Hr & Hp).
  destruct (sync_protected_run _ _ _ _ _ _ _ _ Hprim)
    as (fr2 & cleanup & Hprot & _ & _ & _ & Hi2 & Hb2 & Hr2 & Hp2).
  rewrite Hprot. eexists. split; [reflexivity|].
  rewrite Hi2, Hb2, Hr2, Hp2, Hi, Hb, Hr, Hp. repeat split.
Qed.

(** A fault-free run on an intact archive, in terms of its loop. *)
Lemma sync_nofault_intact (w : World) (pkg : Package)
  (rm : Outcome unit) (frM : Frame) :
  findPackage pkgVersion w = Some pkg ->
  corrupt tgz = false ->
  materialize env pkg pkgVersion (syncTempDir env pkg pkgVersion w)
    (manifestOf (members tgz))
    (extractedFrame env pkgVersion (syncTempDir env pkg pkgVersion w)
       (syncTempDir env pkg pkgVersion w ++ lit ".tgz")
       (preparedWorld env pkg pkgVersion w)) = (rm, frM) ->
  exists w',
    syncPackageVersionFiles env pkgVersion w
    = (match rm with Ok _ => Ok (files frM) | Throw e => Throw e end, w') /\
    index w' = index (world frM) /\
    blobs w' = blobs (world frM) /\
    packages w' = packages (world frM) /\
    readmes w'
    = match rm with
      | Ok _ =>
          readmes (world frM) ++
          (if falsy (readmeOf (members tgz)) then []
           else [(packageVersionId pkgVersion,
                  join env (syncTempDir env pkg pkgVersion w) (readmeOf (members tgz)))])
      | Throw _ => readmes (world frM)
      end.
Proof.
  intros Hfind Hc Hm.
  rewrite (sync_enters_protected w pkg) by (try apply no_fault; exact Hfind).
  unfold with_locals.
  destruct (sync_primary_intact env no_fault pkg pkgVersion _ _ _ _ _ Hc Hm)
    as (fr1 & Hprim & Hi & Hb & Hp & Hr).
  destruct (sync_protected_run _ _ _ _ _ _ _ _ Hprim)
    as (fr2 & cleanup & Hprot & _ & _ & _ & Hi2 & Hb2 & Hr2 & Hp2).
  rewrite Hprot. eexists. split; [reflexivity|].
  rewrite Hi2, Hb2, Hr2, Hp2, Hi, Hb, Hr, Hp. repeat split.
Qed.

Lemma extractedFrame_fields (tmpdir tarFile : jsstring) (w : World) (pkg : Package) :
  files (extractedFrame env pkgVersion tmpdir tarFile (preparedWorld env pkg pkgVersion w)) = [] /\
  index (world (extractedFrame env pkgVersion tmpdir tarFile (preparedWorld env pkg pkgVersion w)))
  = index w /\
  blobs (world (extractedFrame env pkgVersion tmpdir tarFile (preparedWorld env pkg pkgVersion w)))
  = blobs w /\
  packages (world (extractedFrame env pkgVersion tmpdir tarFile (preparedWorld env pkg pkgVersion w)))
  = packages w /\
  readmes (world (extractedFrame env pkgVersion tmpdir tarFile (preparedWorld env pkg pkgVersion w)))
  = readmes w.
Proof. repeat split. Qed.

(** A fault-free run that returns entries has every manifest path
    indexed to the entry it returned; a second run returns the same
    entries and writes neither index nor blobs. *)
Lemma resync (w0 w1 : World) (fs : list PackageVersionFile) :
  syncPackageVersionFiles env pkgVersion w0 = (Ok fs, w1) ->
  exists w2,
    syncPackageVersionFiles env pkgVersion w1 = (Ok fs, w2) /\
    index w2 = index w1 /\ blobs w2 = blobs w1.
Proof.
  intros H0.
  destruct (findPackage pkgVersion w0) as [pkg|] eqn:Hfind.
  2:{ pose proof (sync_run _ _ _ _ _ H0) as R.
      inversion R; subst; try congruence.
      eexists. unfold syncPackageVersionFiles, bind, findPackageByPackageId, invoke.
      rewrite no_fault. cbn [packages emit].
      fold (findPackage pkgVersion w0). rewrite Hfind.
      split; [reflexivity|]. split; reflexivity. }
  destruct (rejection tgz) as [e|] eqn:Hrej.
  { destruct (sync_nofault_rejected w0 pkg e Hfind Hrej)
      as (w1' & E & Hi & Hb & Hr & Hp).
    rewrite E in H0. injection H0 as Hfs <-.
    assert (Hfind1 : findPackage pkgVersion w1' = Some pkg)
      by (unfold findPackage in *; now rewrite Hp).
    destruct (sync_nofault_rejected w1' pkg e Hfind1 Hrej) as (w2 & E2 & Hi2 & Hb2 & _).
    exists w2. rewrite <- Hfs. auto. }
  apply corrupt_accepted in Hrej. rename Hrej into Hc.
  destruct (materialize env pkg pkgVersion (syncTempDir env pkg pkgVersion w0)
              (manifestOf (members tgz))
              (extractedFrame env pkgVersion (syncTempDir env pkg pkgVersion w0)
                 (syncTempDir env pkg pkgVersion w0 ++ lit ".tgz")
                 (preparedWorld env pkg pkgVersion w0))) as [rm frM] eqn:Hm.
  destruct (sync_nofault_intact w0 pkg rm frM Hfind Hc Hm) as (w1' & E & Hi & Hb & Hp & Hr).
  rewrite E in H0. destruct rm as [[]|e]; [|discriminate].
  injection H0 as <- <-.
  destruct (materialize_indexed env pkg pkgVersion _ no_fault _ _ _ Hm)
    as (fs' & added & Hf & _ & Hall).
  rewrite (proj1 (extractedFrame_fields _ _ w0 pkg)) in Hf. simpl in Hf.
  pose proof (materialize_run _ _ _ _ _ _ _ _ Hm) as (_ & _ & _ & _ & _ & _ & _ & HpM & _).
  rewrite (proj1 (proj2 (proj2 (proj2 (extractedFrame_fields _ _ w0 pkg))))) in HpM.
  assert (Hfind1 : findPackage pkgVersion w1' = Some pkg)
    by (unfold findPackage in *; now rewrite Hp, HpM).
  destruct (materialize_stored env pkg pkgVersion (syncTempDir env pkg pkgVersion w1')
              no_fault (manifestOf (members tgz)) fs'
              (extractedFrame env pkgVersion (syncTempDir env pkg pkgVersion w1')
                 (syncTempDir env pkg pkgVersion w1' ++ lit ".tgz")
                 (preparedWorld env pkg pkgVersion w1')))
    as (frM2 & Hm2 & Hf2 & Hi2 & Hb2).
  { rewrite (proj1 (proj2 (extractedFrame_fields _ _ w1' pkg))), Hi. exact Hall. }
  destruct (sync_nofault_intact w1' pkg _ frM2 Hfind1 Hc Hm2)
    as (w2 & E2 & Hi3 & Hb3 & _).
  exists w2. rewrite E2, Hf2, Hf.
  rewrite (proj1 (extractedFrame_fields _ _ w1' pkg)).
  split; [reflexivity|].
  rewrite Hi3, Hb3, Hi2, Hb2.
  rewrite (proj1 (proj2 (extractedFrame_fields _ _ w1' pkg))).
  rewrite (proj1 (proj2 (proj2 (extractedFrame_fields _ _ w1' pkg)))).
  split; reflexivity.
Qed.

End NoFaultSync.

(* ================================================================== *)
(** ** Properties of the specification *)

(** C9. When the owning package of the version cannot be resolved,
    [syncPackageVersionFiles] returns the empty sequence without raising,
    and the only collaborator call it makes is the package lookup: the
    final world is the initial one with that single event added, so no
    temporary resource is created and nothing is downloaded or
    extracted. *)
Theorem sync_missing_package (env : Env) (pkgVersion : PackageVersion) (w : World) :
  fault env (CfindPackageByPackageId (packageId pkgVersion)) w = None ->
  findPackage pkgVersion w = None ->
  syncPackageVersionFiles env pkgVersion w
  = (Ok [], emit (CfindPackageByPackageId (packageId pkgVersion), None) w)
  /\ newEvents w (snd (syncPackageVersionFiles env pkgVersion w))
     = [(CfindPackageByPackageId (packageId pkgVersion), None)]
  /\ disk (snd (syncPackageVersionFiles env pkgVersion w)) = disk w.
Proof.
  intros F Hfind.
  assert (E : syncPackageVersionFiles env pkgVersion w
              = (Ok [], emit (CfindPackageByPackageId (packageId pkgVersion), None) w)).
  { unfold syncPackageVersionFiles, bind, findPackageByPackageId, invoke.
    rewrite F. fold (findPackage pkgVersion w). now rewrite Hfind. }
  rewrite E. split; [reflexivity|]. split; [|reflexivity].
  apply newEvents_app. reflexivity.
Qed.

Lemma sync_missing_package_witness :
  fault (Demo.env Demo.tgz_basic Demo.noFault)
    (CfindPackageByPackageId (packageId Demo.orphan)) Demo.w0 = None
  /\ findPackage Demo.orphan Demo.w0 = None
  /\ fst (syncPackageVersionFiles (Demo.env Demo.tgz_basic Demo.noFault)
            Demo.orphan Demo.w0) = Ok [].
Proof.
  split; [reflexivity|]. split; [reflexivity|].
  destruct (sync_missing_package (Demo.env Demo.tgz_basic Demo.noFault)
              Demo.orphan Demo.w0) as (E & _); [reflexivity | reflexivity |].
  rewrite E. reflexivity.
Defined.

Lemma onentry_retained (e : TarEntry) (fr : Frame) :
  retained e = true ->
  paths (onentry e fr) = paths fr ++ [lit "/" ++ stripFirstSegment (entryPath e)].
Proof.
  unfold retained, isFileEntry, hidden, onentry. intros H.
  apply andb_true_iff in H as [Hf Hh]. apply negb_true_iff in Hh.
  rewrite Hf. cbn [negb]. rewrite Hh. cbn [paths readmeFilename].
  destruct (falsy (readmeFilename fr)); [|reflexivity].
  now destruct (isReadmeName _).
Qed.

(** C6. Path normalization.  For a retained member [seg/rest], whose
    first segment [seg] has no [/], the callback appends [/rest] to the
    manifest; a name of one segment only is stripped to the empty string.
    [#getDirectoryAndName] splits [/nm] into directory [/] and name [nm],
    and [/d/nm] (with [d] not empty) into [/d] and [nm], for every name
    [nm] that is not empty and has no [/].  In particular
    [package/dir/sub/file.js] yields [/dir/sub] and [file.js], and
    [/a.txt] yields [/] and [a.txt]. *)
Theorem path_normalization (seg rest d nm : jsstring) (fr : Frame) :
  noSlash seg = true ->
  hidden (mkEntry File (seg ++ lit "/" ++ rest)) = false ->
  noSlash nm = true -> nm <> [] -> d <> [] ->
  paths (onentry (mkEntry File (seg ++ lit "/" ++ rest)) fr)
  = paths fr ++ [lit "/" ++ rest]
  /\ getDirectoryAndName (lit "/" ++ nm) = (lit "/", nm)
  /\ getDirectoryAndName (lit "/" ++ d ++ lit "/" ++ nm) = (lit "/" ++ d, nm)
  /\ getDirectoryAndName
       (lit "/" ++ stripFirstSegment (lit "package/dir/sub/file.js"))
     = (lit "/dir/sub", lit "file.js")
  /\ getDirectoryAndName (lit "/a.txt") = (lit "/", lit "a.txt")
  /\ stripFirstSegment seg = [].
Proof.
  intros Hseg Hh Hnm Hne Hd.
  split; [|split; [|split; [|split; [reflexivity|split;
    [reflexivity | now apply stripFirstSegment_single]]]]].
  - rewrite onentry_retained.
    + cbn [entryPath]. change (lit "/" ++ rest) with (CHAR_FORWARD_SLASH :: rest).
      now rewrite (stripFirstSegment_segment seg rest Hseg).
    + unfold retained. rewrite Hh. reflexivity.
  - unfold getDirectoryAndName.
    change (lit "/" ++ nm) with ([] ++ CHAR_FORWARD_SLASH :: nm).
    rewrite (dirname_of_name [] nm Hnm Hne), (basename_of_name [] nm Hnm Hne).
    reflexivity.
  - unfold getDirectoryAndName.
    replace (lit "/" ++ d ++ lit "/" ++ nm)
      with ((lit "/" ++ d) ++ CHAR_FORWARD_SLASH :: nm)
      by (now rewrite <- app_assoc).
    rewrite (dirname_of_name _ nm Hnm Hne), (basename_of_name _ nm Hnm Hne).
    destruct d as [|c d']; [contradiction|].
    reflexivity.
Qed.

Lemma path_normalization_witness :
  noSlash (lit "package") = true
  /\ hidden (mkEntry File (lit "package" ++ lit "/" ++ lit "dir/sub/file.js")) = false
  /\ noSlash (lit "file.js") = true /\ lit "file.js" <> [] /\ lit "dir/sub" <> []
  /\ getDirectoryAndName (lit "/" ++ lit "dir/sub" ++ lit "/" ++ lit "file.js")
     = (lit "/" ++ lit "dir/sub", lit "file.js").
Proof.
  assert (H1 : lit "file.js" <> []) by discriminate.
  assert (H2 : lit "dir/sub" <> []) by discriminate.
  repeat (split; [first [reflexivity | assumption]|]).
  apply (path_normalization (lit "package") (lit "dir/sub/file.js")
           (lit "dir/sub") (lit "file.js") (mkFrame Demo.w0 [] [] []));
    first [reflexivity | assumption].
Defined.

(** C8. Non-ASCII paths.  When [#savePackageVersionFile] materializes a
    path that was not indexed, the blob it stores is keyed by
    [encodeURI path] together with the version string, while the index
    entry keeps [dirname path] and [basename path] as they are.  The key
    consists of unescaped ASCII characters, [%] and hexadecimal digits; a
    [χ] in the path appears in the key as [%CF%87]; and for a path
    [d/nm] the entry's name is [nm] itself, with every original
    character.  Being keyed this way is an invariant: from an index whose
    entries all are, every run of [syncPackageVersionFiles] leaves such
    an index and returns such entries only. *)
Theorem nonascii_blob_key (env : Env) (pkg : Package) (pkgVersion : PackageVersion)
  (path localFile : jsstring) (w w' : World) (f : PackageVersionFile) :
  indexed pkgVersion path (index w) = None ->
  savePackageVersionFile env pkg pkgVersion path localFile w = (Ok f, w') ->
  encodeURI path = Some (distPath (dist f))
  /\ distVersion (dist f) = version pkgVersion
  /\ blobs w' = blobs w ++ [(dist f, localFile)]
  /\ directory f = Path.dirname path
  /\ name f = Path.basename path
  /\ (validUnits path = true -> forallb uriSafe (distPath (dist f)) = true)
  /\ (forall a b, path = a ++ chi :: b ->
        exists ra rb, encodeURI a = Some ra /\ encodeURI b = Some rb /\
                      distPath (dist f) = ra ++ lit "%CF%87" ++ rb)
  /\ (forall d nm, path = d ++ lit "/" ++ nm -> noSlash nm = true -> nm <> [] ->
        name f = nm)
  /\ (forall w0 r w1,
        Forall uriKeyed (index w0) ->
        syncPackageVersionFiles env pkgVersion w0 = (r, w1) ->
        Forall uriKeyed (index w1) /\
        (forall fs, r = Ok fs -> Forall uriKeyed fs)).
Proof.
  intros Hnew H.
  assert (Hinv : forall w0 r w1,
             Forall uriKeyed (index w0) ->
             syncPackageVersionFiles env pkgVersion w0 = (r, w1) ->
             Forall uriKeyed (index w1) /\
             (forall fs, r = Ok fs -> Forall uriKeyed fs)).
  { intros w0 r w1 HP Hs.
    destruct (sync_invariant env pkgVersion uriKeyed (fun _ => True) w0 w1 r)
      as (H1 & _ & H2); auto.
    - intros pkg0 path0 localFile0 dp Henc. split; [|exact I].
      exists path0. auto.
    - apply Forall_forall. auto. }
  apply save_run in H.
  assert (Hf : exists dp, encodeURI path = Some dp /\
                          f = newFile env pkg pkgVersion path localFile dp /\
                          blobs w' = blobs w ++ [(newDist env pkg pkgVersion localFile dp, localFile)]).
  { inversion H; subst; try congruence.
    - match goal with E : caughtDup _ _ = Ok _ |- _ => apply caughtDup_Ok in E; subst f end.
      match goal with U : updated _ _ _ _ _ |- _ => destruct U as (_ & _ & Hb & _) end.
      eauto.
    - match goal with U : updated _ _ _ _ _ |- _ => destruct U as (_ & _ & Hb & _) end.
      eauto. }
  destruct Hf as (dp & Henc & -> & Hb). cbn [newFile PackageVersionFile_create
    dist directory name newDist createPackageVersionFileDist distPath distVersion].
  split; [exact Henc|]. split; [reflexivity|]. split; [exact Hb|].
  split; [reflexivity|]. split; [reflexivity|].
  split; [|split; [|split; [|exact Hinv]]].
  - intros Hv. now apply (encodeURI_safe path dp Hv).
  - intros a b ->. apply encodeURI_chi in Henc as (ra & rb & Ha & Hb' & ->). eauto.
  - intros d nm -> Hs Hne. now apply basename_of_name.
Qed.

Lemma nonascii_blob_key_witness :
  indexed Demo.foo_1_0_0 Demo.chi_manifest_path (index Demo.w0) = None
  /\ encodeURI Demo.chi_manifest_path = Some (lit "/resource/ToOneFrom%CF%87.js")
  /\ Path.basename Demo.chi_manifest_path = lit "ToOneFrom" ++ [chi] ++ lit ".js".
Proof.
  split; [reflexivity|].
  pose proof (nonascii_blob_key (Demo.env Demo.tgz_chi Demo.noFault) Demo.foo
                Demo.foo_1_0_0 Demo.chi_manifest_path (lit "/tmp/f") Demo.w0
                (snd (savePackageVersionFile (Demo.env Demo.tgz_chi Demo.noFault)
                        Demo.foo Demo.foo_1_0_0 Demo.chi_manifest_path (lit "/tmp/f")
                        Demo.w0))
                (newFile (Demo.env Demo.tgz_chi Demo.noFault) Demo.foo Demo.foo_1_0_0
                   Demo.chi_manifest_path (lit "/tmp/f")
                   (lit "/resource/ToOneFrom%CF%87.js"))
                eq_refl eq_refl) as (H1 & _ & _ & _ & H2 & _).
  split; [exact H1 | symmetry; exact H2].
Defined.

(** C4. When the index insert of [#savePackageVersionFile] fails, the
    entry [f] whose insert failed is the one built for the path.  If the
    error is the duplicate-key conflict [ER_DUP_ENTRY], it is swallowed
    and [f] is returned; an insert error of any other kind is thrown to
    the caller unchanged. *)
Theorem duplicate_insert_swallowed (env : Env) (pkg : Package)
  (pkgVersion : PackageVersion) (path localFile : jsstring) (w w' : World)
  (r : Outcome PackageVersionFile) (f : PackageVersionFile) (e : JsError) :
  savePackageVersionFile env pkg pkgVersion path localFile w = (r, w') ->
  In (CcreatePackageVersionFile f, Some e) (newEvents w w') ->
  fileKey f = pathKey pkgVersion path
  /\ (hasCode e ER_DUP_ENTRY = true -> r = Ok f)
  /\ (hasCode e ER_DUP_ENTRY = false -> r = Throw e).
Proof.
  intros H Hin. apply save_run in H.
  inversion H; subst;
    match goal with U : updated _ _ _ _ _ |- _ => destruct U as (Ht & _) end;
    rewrite (newEvents_app _ _ _ Ht) in Hin; simpl in Hin;
    repeat (destruct Hin as [Hin|Hin]; try discriminate Hin); try contradiction.
  injection Hin as <- <-.
  split; [reflexivity|].
  unfold caughtDup. split; intros Hc; now rewrite Hc.
Qed.

Lemma duplicate_insert_swallowed_witness :
  let env := Demo.env Demo.tgz_basic (Demo.faultOn Demo.isCreateFile Demo.dupEntry) in
  let f := newFile env Demo.foo Demo.foo_1_0_0 (lit "/index.js") (lit "/tmp/f")
             (lit "/index.js") in
  let run := savePackageVersionFile env Demo.foo Demo.foo_1_0_0 (lit "/index.js")
               (lit "/tmp/f") Demo.w0 in
  In (CcreatePackageVersionFile f, Some Demo.dupEntry) (newEvents Demo.w0 (snd run))
  /\ hasCode Demo.dupEntry ER_DUP_ENTRY = true
  /\ fst run = Ok f.
Proof.
  intros env f run.
  assert (Hin : In (CcreatePackageVersionFile f, Some Demo.dupEntry)
                  (newEvents Demo.w0 (snd run))).
  { vm_compute. do 4 right. left. reflexivity. }
  split; [exact Hin|]. split; [reflexivity|].
  destruct (duplicate_insert_swallowed env Demo.foo Demo.foo_1_0_0 (lit "/index.js")
              (lit "/tmp/f") Demo.w0 (snd run) (fst run) f Demo.dupEntry
              (surjective_pairing run) Hin) as (_ & Hdup & _).
  apply Hdup. reflexivity.
Defined.

Lemma save_events_only (mat : list Event) (ev : Event) :
  forallb isSaveEvent mat = true -> In ev mat -> isSaveEvent ev = true.
Proof. intros H Hin. rewrite forallb_forall in H. now apply H. Qed.

Ltac in_cases H :=
  repeat match type of H with
         | In _ (_ ++ _) => apply in_app_or in H; destruct H as [H|H]
         | In _ (_ :: _) => destruct H as [H|H]; [try discriminate H|]
         | In _ [] => contradiction
         end.

Ltac not_save_event H :=
  match goal with
  | Hmat : forallb isSaveEvent ?mat = true |- _ =>
      match type of H with
      | In _ mat => apply (save_events_only _ _ Hmat) in H; discriminate H
      end
  end.

Ltac no_fault_at Hpre :=
  match goal with
  | F : FaultAt _ _ _ |- _ =>
      let w0 := fresh "w0" in
      destruct F as [w0 F]; rewrite Hpre in F by reflexivity; discriminate F
  end.

(** C3. Rejected archives.  When the package is found and none of the
    calls up to and including the extraction fails by the oracle, a
    tarball that the reader rejects with an error of code
    [TAR_BAD_ARCHIVE] makes [syncPackageVersionFiles] return the empty
    sequence and raise nothing, whatever happens during cleanup; a
    tarball that the reader rejects with an error of any other code, as
    it does a gzip stream that is cut short, makes the run raise that
    error.  In every run, an error [e] of the extraction is told apart by
    its code alone: with code [TAR_BAD_ARCHIVE] the result is the empty
    sequence, with any other code [e] itself is raised. *)
Theorem bad_archive_recoverable (env : Env) (pkgVersion : PackageVersion)
  (w w' : World) (r : Outcome (list PackageVersionFile)) :
  syncPackageVersionFiles env pkgVersion w = (r, w') ->
  (forall pkg e,
      findPackage pkgVersion w = Some pkg ->
      (forall c w0, reachesExtraction c = true -> fault env c w0 = None) ->
      rejection (tarball env (tarDist pkgVersion)) = Some e ->
      (hasCode e TAR_BAD_ARCHIVE = true -> r = Ok [])
      /\ (hasCode e TAR_BAD_ARCHIVE = false -> r = Throw e))
  /\ (forall file cwd e,
        In (Ctar_extract file cwd, Some e) (newEvents w w') ->
        (hasCode e TAR_BAD_ARCHIVE = true -> r = Ok [])
        /\ (hasCode e TAR_BAD_ARCHIVE = false -> r = Throw e)).
Proof.
  intros H. apply sync_run in H. split.
  - intros pkg e Hfind Hpre Hrej.
    assert (Hcor : corrupt (tarball env (tarDist pkgVersion)) = true)
      by (apply corrupt_rejected; eauto).
    inversion H as [e0 w0 F Ht | Hnone | pkg0 e0 w0 Hf F Ht
                   | pkg0 r0 body cleanup d1 w0 Hf F1 F2 Htry Hcl Ht]; subst;
      try congruence; try no_fault_at Hpre.
    inversion Htry as [e1 F | e1 [F | He] | | | |]; subst;
      try congruence; try no_fault_at Hpre.
    assert (e1 = e) by congruence. subst e1.
    unfold caught. split; intros Hcode; now rewrite Hcode.
  - intros file cwd e Hin.
    inversion H as [e0 w0 F Ht | Hnone | pkg0 e0 w0 Hf F Ht
                   | pkg0 r0 body cleanup d1 w0 Hf F1 F2 Htry Hcl Ht]; subst.
    + rewrite (newEvents_app _ _ _ Ht) in Hin. in_cases Hin.
    + rewrite (newEvents_app w _ [(CfindPackageByPackageId (packageId pkgVersion), None)])
        in Hin by reflexivity.
      in_cases Hin.
    + rewrite (newEvents_app _ _ _ Ht) in Hin. in_cases Hin.
    + rewrite (newEvents_app _ _ _ Ht) in Hin.
      apply in_app_or in Hin as [Hin|Hin]; [in_cases Hin|].
      apply in_app_or in Hin as [Hin|Hin].
      * inversion Htry; subst; in_cases Hin; try not_save_event Hin.
        injection Hin as _ _ <-.
        unfold caught. split; intros Hcode; now rewrite Hcode.
      * inversion Hcl; subst; in_cases Hin.
Qed.

Lemma bad_archive_recoverable_witness :
  let env := Demo.env Demo.tgz_empty (Demo.faultOn Demo.isRm Demo.EPERM) in
  let run := syncPackageVersionFiles env Demo.foo_1_0_0 Demo.w0 in
  findPackage Demo.foo_1_0_0 Demo.w0 = Some Demo.foo
  /\ (forall c w0, reachesExtraction c = true -> fault env c w0 = None)
  /\ rejection (tarball env (tarDist Demo.foo_1_0_0)) = Some unrecognized
  /\ hasCode unrecognized TAR_BAD_ARCHIVE = true
  /\ fst run = Ok [].
Proof.
  intros env run.
  assert (Hpre : forall c w0, reachesExtraction c = true -> fault env c w0 = None).
  { intros c w0 Hc. destruct c; try discriminate Hc; reflexivity. }
  split; [reflexivity|]. split; [exact Hpre|]. split; [reflexivity|].
  split; [reflexivity|].
  destruct (bad_archive_recoverable env Demo.foo_1_0_0 Demo.w0 (snd run) (fst run)
              (surjective_pairing run)) as (HA & _).
  destruct (HA Demo.foo unrecognized) as (Hbad & _);
    [reflexivity | exact Hpre | reflexivity |].
  apply Hbad. reflexivity.
Defined.

(** Not every corrupt tarball is recoverable.  The reader rejects a
    [.tgz] whose gzip stream is cut short with the error of the
    decompressor, whose code is [Z_BUF_ERROR]: without any other failure,
    [syncPackageVersionFiles] raises that error instead of returning the
    empty sequence. *)
Lemma truncated_gzip_is_fatal :
  NoFault (Demo.env Demo.tgz_truncated Demo.noFault)
  /\ findPackage Demo.foo_1_0_0 Demo.w0 = Some Demo.foo
  /\ corrupt (tarball (Demo.env Demo.tgz_truncated Demo.noFault)
                (tarDist Demo.foo_1_0_0)) = true
  /\ fst (syncPackageVersionFiles (Demo.env Demo.tgz_truncated Demo.noFault)
            Demo.foo_1_0_0 Demo.w0)
     = Throw Demo.Z_BUF_ERROR
  /\ fst (syncPackageVersionFiles (Demo.env Demo.tgz_truncated Demo.noFault)
            Demo.foo_1_0_0 Demo.w0)
     <> Ok [].
Proof.
  split; [intros c w; reflexivity|]. split; [reflexivity|].
  split; [reflexivity|]. split; [vm_compute; reflexivity|].
  vm_compute. discriminate.
Qed.

Lemma countCalls_app (p : Call -> bool) (a b : list Event) :
  countCalls p (a ++ b) = (countCalls p a + countCalls p b)%nat.
Proof. unfold countCalls. now rewrite filter_app, length_app. Qed.

(** Events of [#savePackageVersionFile] contain no call of any class
    disjoint from its own. *)
Lemma save_events_count (p : Call -> bool) (mat : list Event) :
  (forall c, isMaterializeCall c || isSaveLog c = true -> p c = false) ->
  forallb isSaveEvent mat = true -> countCalls p mat = 0%nat.
Proof.
  intros Hp. induction mat as [|[c o] mat IH]; [reflexivity|].
  simpl forallb. intros H. apply andb_true_iff in H as [Hc Hm].
  unfold countCalls in *. simpl filter.
  unfold isSaveEvent in Hc. simpl fst in Hc. rewrite (Hp c Hc). auto.
Qed.

Lemma save_events_no_readme (mat : list Event) :
  forallb isSaveEvent mat = true -> countCalls isReadmeCall mat = 0%nat.
Proof.
  apply save_events_count. intros c; destruct c; simpl; congruence.
Qed.

Lemma save_events_no_download (mat : list Event) :
  forallb isSaveEvent mat = true -> countCalls isDownloadCall mat = 0%nat.
Proof.
  apply save_events_count. intros c; destruct c; simpl; congruence.
Qed.

Lemma save_events_no_hasFiles (mat : list Event) :
  forallb isSaveEvent mat = true -> countCalls isHasFilesCall mat = 0%nat.
Proof.
  apply save_events_count. intros c; destruct c; simpl; congruence.
Qed.

Lemma cleanup_counts (env : Env) (tmpdir tarFile : jsstring)
  (d d' : list (jsstring * Node)) (cleanup : list Event) :
  CleanupRun env tmpdir tarFile d cleanup d' ->
  cleanupEvents tmpdir tarFile cleanup /\
  countCalls isReadmeCall cleanup = 0%nat /\
  countCalls isMaterializeCall cleanup = 0%nat.
Proof.
  unfold cleanupEvents.
  intros H; inversion H; subst; (split; [|split; reflexivity]); eauto.
Qed.

(** C5. Cleanup.  In every run of [syncPackageVersionFiles] that created
    its temporary directory, whatever the outcome (entries returned, the
    recoverable corrupt-archive return, or an error raised): the result
    is exactly the outcome of the [try]/[catch] part, so cleanup neither
    raises nor replaces it; the last events of the run are those of the
    cleanup, which removes the tarball file and then the directory, and
    on a failure logs a warning and stops; and when the two removals do
    not fail, neither the tarball file nor the directory is on the disk
    when the call returns. *)
Theorem cleanup_guarantee (env : Env) (pkgVersion : PackageVersion)
  (w w' : World) (r : Outcome (list PackageVersionFile)) (base hint : jsstring) :
  syncPackageVersionFiles env pkgVersion w = (r, w') ->
  In (CcreateTempDir base hint, None) (newEvents w w') ->
  let tmpdir := tempDirPath env base hint in
  let tarFile := tmpdir ++ lit ".tgz" in
  (exists pkg,
      findPackage pkgVersion w = Some pkg /\
      r = fst (sync_primary env pkg pkgVersion tmpdir tarFile
                 (mkFrame (preparedWorld env pkg pkgVersion w) [] [] [])))
  /\ (exists before cleanup,
         newEvents w w' = before ++ cleanup /\
         cleanupEvents tmpdir tarFile cleanup)
  /\ ((forall w0, fault env (Cfs_rm tarFile false) w0 = None) ->
      (forall w0, fault env (Cfs_rm tmpdir true) w0 = None) ->
      disk_exists tarFile (disk w') = false /\
      disk_exists tmpdir (disk w') = false).
Proof.
  intros H Hin tmpdir tarFile.
  pose proof (sync_run _ _ _ _ _ H) as R.
  inversion R as [e0 w0 F Ht | Hnone | pkg0 e0 w0 Hf F Ht
                 | pkg r0 body cleanup d1 w0 Hf F1 F2 Htry Hcl Ht]; subst.
  { rewrite (newEvents_app _ _ _ Ht) in Hin. in_cases Hin. }
  { rewrite (newEvents_app w _ [(CfindPackageByPackageId (packageId pkgVersion), None)])
      in Hin by reflexivity.
    in_cases Hin. }
  { rewrite (newEvents_app _ _ _ Ht) in Hin. in_cases Hin. }
  rewrite (newEvents_app _ _ _ Ht) in *.
  assert (Htmp : tmpdir = syncTempDir env pkg pkgVersion w).
  { apply in_app_or in Hin as [Hin|Hin].
    - in_cases Hin. injection Hin as <- <-. reflexivity.
    - apply in_app_or in Hin as [Hin|Hin].
      + inversion Htry; subst; in_cases Hin; not_save_event Hin.
      + inversion Hcl; subst; in_cases Hin. }
  subst tarFile. rewrite Htmp in *. clear Htmp tmpdir Hin.
  split; [|split].
  - exists pkg. split; [exact Hf|].
    rewrite (sync_enters_protected env pkgVersion w pkg F1 Hf F2) in H.
    unfold with_locals in H.
    destruct (sync_primary env pkg pkgVersion (syncTempDir env pkg pkgVersion w)
                (syncTempDir env pkg pkgVersion w ++ lit ".tgz")
                (mkFrame (preparedWorld env pkg pkgVersion w) [] [] []))
      as [r1 fr1] eqn:Hprim.
    destruct (sync_protected_run _ _ _ _ _ _ _ _ Hprim) as (fr2 & evs & Hp & _).
    rewrite Hp in H. now injection H as <- _.
  - eexists (_ ++ body), cleanup.
    split; [now rewrite <- app_assoc|].
    apply (cleanup_counts _ _ _ _ _ _ Hcl).
  - intros Hrm1 Hrm2.
    inversion Hcl as [Hev Hd | e Fe Hev Hd | e Fe Hev Hd]; subst;
      try (destruct Fe as [w1 Fe]; congruence).
    split.
    + apply disk_exists_remove. exact (disk_exists_removed _ d1).
    + exact (disk_exists_removed _ _).
Qed.

Lemma cleanup_guarantee_witness :
  let env := Demo.env Demo.tgz_basic (Demo.faultOn Demo.isStat Demo.EIO) in
  let run := syncPackageVersionFiles env Demo.foo_1_0_0 Demo.w0 in
  let tmpdir := lit "/data/unpkg_@scope_foo@1.0.0_u1" in
  In (CcreateTempDir (lit "/data") (lit "unpkg_@scope_foo@1.0.0_u1"), None)
    (newEvents Demo.w0 (snd run))
  /\ fst run = Throw Demo.EIO
  /\ disk_exists (tmpdir ++ lit ".tgz") (disk (snd run)) = false
  /\ disk_exists tmpdir (disk (snd run)) = false.
Proof.
  intros env run tmpdir.
  assert (Hin : In (CcreateTempDir (lit "/data") (lit "unpkg_@scope_foo@1.0.0_u1"), None)
                  (newEvents Demo.w0 (snd run))).
  { vm_compute. right. left. reflexivity. }
  split; [exact Hin|]. split; [reflexivity|].
  destruct (cleanup_guarantee env Demo.foo_1_0_0 Demo.w0 (snd run) (fst run)
              (lit "/data") (lit "unpkg_@scope_foo@1.0.0_u1")
              (surjective_pairing run) Hin) as (_ & _ & Hdisk).
  apply Hdisk; intros w0; reflexivity.
Defined.

Lemma readmeOf_first (ms : list TarEntry) (before after : list jsstring) (n : jsstring) :
  map (fun e => stripFirstSegment (entryPath e)) (filter retained ms)
  = before ++ n :: after ->
  existsb isReadmeName before = false ->
  isReadmeName n = true ->
  readmeOf ms = n.
Proof.
  intros Hl Hb Hn. unfold readmeOf. rewrite Hl. clear Hl.
  induction before as [|x before IH]; simpl.
  - now rewrite Hn.
  - simpl in Hb. apply orb_false_iff in Hb as [Hx Hb].
    rewrite Hx. now apply IH.
Qed.

Lemma try_run_split (env : Env) (pkgVersion : PackageVersion)
  (tmpdir tarFile : jsstring) (r : Outcome (list PackageVersionFile))
  (body : list Event) :
  TryRun env pkgVersion tmpdir tarFile r body ->
  exists b1 b2,
    body = b1 ++ b2 /\
    countCalls isReadmeCall b1 = 0%nat /\
    countCalls isMaterializeCall b2 = 0%nat /\
    (countCalls isReadmeCall b2 <= 1)%nat.
Proof.
  intros H.
  inversion H as [e F | e F | e mat fs Hc Hmat | mat fs Hc Hmat Hk Hr
                 | mat fs Hc Hmat Hk Hr | mat fs e Hc Hmat Hk Hr]; subst.
  - eexists [], _. split; [reflexivity|]. repeat split; auto.
  - eexists [], _. split; [reflexivity|]. repeat split; auto.
  - exists ([logDownloadStart;
             (CdownloadDistToFile (tarDist pkgVersion) tarFile, None);
             logExtractStart; (Ctar_extract tarFile tmpdir, None)] ++ mat),
           [logError].
    split; [now rewrite <- app_assoc|].
    rewrite countCalls_app, (save_events_no_readme mat Hmat). repeat split; auto.
  - exists ([logDownloadStart;
             (CdownloadDistToFile (tarDist pkgVersion) tarFile, None);
             logExtractStart; (Ctar_extract tarFile tmpdir, None)] ++ mat),
           [logSuccess].
    split; [now rewrite <- app_assoc|].
    rewrite countCalls_app, (save_events_no_readme mat Hmat). repeat split; auto.
  - eexists ([logDownloadStart;
              (CdownloadDistToFile (tarDist pkgVersion) tarFile, None);
              logExtractStart; (Ctar_extract tarFile tmpdir, None)] ++ mat), _.
    split; [now rewrite <- app_assoc|].
    rewrite countCalls_app, (save_events_no_readme mat Hmat). repeat split; auto.
  - eexists ([logDownloadStart;
              (CdownloadDistToFile (tarDist pkgVersion) tarFile, None);
              logExtractStart; (Ctar_extract tarFile tmpdir, None)] ++ mat), _.
    split; [now rewrite <- app_assoc|].
    rewrite countCalls_app, (save_events_no_readme mat Hmat). repeat split; auto.
Qed.

Lemma try_run_readme_once (env : Env) (pkgVersion : PackageVersion)
  (tmpdir tarFile : jsstring) (r : Outcome (list PackageVersionFile))
  (body : list Event) :
  TryRun env pkgVersion tmpdir tarFile r body ->
  In logSuccess body ->
  readmeOf (members (tarball env (tarDist pkgVersion))) <> [] ->
  countCalls isReadmeCall body = 1%nat.
Proof.
  intros H Hin Hne.
  inversion H as [e F | e F | e mat fs Hc Hmat | mat fs Hc Hmat Hk Hr
                 | mat fs Hc Hmat Hk Hr | mat fs e Hc Hmat Hk Hr]; subst;
    try (in_cases Hin; try not_save_event Hin; fail);
    try contradiction;
    rewrite !countCalls_app, (save_events_no_readme mat Hmat); reflexivity.
Qed.

Lemma try_run_readme_none (env : Env) (pkgVersion : PackageVersion)
  (tmpdir tarFile : jsstring) (r : Outcome (list PackageVersionFile))
  (body : list Event) :
  TryRun env pkgVersion tmpdir tarFile r body ->
  readmeOf (members (tarball env (tarDist pkgVersion))) = [] ->
  countCalls isReadmeCall body = 0%nat.
Proof.
  intros H He.
  inversion H as [e F | e F | e mat fs Hc Hmat | mat fs Hc Hmat Hk Hr
                 | mat fs Hc Hmat Hk Hr | mat fs e Hc Hmat Hk Hr]; subst;
    try contradiction; try reflexivity;
    rewrite !countCalls_app, (save_events_no_readme mat Hmat); reflexivity.
Qed.

(** C7. README selection.  The [onentry] callbacks of one extraction
    leave in [readmeFilename] the first stripped name of a retained
    member, in archive order, that equals [README.md], [readme.md] or
    [Readme.md]; later matches do not change it.  In every run the
    events split into a first part without any README hand-over and a
    second part without any call of the materialization and with at
    most one hand-over; what is handed over is the recorded README
    member, joined to the temporary directory.  A run that got past its
    loop (it logged success) and has a README member makes the hand-over
    exactly once; a run without README member never makes it.  In a
    fault-free run on an intact archive that returns its entries and has
    a README member, the README store receives exactly that one file. *)
Theorem readme_selection (env : Env) (pkgVersion : PackageVersion)
  (w w' : World) (r : Outcome (list PackageVersionFile)) :
  syncPackageVersionFiles env pkgVersion w = (r, w') ->
  let ms := members (tarball env (tarDist pkgVersion)) in
  (forall fr, falsy (readmeFilename fr) = true ->
              readmeFilename (fold_left (fun f e => onentry e f) ms fr) = readmeOf ms)
  /\ (forall before n after,
         map (fun e => stripFirstSegment (entryPath e)) (filter retained ms)
         = before ++ n :: after ->
         existsb isReadmeName before = false ->
         isReadmeName n = true ->
         readmeOf ms = n)
  /\ (exists pre post,
         newEvents w w' = pre ++ post /\
         countCalls isReadmeCall pre = 0%nat /\
         countCalls isMaterializeCall post = 0%nat /\
         (countCalls isReadmeCall post <= 1)%nat)
  /\ (forall vid file o,
         In (CsavePackageVersionReadme vid file, o) (newEvents w w') ->
         vid = packageVersionId pkgVersion /\ readmeOf ms <> [] /\
         exists pkg, findPackage pkgVersion w = Some pkg /\
                     file = join env (syncTempDir env pkg pkgVersion w) (readmeOf ms))
  /\ (In logSuccess (newEvents w w') -> readmeOf ms <> [] ->
      countCalls isReadmeCall (newEvents w w') = 1%nat)
  /\ (readmeOf ms = [] -> countCalls isReadmeCall (newEvents w w') = 0%nat)
  /\ (forall pkg fs,
         NoFault env ->
         findPackage pkgVersion w = Some pkg ->
         corrupt (tarball env (tarDist pkgVersion)) = false ->
         r = Ok fs ->
         readmeOf ms <> [] ->
         readmes w' = readmes w ++
           [(packageVersionId pkgVersion,
             join env (syncTempDir env pkg pkgVersion w) (readmeOf ms))]).
Proof.
  intros H ms.
  pose proof (sync_run _ _ _ _ _ H) as R.
  split; [|split; [|split; [|split; [|split; [|split]]]]].
  - intros fr Hf. rewrite onentry_fold. cbn [readmeFilename]. now rewrite Hf.
  - intros before n after. apply readmeOf_first.
  - inversion R as [e0 w0 F Ht | Hnone | pkg0 e0 w0 Hf F Ht
                   | pkg r0 body cleanup d1 w0 Hf F1 F2 Htry Hcl Ht]; subst.
    + exists [], (newEvents w w'). rewrite (newEvents_app _ _ _ Ht).
      repeat split; auto.
    + exists [], [(CfindPackageByPackageId (packageId pkgVersion), None)].
      rewrite (newEvents_app w _ [(CfindPackageByPackageId (packageId pkgVersion), None)])
        by reflexivity.
      repeat split; auto.
    + exists [], (newEvents w w'). rewrite (newEvents_app _ _ _ Ht).
      repeat split; auto.
    + rewrite (newEvents_app _ _ _ Ht).
      destruct (cleanup_counts _ _ _ _ _ _ Hcl) as (_ & Hc1 & Hc2).
      destruct (try_run_split _ _ _ _ _ _ Htry) as (b1 & b2 & -> & Hb1 & Hb2 & Hb3).
      exists ([(CfindPackageByPackageId (packageId pkgVersion), None);
               (CcreateTempDir (dataDir env)
                  (tempDirName pkg pkgVersion
                     (randomUUID env
                        (emit (CfindPackageByPackageId (packageId pkgVersion), None) w))),
                None)] ++ b1), (b2 ++ cleanup).
      split; [now rewrite <- !app_assoc|].
      rewrite !countCalls_app, Hc1, Hc2, Hb1, Hb2, !Nat.add_0_r.
      repeat split; auto.
  - intros vid file o Hin.
    inversion R as [e0 w0 F Ht | Hnone | pkg0 e0 w0 Hf F Ht
                   | pkg r0 body cleanup d1 w0 Hf F1 F2 Htry Hcl Ht]; subst.
    + rewrite (newEvents_app _ _ _ Ht) in Hin. in_cases Hin.
    + rewrite (newEvents_app w _ [(CfindPackageByPackageId (packageId pkgVersion), None)])
        in Hin by reflexivity.
      in_cases Hin.
    + rewrite (newEvents_app _ _ _ Ht) in Hin. in_cases Hin.
    + rewrite (newEvents_app _ _ _ Ht) in Hin.
      apply in_app_or in Hin as [Hin|Hin]; [in_cases Hin|].
      apply in_app_or in Hin as [Hin|Hin].
      * inversion Htry; subst; in_cases Hin; try not_save_event Hin;
          injection Hin as <- <- _; (split; [reflexivity|]);
          (split; [assumption|]); exists pkg; auto.
      * inversion Hcl; subst; in_cases Hin.
  - intros Hin Hne.
    inversion R as [e0 w0 F Ht | Hnone | pkg0 e0 w0 Hf F Ht
                   | pkg r0 body cleanup d1 w0 Hf F1 F2 Htry Hcl Ht]; subst.
    + rewrite (newEvents_app _ _ _ Ht) in Hin. in_cases Hin.
    + rewrite (newEvents_app w _ [(CfindPackageByPackageId (packageId pkgVersion), None)])
        in Hin by reflexivity.
      in_cases Hin.
    + rewrite (newEvents_app _ _ _ Ht) in Hin. in_cases Hin.
    + rewrite (newEvents_app _ _ _ Ht) in *.
      destruct (cleanup_counts _ _ _ _ _ _ Hcl) as (_ & Hc1 & _).
      rewrite !countCalls_app, Hc1.
      apply in_app_or in Hin as [Hin|Hin]; [in_cases Hin|].
      apply in_app_or in Hin as [Hin|Hin].
      * now rewrite (try_run_readme_once _ _ _ _ _ _ Htry Hin Hne).
      * inversion Hcl; subst; in_cases Hin.
  - intros He.
    inversion R as [e0 w0 F Ht | Hnone | pkg0 e0 w0 Hf F Ht
                   | pkg r0 body cleanup d1 w0 Hf F1 F2 Htry Hcl Ht]; subst.
    + now rewrite (newEvents_app _ _ _ Ht).
    + now rewrite (newEvents_app w _ [(CfindPackageByPackageId (packageId pkgVersion), None)])
        by reflexivity.
    + now rewrite (newEvents_app _ _ _ Ht).
    + rewrite (newEvents_app _ _ _ Ht).
      destruct (cleanup_counts _ _ _ _ _ _ Hcl) as (_ & Hc1 & _).
      now rewrite !countCalls_app, Hc1, (try_run_readme_none _ _ _ _ _ _ Htry He).
  - intros pkg fs Hnf Hfind Hc -> Hne.
    destruct (materialize env pkg pkgVersion (syncTempDir env pkg pkgVersion w)
                (manifestOf ms)
                (extractedFrame env pkgVersion (syncTempDir env pkg pkgVersion w)
                   (syncTempDir env pkg pkgVersion w ++ lit ".tgz")
                   (preparedWorld env pkg pkgVersion w))) as [rm frM] eqn:Hm.
    destruct (sync_nofault_intact env pkgVersion Hnf w pkg rm frM Hfind Hc Hm)
      as (w1 & E & _ & _ & _ & Hr).
    rewrite E in H. destruct rm as [[]|e]; [|discriminate].
    injection H as _ <-.
    pose proof (materialize_run _ _ _ _ _ _ _ _ Hm)
      as (_ & _ & _ & _ & _ & _ & _ & _ & HrM & _).
    rewrite Hr, HrM. fold ms.
    destruct (readmeOf ms); [contradiction | reflexivity].
Qed.

Lemma readme_selection_witness :
  let env := Demo.env Demo.tgz_readmes Demo.noFault in
  let run := syncPackageVersionFiles env Demo.foo_1_0_0 Demo.w0 in
  NoFault env
  /\ findPackage Demo.foo_1_0_0 Demo.w0 = Some Demo.foo
  /\ corrupt (tarball env (tarDist Demo.foo_1_0_0)) = false
  /\ readmeOf (members (tarball env (tarDist Demo.foo_1_0_0))) = lit "readme.md"
  /\ readmes (snd run)
     = [(lit "ver-1", lit "/data/unpkg_@scope_foo@1.0.0_u1/readme.md")].
Proof.
  intros env run.
  assert (Hnf : NoFault env) by (intros c w0; reflexivity).
  split; [exact Hnf|]. split; [reflexivity|]. split; [reflexivity|].
  split; [reflexivity|].
  destruct (readme_selection env Demo.foo_1_0_0 Demo.w0 (snd run) (fst run)
              (surjective_pairing run)) as (_ & _ & _ & _ & _ & _ & Hone).
  rewrite (Hone Demo.foo
             (match fst run with Ok fs => fs | Throw _ => [] end) Hnf);
    [reflexivity | reflexivity | reflexivity | reflexivity | discriminate].
Defined.

Section FaultFree.

Variable env : Env.
Hypothesis no_fault : NoFault env.
Variable pkgVersion : PackageVersion.

Local Abbreviation tgz := (tarball env (tarDist pkgVersion)).

(** A fault-free run on an intact archive that returns entries has
    indexed every manifest path to the entry it returned. *)
Lemma sync_ok_indexed (w0 w1 : World) (pkg : Package)
  (fs : list PackageVersionFile) :
  findPackage pkgVersion w0 = Some pkg ->
  corrupt tgz = false ->
  syncPackageVersionFiles env pkgVersion w0 = (Ok fs, w1) ->
  Forall2 (fun p f => indexed pkgVersion p (index w1) = Some f)
    (manifestOf (members tgz)) fs.
Proof.
  intros Hfind Hc H.
  destruct (materialize env pkg pkgVersion (syncTempDir env pkg pkgVersion w0)
              (manifestOf (members tgz))
              (extractedFrame env pkgVersion (syncTempDir env pkg pkgVersion w0)
                 (syncTempDir env pkg pkgVersion w0 ++ lit ".tgz")
                 (preparedWorld env pkg pkgVersion w0))) as [rm frM] eqn:Hm.
  destruct (sync_nofault_intact env pkgVersion no_fault w0 pkg rm frM Hfind Hc Hm)
    as (w1' & E & Hi & _).
  rewrite E in H. destruct rm as [[]|e]; [|discriminate].
  injection H as <- <-.
  destruct (materialize_indexed env pkg pkgVersion _ no_fault _ _ _ Hm)
    as (fs' & added & Hf & _ & Hall).
  rewrite Hf, Hi. exact Hall.
Qed.

(** A fault-free run leaves the package store as it is. *)
Lemma sync_nofault_packages (w w' : World) (r : Outcome (list PackageVersionFile)) :
  syncPackageVersionFiles env pkgVersion w = (r, w') ->
  findPackage pkgVersion w' = findPackage pkgVersion w.
Proof.
  intros H.
  destruct (findPackage pkgVersion w) as [pkg|] eqn:Hfind.
  2:{ pose proof (sync_run _ _ _ _ _ H) as R.
      inversion R as [e0 w0 F Ht | Hnone | pkg0 e0 w0 Hf F Ht
                     | pkg r0 body cleanup d1 w0 Hf F1 F2 Htry Hcl Ht]; subst;
        try congruence; try exact Hfind.
      destruct F as [w1 F]. rewrite no_fault in F. discriminate. }
  destruct (rejection tgz) as [e|] eqn:Hrej.
  { destruct (sync_nofault_rejected env pkgVersion no_fault w pkg e Hfind Hrej)
      as (w1 & E & _ & _ & _ & Hp).
    rewrite E in H. injection H as _ <-.
    unfold findPackage in *. now rewrite Hp. }
  apply corrupt_accepted in Hrej. rename Hrej into Hc.
  destruct (materialize env pkg pkgVersion (syncTempDir env pkg pkgVersion w)
              (manifestOf (members tgz))
              (extractedFrame env pkgVersion (syncTempDir env pkg pkgVersion w)
                 (syncTempDir env pkg pkgVersion w ++ lit ".tgz")
                 (preparedWorld env pkg pkgVersion w))) as [rm frM] eqn:Hm.
  destruct (sync_nofault_intact env pkgVersion no_fault w pkg rm frM Hfind Hc Hm)
    as (w1 & E & _ & _ & Hp & _).
  rewrite E in H. injection H as _ <-.
  pose proof (materialize_run _ _ _ _ _ _ _ _ Hm) as (_ & _ & _ & _ & _ & _ & _ & HpM & _).
  unfold findPackage in *. now rewrite Hp, HpM.
Qed.

End FaultFree.

Lemma retained_all_files (ms : list TarEntry) :
  forallb (fun e => negb (hidden e)) (filter isFileEntry ms) = true ->
  filter retained ms = filter isFileEntry ms.
Proof.
  induction ms as [|e ms IH]; [reflexivity|].
  simpl. unfold retained at 1.
  destruct (isFileEntry e); simpl; [|exact IH].
  intros H. apply andb_true_iff in H as [He Hms].
  rewrite He. f_equal. now apply IH.
Qed.

Lemma Forall2_keys (pkgVersion : PackageVersion) (ix : list PackageVersionFile)
  (ps : list jsstring) (fs : list PackageVersionFile) :
  Forall2 (fun p f => indexed pkgVersion p ix = Some f) ps fs ->
  map fileKey fs = map (pathKey pkgVersion) ps.
Proof.
  induction 1 as [|p f ps fs Hp _ IH]; [reflexivity|].
  simpl. now rewrite IH, (indexed_key _ _ _ _ Hp).
Qed.

Lemma Forall2_map_left {A B C} (g : A -> B) (R : B -> C -> Prop)
  (l : list A) (fs : list C) :
  Forall2 R (map g l) fs -> Forall2 (fun a c => R (g a) c) l fs.
Proof.
  revert fs; induction l as [|a l IH]; intros fs H; inversion H; subst;
    constructor; auto.
Qed.

(** A run that got past its loop returns one entry per manifest path. *)
Lemma sync_success_keys (env : Env) (pkgVersion : PackageVersion)
  (w w' : World) (fs : list PackageVersionFile) :
  syncPackageVersionFiles env pkgVersion w = (Ok fs, w') ->
  In logSuccess (newEvents w w') ->
  map fileKey fs
  = map (pathKey pkgVersion) (manifestOf (members (tarball env (tarDist pkgVersion)))).
Proof.
  intros H Hin. apply sync_run in H.
  inversion H as [e0 w0 F Ht | Hnone | pkg0 e0 w0 Hf F Ht
                 | pkg r0 body cleanup d1 w0 Hf F1 F2 Htry Hcl Ht]; subst.
  - rewrite (newEvents_app w _ [(CfindPackageByPackageId (packageId pkgVersion), None)])
      in Hin by reflexivity.
    in_cases Hin.
  - rewrite (newEvents_app _ _ _ Ht) in Hin.
    apply in_app_or in Hin as [Hin|Hin]; [in_cases Hin|].
    apply in_app_or in Hin as [Hin|Hin]; [|inversion Hcl; subst; in_cases Hin].
    inversion Htry as [e F | e F | e mat fs0 Hc Hmat | mat fs0 Hc Hmat Hk Hr
                      | mat fs0 Hc Hmat Hk Hr | mat fs0 e Hc Hmat Hk Hr]; subst;
      try (in_cases Hin; try not_save_event Hin; fail);
      try exact Hk.
    match goal with E : caught _ _ = Ok _ |- _ => apply caught_Ok in E; subst fs end.
    exact Hk.
Qed.

(** C1. One entry per member.  Whenever a run of
    [syncPackageVersionFiles] gets past its loop (it logged success) and
    returns entries, it returns exactly one entry per retained member
    (regular file without a [/./] segment), in archive order: the i-th
    entry belongs to the version and carries the directory and name of
    the i-th retained member's path with its first segment stripped and
    [/] prefixed.  A fault-free run does so for every package that is
    found and every tarball that is not corrupt and whose retained
    members have well-formed names; each entry is then the one the index
    holds for that path.  When no file member has a [/./] segment, the
    retained members are all the file members. *)
Theorem sync_one_entry_per_member (env : Env) (pkgVersion : PackageVersion)
  (w : World) :
  let ms := members (tarball env (tarDist pkgVersion)) in
  let kept := filter retained ms in
  let manifestPath := fun e => lit "/" ++ stripFirstSegment (entryPath e) in
  (forall fs w',
      syncPackageVersionFiles env pkgVersion w = (Ok fs, w') ->
      In logSuccess (newEvents w w') ->
      List.length fs = List.length kept /\
      map fileKey fs = map (fun e => pathKey pkgVersion (manifestPath e)) kept)
  /\ (forall pkg,
         NoFault env ->
         findPackage pkgVersion w = Some pkg ->
         corrupt (tarball env (tarDist pkgVersion)) = false ->
         Forall (fun e => wellFormed (entryPath e) = true) kept ->
         exists fs w',
           syncPackageVersionFiles env pkgVersion w = (Ok fs, w')
           /\ List.length fs = List.length kept
           /\ map fileKey fs = map (fun e => pathKey pkgVersion (manifestPath e)) kept
           /\ Forall2 (fun e f => indexed pkgVersion (manifestPath e) (index w') = Some f)
                kept fs
           /\ (forallb (fun e => negb (hidden e)) (filter isFileEntry ms) = true ->
               List.length fs = List.length (filter isFileEntry ms))).
Proof.
  intros ms kept manifestPath.
  assert (Hman : manifestOf ms = map manifestPath kept) by reflexivity.
  split.
  - intros fs w' H Hin.
    pose proof (sync_success_keys env pkgVersion w w' fs H Hin) as Hk.
    fold ms in Hk. rewrite Hman, map_map in Hk.
    split; [|exact Hk].
    apply (f_equal (@List.length _)) in Hk. now rewrite !length_map in Hk.
  - intros pkg Hnf Hfind Hc Hwf.
    assert (Hwf' : Forall (fun p => wellFormed p = true) (manifestOf ms)).
    { rewrite Hman. apply Forall_map.
      eapply Forall_impl; [|exact Hwf].
      intros e He. now apply wellFormed_manifest_path. }
    destruct (materialize_completes env pkg pkgVersion (syncTempDir env pkg pkgVersion w)
                Hnf _ Hwf'
                (extractedFrame env pkgVersion (syncTempDir env pkg pkgVersion w)
                   (syncTempDir env pkg pkgVersion w ++ lit ".tgz")
                   (preparedWorld env pkg pkgVersion w))) as (frM & Hm).
    destruct (sync_nofault_intact env pkgVersion Hnf w pkg _ frM Hfind Hc Hm)
      as (w' & E & _).
    pose proof (sync_ok_indexed env Hnf pkgVersion w w' pkg _ Hfind Hc E) as Hall.
    fold ms in Hall.
    exists (files frM), w'.
    assert (Hlen : List.length (files frM) = List.length kept).
    { apply Forall2_length in Hall. rewrite Hman, length_map in Hall. congruence. }
    split; [exact E|]. split; [exact Hlen|]. split; [|split].
    + rewrite (Forall2_keys _ _ _ _ Hall), Hman, map_map. reflexivity.
    + rewrite Hman in Hall. now apply Forall2_map_left in Hall.
    + intros Hnone. rewrite Hlen. unfold kept.
      now rewrite (retained_all_files _ Hnone).
Qed.

Lemma sync_one_entry_per_member_witness :
  let env := Demo.env Demo.tgz_readmes Demo.noFault in
  NoFault env
  /\ findPackage Demo.foo_1_0_0 Demo.w0 = Some Demo.foo
  /\ corrupt (tarball env (tarDist Demo.foo_1_0_0)) = false
  /\ exists fs w',
       syncPackageVersionFiles env Demo.foo_1_0_0 Demo.w0 = (Ok fs, w')
       /\ List.length fs = 3%nat
       /\ map (fun f => (directory f, name f)) fs
          = [(lit "/", lit "readme.md"); (lit "/dir/sub", lit "file.js");
             (lit "/", lit "README.md")].
Proof.
  intros env.
  assert (Hnf : NoFault env) by (intros c w0; reflexivity).
  split; [exact Hnf|]. split; [reflexivity|]. split; [reflexivity|].
  destruct (sync_one_entry_per_member env Demo.foo_1_0_0 Demo.w0) as (_ & Hrun).
  destruct (Hrun Demo.foo Hnf eq_refl eq_refl) as (fs & w' & E & Hlen & _).
  { repeat constructor. }
  exists fs, w'. split; [exact E|]. split; [exact Hlen|].
  assert (Hfs : Ok fs = fst (syncPackageVersionFiles env Demo.foo_1_0_0 Demo.w0))
    by (now rewrite E).
  vm_compute in Hfs. injection Hfs as ->. reflexivity.
Defined.

Lemma save_found (env : Env) (pkg : Package) (pkgVersion : PackageVersion)
  (path localFile : jsstring) (w : World) (f : PackageVersionFile) :
  fault env (CfindPackageVersionFile (packageVersionId pkgVersion)
               (Path.dirname path) (Path.basename path)) w = None ->
  indexed pkgVersion path (index w) = Some f ->
  savePackageVersionFile env pkg pkgVersion path localFile w
  = (Ok f, emit (CfindPackageVersionFile (packageVersionId pkgVersion)
                   (Path.dirname path) (Path.basename path), None) w).
Proof.
  intros F Hix.
  unfold savePackageVersionFile, getDirectoryAndName, bind,
    findPackageVersionFile, invoke.
  rewrite F. unfold indexed in Hix. now rewrite Hix.
Qed.

(** C2. Idempotence.  When the index already holds an entry for the
    tuple of a path, [#savePackageVersionFile] makes the index lookup
    and nothing else: the file is neither read (no stat, no digest) nor
    stored (no blob write, no insert), and unless the lookup itself fails
    the stored entry is returned as it is.  Hence a run of
    [syncPackageVersionFiles] on a world in which every manifest path is
    indexed changes neither the index nor the blob store, whatever fails;
    and without faults, a second run on the world a first one left
    returns the same entries and changes neither. *)
Theorem materialization_idempotent (env : Env) (pkg : Package)
  (pkgVersion : PackageVersion) :
  (forall path localFile w w' r f,
      indexed pkgVersion path (index w) = Some f ->
      savePackageVersionFile env pkg pkgVersion path localFile w = (r, w') ->
      index w' = index w /\ blobs w' = blobs w
      /\ (exists o,
             newEvents w w'
             = [(CfindPackageVersionFile (packageVersionId pkgVersion)
                   (Path.dirname path) (Path.basename path), o)])
      /\ (fault env (CfindPackageVersionFile (packageVersionId pkgVersion)
                      (Path.dirname path) (Path.basename path)) w = None ->
          r = Ok f))
  /\ (forall w r w',
         allIndexed pkgVersion
           (manifestOf (members (tarball env (tarDist pkgVersion)))) (index w) ->
         syncPackageVersionFiles env pkgVersion w = (r, w') ->
         index w' = index w /\ blobs w' = blobs w)
  /\ (NoFault env ->
      forall w0 w1 fs,
        syncPackageVersionFiles env pkgVersion w0 = (Ok fs, w1) ->
        exists w2,
          syncPackageVersionFiles env pkgVersion w1 = (Ok fs, w2) /\
          index w2 = index w1 /\ blobs w2 = blobs w1).
Proof.
  split; [|split].
  - intros path localFile w w' r f Hix H.
    pose proof (save_run _ _ _ _ _ _ _ _ H) as R.
    split; [|split; [|split]].
    + apply (save_no_write env pkg pkgVersion path localFile w w' r); congruence.
    + apply (save_no_write env pkg pkgVersion path localFile w w' r); congruence.
    + inversion R; subst; try congruence;
        match goal with
        | U : updated _ _ _ _ _ |- _ => destruct U as (Ht & _)
        end;
        rewrite (newEvents_app _ _ _ Ht); eauto.
    + intros F. rewrite (save_found env pkg pkgVersion path localFile w f F Hix) in H.
      now injection H as <- _.
  - intros w r w' Hall H. now apply (sync_no_write env pkgVersion w w' r).
  - intros Hnf w0 w1 fs H. now apply (resync env pkgVersion Hnf w0 w1 fs).
Qed.

Lemma materialization_idempotent_witness :
  let env := Demo.env Demo.tgz_basic Demo.noFault in
  let run1 := syncPackageVersionFiles env Demo.foo_1_0_0 Demo.w0 in
  let run2 := syncPackageVersionFiles env Demo.foo_1_0_0 (snd run1) in
  NoFault env
  /\ fst run2 = fst run1
  /\ List.length (blobs (snd run1)) = 2%nat
  /\ blobs (snd run2) = blobs (snd run1).
Proof.
  intros env run1 run2.
  assert (Hnf : NoFault env) by (intros c w0; reflexivity).
  split; [exact Hnf|].
  destruct (materialization_idempotent env Demo.foo Demo.foo_1_0_0) as (_ & _ & Hsync).
  destruct (Hsync Hnf Demo.w0 (snd run1)
              (match fst run1 with Ok fs => fs | Throw _ => [] end))
    as (w2 & E & _ & Hb).
  { vm_compute. reflexivity. }
  fold run2 in E.
  split; [rewrite E; vm_compute; reflexivity|].
  split; [reflexivity|].
  rewrite E. exact Hb.
Defined.

Lemma indexed_has_files (pkgVersion : PackageVersion) (path : jsstring)
  (ix : list PackageVersionFile) (f : PackageVersionFile) :
  indexed pkgVersion path ix = Some f ->
  existsb (fun g => eqb (filePackageVersionId g) (packageVersionId pkgVersion)) ix = true.
Proof.
  intros H. apply find_some in H as [Hin Hk].
  apply existsb_exists. exists f. split; [exact Hin|].
  unfold sameFile in Hk. apply andb_true_iff in Hk as [Hk _].
  now apply andb_true_iff in Hk as [Hk _].
Qed.

Lemma try_run_downloads (env : Env) (pkgVersion : PackageVersion)
  (tmpdir tarFile : jsstring) (r : Outcome (list PackageVersionFile))
  (body : list Event) :
  TryRun env pkgVersion tmpdir tarFile r body ->
  countCalls isDownloadCall body = 1%nat /\
  countCalls isHasFilesCall body = 0%nat.
Proof.
  intros H.
  inversion H as [e F | e F | e mat fs Hc Hmat | mat fs Hc Hmat Hk Hr
                 | mat fs Hc Hmat Hk Hr | mat fs e Hc Hmat Hk Hr]; subst;
    try (split; reflexivity);
    rewrite !countCalls_app, (save_events_no_download mat Hmat),
      (save_events_no_hasFiles mat Hmat);
    split; reflexivity.
Qed.

Lemma cleanup_no_download (env : Env) (tmpdir tarFile : jsstring)
  (d d' : list (jsstring * Node)) (cleanup : list Event) :
  CleanupRun env tmpdir tarFile d cleanup d' ->
  countCalls isDownloadCall cleanup = 0%nat /\
  countCalls isHasFilesCall cleanup = 0%nat.
Proof. intros H; inversion H; subst; split; reflexivity. Qed.

(** C10. The has-files short-circuit belongs to the lazy trigger alone.
    [listPackageVersionFiles] and [showPackageVersionFile] run the
    trigger first, and the trigger calls [syncPackageVersionFiles] only
    when the index has no entry for the version.  A direct call never
    consults the index for that: every run that created its temporary
    directory makes the download call, whatever the index holds.  On a
    world in which every manifest path is indexed it changes neither
    index nor blob store.  In particular, in a fault-free run on the
    world a previous run left, it downloads the tarball and extracts it
    again and returns the same entries, while on that very world the
    trigger does nothing when there are entries. *)
Theorem resync_repeats_download (env : Env) (pkgVersion : PackageVersion) :
  let vid := packageVersionId pkgVersion in
  let hasFiles := fun w =>
    existsb (fun f => eqb (filePackageVersionId f) vid) (index w) in
  (forall w,
      fault env (ChasPackageVersionFiles vid) w = None ->
      ensurePackageVersionFilesSync env pkgVersion w
      = if hasFiles w then (Ok tt, emit (ChasPackageVersionFiles vid, None) w)
        else bind (syncPackageVersionFiles env pkgVersion) (fun _ => ret tt)
               (emit (ChasPackageVersionFiles vid, None) w))
  /\ (forall dir,
         listPackageVersionFiles env pkgVersion dir
         = bind (ensurePackageVersionFilesSync env pkgVersion)
             (fun _ => listPackageVersionFilesRepo env vid dir))
  /\ (forall path,
         showPackageVersionFile env pkgVersion path
         = bind (ensurePackageVersionFilesSync env pkgVersion)
             (fun _ => findPackageVersionFile env vid (Path.dirname path)
                         (Path.basename path)))
  /\ (forall w r w',
         syncPackageVersionFiles env pkgVersion w = (r, w') ->
         countCalls isHasFilesCall (newEvents w w') = 0%nat
         /\ (forall base hint,
                In (CcreateTempDir base hint, None) (newEvents w w') ->
                countCalls isDownloadCall (newEvents w w') = 1%nat)
         /\ (allIndexed pkgVersion
               (manifestOf (members (tarball env (tarDist pkgVersion)))) (index w) ->
             index w' = index w /\ blobs w' = blobs w))
  /\ (NoFault env ->
      forall pkg w0 w1 fs,
        findPackage pkgVersion w0 = Some pkg ->
        syncPackageVersionFiles env pkgVersion w0 = (Ok fs, w1) ->
        (fs <> [] ->
         ensurePackageVersionFilesSync env pkgVersion w1
         = (Ok tt, emit (ChasPackageVersionFiles vid, None) w1))
        /\ exists w2,
             syncPackageVersionFiles env pkgVersion w1 = (Ok fs, w2)
             /\ index w2 = index w1 /\ blobs w2 = blobs w1
             /\ In (CdownloadDistToFile (tarDist pkgVersion)
                      (syncTempDir env pkg pkgVersion w1 ++ lit ".tgz"), None)
                  (newEvents w1 w2)
             /\ exists o,
                  In (Ctar_extract (syncTempDir env pkg pkgVersion w1 ++ lit ".tgz")
                        (syncTempDir env pkg pkgVersion w1), o)
                    (newEvents w1 w2)).
Proof.
  intros vid hasFiles.
  assert (Hens : forall w,
      fault env (ChasPackageVersionFiles vid) w = None ->
      ensurePackageVersionFilesSync env pkgVersion w
      = if hasFiles w then (Ok tt, emit (ChasPackageVersionFiles vid, None) w)
        else bind (syncPackageVersionFiles env pkgVersion) (fun _ => ret tt)
               (emit (ChasPackageVersionFiles vid, None) w)).
  { intros w F. unfold ensurePackageVersionFilesSync.
    unfold bind at 1. unfold hasPackageVersionFiles, invoke.
    fold vid. rewrite F. fold (hasFiles w). now destruct (hasFiles w). }
  split; [exact Hens|]. split; [reflexivity|]. split; [reflexivity|]. split.
  - intros w r w' H.
    pose proof (sync_run _ _ _ _ _ H) as R.
    split; [|split].
    + inversion R as [e0 w0 F Ht Hi Hb | Hnone | pkg0 e0 w0 Hf F Ht Hi Hb
                     | pkg r0 body cleanup d1 w0 Hf F1 F2 Htry Hcl Ht Hw]; subst.
      * now rewrite (newEvents_app _ _ _ Ht).
      * now rewrite (newEvents_app w _
                       [(CfindPackageByPackageId (packageId pkgVersion), None)])
          by reflexivity.
      * now rewrite (newEvents_app _ _ _ Ht).
      * rewrite (newEvents_app _ _ _ Ht), !countCalls_app.
        rewrite (proj2 (try_run_downloads _ _ _ _ _ _ Htry)).
        now rewrite (proj2 (cleanup_no_download _ _ _ _ _ _ Hcl)).
    + intros base hint Hin.
      inversion R as [e0 w0 F Ht Hi Hb | Hnone | pkg0 e0 w0 Hf F Ht Hi Hb
                     | pkg r0 body cleanup d1 w0 Hf F1 F2 Htry Hcl Ht Hw]; subst.
      * rewrite (newEvents_app _ _ _ Ht) in Hin. in_cases Hin.
      * rewrite (newEvents_app w _
                   [(CfindPackageByPackageId (packageId pkgVersion), None)])
          in Hin by reflexivity.
        in_cases Hin.
      * rewrite (newEvents_app _ _ _ Ht) in Hin. in_cases Hin.
      * rewrite (newEvents_app _ _ _ Ht), !countCalls_app.
        rewrite (proj1 (try_run_downloads _ _ _ _ _ _ Htry)).
        now rewrite (proj1 (cleanup_no_download _ _ _ _ _ _ Hcl)).
    + intros Hall. now apply (sync_no_write env pkgVersion w w' r).
  - intros Hnf pkg w0 w1 fs Hfind H. split.
    + intros Hne. rewrite Hens by apply Hnf.
      destruct (rejection (tarball env (tarDist pkgVersion))) as [e|] eqn:Hrej.
      * destruct (sync_nofault_rejected env pkgVersion Hnf w0 pkg e Hfind Hrej)
          as (w1' & E & _).
        rewrite E in H. injection H as Hfs _. apply caught_Ok in Hfs.
        contradiction.
      * apply corrupt_accepted in Hrej. rename Hrej into Hc.
        pose proof (sync_ok_indexed env Hnf pkgVersion w0 w1 pkg fs Hfind Hc H) as Hall.
        inversion Hall as [|p f ps fs' Hp _]; subst; [contradiction|].
        unfold hasFiles, vid. now rewrite (indexed_has_files _ _ _ _ Hp).
    + destruct (resync env pkgVersion Hnf w0 w1 fs H) as (w2 & E & Hi & Hb).
      exists w2. split; [exact E|]. split; [exact Hi|]. split; [exact Hb|].
      assert (Hfind1 : findPackage pkgVersion w1 = Some pkg)
        by (rewrite (sync_nofault_packages env Hnf pkgVersion w0 w1 _ H); exact Hfind).
      pose proof (sync_run _ _ _ _ _ E) as R.
      inversion R as [e0 w3 F Ht | Hnone | pkg0 e0 w3 Hf F Ht
                     | pkg0 r0 body cleanup d1 w3 Hf F1 F2 Htry Hcl Ht]; subst;
        try congruence;
        try (destruct F as [w4 F]; rewrite Hnf in F; discriminate).
      assert (pkg0 = pkg) by congruence. subst pkg0.
      rewrite (newEvents_app _ _ _ Ht).
      inversion Htry as [e F | e F | e mat fs' Hc Hmat | mat fs' Hc Hmat Hk Hr
                        | mat fs' Hc Hmat Hk Hr | mat fs' e Hc Hmat Hk Hr]; subst;
        try (destruct F as [w4 F]; rewrite Hnf in F; discriminate);
        (split; [simpl; auto 8 | eexists; simpl; auto 8]).
Qed.

Lemma resync_repeats_download_witness :
  let env := Demo.env Demo.tgz_basic Demo.noFault in
  let run1 := syncPackageVersionFiles env Demo.foo_1_0_0 Demo.w0 in
  let run2 := syncPackageVersionFiles env Demo.foo_1_0_0 (snd run1) in
  NoFault env
  /\ findPackage Demo.foo_1_0_0 Demo.w0 = Some Demo.foo
  /\ ensurePackageVersionFilesSync env Demo.foo_1_0_0 (snd run1)
     = (Ok tt, emit (ChasPackageVersionFiles (lit "ver-1"), None) (snd run1))
  /\ countCalls isDownloadCall (newEvents (snd run1) (snd run2)) = 1%nat
  /\ blobs (snd run2) = blobs (snd run1).
Proof.
  intros env run1 run2.
  assert (Hnf : NoFault env) by (intros c w0; reflexivity).
  split; [exact Hnf|]. split; [reflexivity|].
  destruct (resync_repeats_download env Demo.foo_1_0_0) as (_ & _ & _ & _ & Hdirect).
  destruct (Hdirect Hnf Demo.foo Demo.w0 (snd run1)
              (match fst run1 with Ok fs => fs | Throw _ => [] end) eq_refl)
    as (Hlazy & w2 & E & _ & Hb & _).
  { vm_compute. reflexivity. }
  fold run2 in E.
  split; [apply Hlazy; vm_compute; discriminate|].
  split; [vm_compute; reflexivity|].
  rewrite E. exact Hb.
Defined.

(* ================================================================== *)
(** ** Further properties of the code *)

(** *** Strings, names and paths *)

Section EncodeMore.

Lemma encodeURI_unescaped (s : jsstring) :
  forallb unescapedURISet s = true -> encodeURI s = Some s.
Proof.
  induction s as [|c s IH]; [reflexivity|].
  simpl forallb. intros H. apply andb_true_iff in H as [Hc Hs].
  rewrite encodeURI_cons, Hc, (IH Hs). reflexivity.
Qed.

Lemma percentAll_length (os : list N) :
  List.length (percentAll os) = (3 * List.length os)%nat.
Proof.
  induction os as [|o os IH]; [reflexivity|].
  unfold percentAll in *.
  change (flat_map percent (o :: os)) with (percent o ++ flat_map percent os).
  rewrite length_app, IH. simpl. lia.
Qed.

Lemma utf8_nonempty (cp : N) : (1 <= List.length (utf8 cp))%nat.
Proof.
  unfold utf8.
  destruct (cp <? 0x80); [simpl; lia|].
  destruct (cp <? 0x800); [simpl; lia|].
  destruct (cp <? 0x10000); simpl; lia.
Qed.

Lemma escape_length (cp : N) : (3 <= List.length (percentAll (utf8 cp)))%nat.
Proof. rewrite percentAll_length. pose proof (utf8_nonempty cp). lia. Qed.

(** [encodeURI] never shortens. *)
Lemma encodeURI_length (s : jsstring) :
  forall r, encodeURI s = Some r -> (List.length s <= List.length r)%nat.
Proof.
  induction s as [|c|c c2 s IHs IHc] using jsstring_ind2; intros r H.
  - inversion H. simpl. lia.
  - rewrite encodeURI_cons in H.
    destruct (unescapedURISet c); [inversion H; simpl; lia|].
    destruct (isTrailingSurrogate c); [discriminate|].
    destruct (isLeadingSurrogate c); [discriminate|].
    inversion H; subst. rewrite length_app.
    pose proof (escape_length c). simpl. lia.
  - rewrite encodeURI_cons in H.
    destruct (unescapedURISet c).
    + apply option_map_Some in H as (x & Hx & ->).
      apply IHc in Hx. simpl in *. lia.
    + destruct (isTrailingSurrogate c); [discriminate|].
      destruct (isLeadingSurrogate c).
      * destruct (isTrailingSurrogate c2); [|discriminate].
        apply option_map_Some in H as (x & Hx & ->).
        apply IHs in Hx. rewrite length_app.
        pose proof (escape_length (UTF16SurrogatePairToCodePoint c c2)).
        simpl. lia.
      * apply option_map_Some in H as (x & Hx & ->).
        apply IHc in Hx. rewrite length_app.
        pose proof (escape_length c). simpl in *. lia.
Qed.

(** Only strings of unescaped characters are their own encoding. *)
Lemma encodeURI_fixed (s : jsstring) :
  encodeURI s = Some s -> forallb unescapedURISet s = true.
Proof.
  induction s as [|c s IH]; intros H; [reflexivity|].
  rewrite encodeURI_cons in H. simpl forallb.
  destruct (unescapedURISet c) eqn:Hu.
  - apply option_map_Some in H as (x & Hx & E). injection E as <-.
    now rewrite (IH Hx).
  - exfalso.
    destruct (isTrailingSurrogate c); [discriminate|].
    destruct (isLeadingSurrogate c).
    + destruct s as [|c2 s']; [discriminate|].
      destruct (isTrailingSurrogate c2); [|discriminate].
      apply option_map_Some in H as (x & Hx & E).
      apply encodeURI_length in Hx.
      apply (f_equal (@List.length N)) in E. rewrite length_app in E.
      pose proof (escape_length (UTF16SurrogatePairToCodePoint c c2)).
      simpl in E. lia.
    + apply option_map_Some in H as (x & Hx & E).
      apply encodeURI_length in Hx.
      apply (f_equal (@List.length N)) in E. rewrite length_app in E.
      pose proof (escape_length c). simpl in E. lia.
Qed.

(** A code unit that is escaped on its own comes out as its escape,
    between the encodings of what precedes and what follows it. *)
Lemma encodeURI_escaped_unit (c0 : N) :
  unescapedURISet c0 = false ->
  isTrailingSurrogate c0 = false -> isLeadingSurrogate c0 = false ->
  forall (a b r : jsstring),
    encodeURI (a ++ c0 :: b) = Some r ->
    exists ra rb,
      encodeURI a = Some ra /\ encodeURI b = Some rb /\
      r = ra ++ percentAll (utf8 c0) ++ rb.
Proof.
  intros Hu Ht Hl.
  assert (Hhead : forall b, encodeURI (c0 :: b)
                            = option_map (app (percentAll (utf8 c0))) (encodeURI b)).
  { intros b. rewrite encodeURI_cons, Hu, Ht, Hl. reflexivity. }
  intros a.
  induction a as [|c|c c2 s IHs IHc] using jsstring_ind2; intros b r H.
  - simpl app in H. rewrite Hhead in H.
    apply option_map_Some in H as (rb & Hb & ->).
    exists [], rb. auto.
  - change ([c] ++ c0 :: b) with (c :: c0 :: b) in H.
    rewrite encodeURI_cons in H. rewrite encodeURI_cons.
    destruct (unescapedURISet c).
    + apply option_map_Some in H as (x & Hx & ->).
      rewrite Hhead in Hx.
      apply option_map_Some in Hx as (rb & Hb & ->).
      exists [c], rb. auto.
    + destruct (isTrailingSurrogate c); [discriminate|].
      destruct (isLeadingSurrogate c); [rewrite Ht in H; discriminate|].
      apply option_map_Some in H as (x & Hx & ->).
      rewrite Hhead in Hx.
      apply option_map_Some in Hx as (rb & Hb & ->).
      exists (percentAll (utf8 c)), rb. simpl encodeURI. unfold option_map.
      rewrite app_nil_r. auto.
  - change ((c :: c2 :: s) ++ c0 :: b) with (c :: (c2 :: s) ++ c0 :: b) in H.
    rewrite encodeURI_cons in H. rewrite (encodeURI_cons c (c2 :: s)).
    destruct (unescapedURISet c).
    + apply option_map_Some in H as (x & Hx & ->).
      apply IHc in Hx as (ra & rb & Ha & Hb & ->).
      rewrite Ha. exists (c :: ra), rb. auto.
    + destruct (isTrailingSurrogate c); [discriminate|].
      destruct (isLeadingSurrogate c).
      * change ((c2 :: s) ++ c0 :: b) with (c2 :: s ++ c0 :: b) in H.
        cbn iota in H.
        destruct (isTrailingSurrogate c2); [|discriminate].
        apply option_map_Some in H as (x & Hx & ->).
        apply IHs in Hx as (ra & rb & Ha & Hb & ->).
        rewrite Ha. eexists _, rb. split; [reflexivity|]. split; [exact Hb|].
        now rewrite app_assoc.
      * apply option_map_Some in H as (x & Hx & ->).
        apply IHc in Hx as (ra & rb & Ha & Hb & ->).
        rewrite Ha. eexists _, rb. split; [reflexivity|]. split; [exact Hb|].
        now rewrite app_assoc.
Qed.

End EncodeMore.

(** What [#savePackageVersionFile] returns for a path that was not
    indexed is the entry it built, keyed by the encoding of the path. *)
Lemma save_created (env : Env) (pkg : Package) (pkgVersion : PackageVersion)
  (path localFile : jsstring) (w w' : World) (f : PackageVersionFile) :
  indexed pkgVersion path (index w) = None ->
  savePackageVersionFile env pkg pkgVersion path localFile w = (Ok f, w') ->
  exists dp, encodeURI path = Some dp /\
             f = newFile env pkg pkgVersion path localFile dp /\
             blobs w' = blobs w ++ [(newDist env pkg pkgVersion localFile dp, localFile)].
Proof.
  intros Hix H. apply save_run in H.
  inversion H as [ | f0 w0 Hix0 | | | | | dp e w0 Hix0 Henc F U
                 | dp w0 Hix0 Henc U]; subst; try congruence.
  - match goal with E : caughtDup _ _ = Ok _ |- _ => apply caughtDup_Ok in E end.
    destruct U as (_ & _ & Hb & _). eauto.
  - destruct U as (_ & _ & Hb & _). eauto.
Qed.

Section ReplaceFacts.

Lemma noSlash_countSlash (s : jsstring) :
  noSlash s = true <-> countSlash s = 0%nat.
Proof.
  unfold noSlash, countSlash.
  induction s as [|c s IH]; simpl; [tauto|].
  destruct (c =? CHAR_FORWARD_SLASH); simpl; [split; [discriminate | lia]|].
  exact IH.
Qed.

Lemma noSlash_app (a b : jsstring) :
  noSlash (a ++ b) = noSlash a && noSlash b.
Proof. apply forallb_app. Qed.

(** [replace] rewrites the first occurrence only. *)
Lemma replace_first (by_ a b : jsstring) :
  noSlash a = true ->
  replace CHAR_FORWARD_SLASH by_ (a ++ CHAR_FORWARD_SLASH :: b) = a ++ by_ ++ b.
Proof.
  induction a as [|c a IH]; intros H; [reflexivity|].
  simpl in H. apply andb_true_iff in H as [Hc Ha].
  apply negb_true_iff in Hc. simpl. now rewrite Hc, (IH Ha).
Qed.

Lemma replace_absent (by_ s : jsstring) :
  noSlash s = true -> replace CHAR_FORWARD_SLASH by_ s = s.
Proof.
  induction s as [|c s IH]; intros H; [reflexivity|].
  simpl in H. apply andb_true_iff in H as [Hc Hs].
  apply negb_true_iff in Hc. simpl. now rewrite Hc, (IH Hs).
Qed.

Lemma replace_noSlash (s : jsstring) :
  noSlash (replace CHAR_FORWARD_SLASH (lit "_") s) = true
  <-> (countSlash s <= 1)%nat.
Proof.
  induction s as [|c s IH]; [simpl; split; [unfold countSlash; simpl; lia | reflexivity]|].
  simpl replace. unfold countSlash in *. simpl filter.
  destruct (c =? CHAR_FORWARD_SLASH) eqn:E.
  - change (lit "_" ++ s) with (95 :: s).
    change (noSlash (95 :: s)) with (noSlash s).
    rewrite noSlash_countSlash. unfold countSlash. simpl. lia.
  - unfold noSlash in *. simpl forallb. rewrite E. exact IH.
Qed.

End ReplaceFacts.

(** X1. The name of the temporary directory.  Only the first [/] of the
    package name is replaced: for a scoped name [a/b] the directory is
    named [unpkg_a_b@version_uuid], for a name without [/] it is named
    [unpkg_name@version_uuid]; and when version and uuid have no [/], the
    name is a single path component exactly when the package name has at
    most one [/]. *)
Theorem temp_dir_name_component (pkg : Package) (pkgVersion : PackageVersion)
  (uuid : jsstring) :
  (forall a b, fullname pkg = a ++ lit "/" ++ b -> noSlash a = true ->
     tempDirName pkg pkgVersion uuid
     = lit "unpkg_" ++ a ++ lit "_" ++ b ++ lit "@" ++ version pkgVersion
       ++ lit "_" ++ uuid)
  /\ (noSlash (fullname pkg) = true ->
      tempDirName pkg pkgVersion uuid
      = lit "unpkg_" ++ fullname pkg ++ lit "@" ++ version pkgVersion
        ++ lit "_" ++ uuid)
  /\ (noSlash (version pkgVersion) = true -> noSlash uuid = true ->
      (noSlash (tempDirName pkg pkgVersion uuid) = true
       <-> (countSlash (fullname pkg) <= 1)%nat)).
Proof.
  unfold tempDirName. repeat split.
  - intros a b E Ha. rewrite E.
    change (a ++ lit "/" ++ b) with (a ++ CHAR_FORWARD_SLASH :: b).
    rewrite (replace_first _ a b Ha). now rewrite <- !app_assoc.
  - intros H. now rewrite (replace_absent _ _ H).
  - rewrite !noSlash_app, H, H0. simpl. rewrite !andb_true_r.
    apply replace_noSlash.
  - intros Hc. rewrite !noSlash_app, H, H0. simpl. rewrite !andb_true_r.
    now apply replace_noSlash.
Qed.

Lemma temp_dir_name_component_witness :
  tempDirName Demo.foo Demo.foo_1_0_0 (lit "u1") = lit "unpkg_@scope_foo@1.0.0_u1"
  /\ noSlash (tempDirName Demo.foo Demo.foo_1_0_0 (lit "u1")) = true.
Proof.
  destruct (temp_dir_name_component Demo.foo Demo.foo_1_0_0 (lit "u1"))
    as (Hscoped & _ & Hone).
  split.
  - apply (Hscoped (lit "@scope") (lit "foo")); reflexivity.
  - apply Hone; [reflexivity | reflexivity | vm_compute; lia].
Defined.

Section MemberFacts.

Lemma noSlash_not_hidden (s : jsstring) :
  noSlash s = true -> includes s (lit "/./") = false.
Proof.
  induction s as [|c s IH]; intros H; [reflexivity|].
  simpl in H. apply andb_true_iff in H as [Hc Hs].
  apply negb_true_iff in Hc.
  simpl includes. unfold CHAR_FORWARD_SLASH in Hc. rewrite Hc. simpl.
  now apply IH.
Qed.

Lemma isReadmeName_cases (n : jsstring) :
  isReadmeName n = true ->
  n = lit "README.md" \/ n = lit "readme.md" \/ n = lit "Readme.md".
Proof.
  unfold isReadmeName. rewrite !orb_true_iff, !jseqb_eq. tauto.
Qed.

Lemma readmeOf_found (ms : list TarEntry) :
  readmeOf ms <> [] ->
  isReadmeName (readmeOf ms) = true /\
  In (readmeOf ms)
     (map (fun e => stripFirstSegment (entryPath e)) (filter retained ms)).
Proof.
  unfold readmeOf.
  destruct (find isReadmeName _) as [n|] eqn:E; [|contradiction].
  intros _. apply find_some in E. tauto.
Qed.

End MemberFacts.

(** X2. Members outside a directory.  A regular file whose member name
    has no [/] is recorded under the path [/]: its directory is [/] and
    its name is empty, and it is never taken for the README, whatever it
    is called.  For an archive all of whose members are such, every
    manifest path is [/] and there is no README member. *)
Theorem top_level_member (e : TarEntry) (fr : Frame) :
  isFileEntry e = true -> noSlash (entryPath e) = true ->
  onentry e fr
  = mkFrame (world fr) (files fr) (paths fr ++ [lit "/"]) (readmeFilename fr)
  /\ getDirectoryAndName (lit "/" ++ stripFirstSegment (entryPath e)) = (lit "/", [])
  /\ (forall ms,
        Forall (fun m => noSlash (entryPath m) = true) ms ->
        manifestOf ms = map (fun _ => lit "/") (filter retained ms)
        /\ readmeOf ms = []).
Proof.
  intros Hf Hs. split; [|split].
  - unfold onentry. unfold isFileEntry in Hf. rewrite Hf.
    rewrite (noSlash_not_hidden _ Hs), (stripFirstSegment_single _ Hs).
    simpl. now destruct (readmeFilename fr).
  - now rewrite (stripFirstSegment_single _ Hs).
  - intros ms Hall.
    induction Hall as [|m ms Hm _ [IH1 IH2]]; [split; reflexivity|].
    rewrite manifestOf_cons, readmeOf_cons, (stripFirstSegment_single _ Hm).
    simpl filter. destruct (retained m); simpl; [|split; assumption].
    rewrite IH1. split; [reflexivity | exact IH2].
Qed.

Lemma top_level_member_witness :
  onentry (Demo.file "README.md") (mkFrame Demo.w0 [] [] [])
  = mkFrame Demo.w0 [] [lit "/"] [].
Proof.
  apply (top_level_member (Demo.file "README.md") (mkFrame Demo.w0 [] [] []));
    reflexivity.
Defined.

Lemma map_eq_In {A B C} (f : A -> C) (g : B -> C) (l : list A) (l' : list B) (b : B) :
  map f l = map g l' -> In b l' -> exists a, In a l /\ f a = g b.
Proof.
  revert l'. induction l as [|x l IH]; intros [|y l'] H Hin;
    try discriminate; [contradiction|].
  simpl in H. injection H as Hxy Hl.
  destruct Hin as [<-|Hin].
  - exists x. split; [now left | exact Hxy].
  - destruct (IH l' Hl Hin) as (a & Ha & E). exists a. split; [now right | exact E].
Qed.

(** X3. The README that is handed over is a root file the run has
    materialized.  In every run, a hand-over to the README store is made
    for the name the [onentry] callbacks left in [readmeFilename], one of
    [README.md], [readme.md] and [Readme.md], as a file of the temporary
    directory.  [onentry] has recorded the path [/name] for the loop, and
    the loop has collected one entry per recorded path, among them an
    entry with directory [/] and that name.  The hand-over decides the
    outcome of the run: when it succeeds these entries are returned; when
    it fails with [e] the [catch] block decides by the code of [e],
    although every entry has been collected. *)
Theorem readme_handed_over_is_root_file (env : Env) (pkgVersion : PackageVersion)
  (w w' : World) (r : Outcome (list PackageVersionFile))
  (vid file : jsstring) (res : option JsError) :
  syncPackageVersionFiles env pkgVersion w = (r, w') ->
  In (CsavePackageVersionReadme vid file, res) (newEvents w w') ->
  let fr := fold_left (fun f e => onentry e f)
              (members (tarball env (tarDist pkgVersion))) (mkFrame w [] [] []) in
  exists pkg fs f,
    findPackage pkgVersion w = Some pkg /\
    isReadmeName (readmeFilename fr) = true /\
    file = join env (syncTempDir env pkg pkgVersion w) (readmeFilename fr) /\
    In (lit "/" ++ readmeFilename fr) (paths fr) /\
    map fileKey fs = map (pathKey pkgVersion) (paths fr) /\
    In f fs /\
    fileKey f = (packageVersionId pkgVersion, lit "/", readmeFilename fr) /\
    r = match res with
        | None => Ok fs
        | Some e => caught e fs
        end.
Proof.
  intros H Hin fr. unfold fr. rewrite onentry_fold.
  cbn [paths readmeFilename files world falsy app].
  set (ms := members (tarball env (tarDist pkgVersion))).
  assert (Hroot : readmeOf ms <> [] ->
                  isReadmeName (readmeOf ms) = true /\
                  In (lit "/" ++ readmeOf ms) (manifestOf ms) /\
                  pathKey pkgVersion (lit "/" ++ readmeOf ms)
                  = (packageVersionId pkgVersion, lit "/", readmeOf ms)).
  { intros Hne. destruct (readmeOf_found ms Hne) as [Hn Hfound].
    split; [exact Hn|]. split.
    - unfold manifestOf. apply in_map_iff in Hfound as (m & Hm & Hfound).
      apply in_map_iff. exists m. now rewrite Hm.
    - unfold pathKey.
      destruct (isReadmeName_cases _ Hn) as [-> | [-> | ->]]; reflexivity. }
  pose proof (sync_run _ _ _ _ _ H) as R.
  inversion R as [e0 w0 F Ht | Hnone | pkg0 e0 w0 Hf F Ht
                 | pkg r0 body cleanup d1 w0 Hf F1 F2 Htry Hcl Ht]; subst.
  - rewrite (newEvents_app _ _ _ Ht) in Hin. in_cases Hin.
  - rewrite (newEvents_app w _ [(CfindPackageByPackageId (packageId pkgVersion), None)])
      in Hin by reflexivity.
    in_cases Hin.
  - rewrite (newEvents_app _ _ _ Ht) in Hin. in_cases Hin.
  - rewrite (newEvents_app _ _ _ Ht) in Hin.
    apply in_app_or in Hin as [Hin|Hin]; [in_cases Hin|].
    apply in_app_or in Hin as [Hin|Hin]; [|inversion Hcl; subst; in_cases Hin].
    inversion Htry as [e F | e F | e mat fs Hc Hmat | mat fs Hc Hmat Hk Hr
                      | mat fs Hc Hmat Hk Hr | mat fs e Hc Hmat Hk Hr]; subst;
      in_cases Hin; try not_save_event Hin;
      injection Hin as <- <- <-;
      fold ms in Hk, Hr;
      destruct (Hroot Hr) as (Hn & Hpath & Hkey);
      destruct (map_eq_In _ _ _ _ _ Hk Hpath) as (f & Hf1 & Hf2);
      exists pkg, fs, f; rewrite Hf2, Hkey; repeat split; auto.
Qed.

Lemma readme_handed_over_is_root_file_witness :
  let run := syncPackageVersionFiles (Demo.env Demo.tgz_readmes Demo.noFault)
               Demo.foo_1_0_0 Demo.w0 in
  exists fs f,
    fst run = Ok fs /\ In f fs /\
    fileKey f = (lit "ver-1", lit "/", lit "readme.md").
Proof.
  intros run.
  destruct (readme_handed_over_is_root_file
              (Demo.env Demo.tgz_readmes Demo.noFault) Demo.foo_1_0_0
              Demo.w0 (snd run) (fst run)
              (lit "ver-1") (lit "/data/unpkg_@scope_foo@1.0.0_u1/readme.md") None
              (surjective_pairing run))
    as (pkg & fs & f & _ & _ & _ & _ & _ & Hin & Hkey & Hr).
  { vm_compute. tauto. }
  exists fs, f. split; [exact Hr|]. split; [exact Hin | exact Hkey].
Defined.

Section ScanFacts.

Variable path : jsstring.

(** Once the end of the name is known, the scan of [basename] stops at
    the nearest [/] to the left; no [/] lies between. *)
Lemma basename_scan_found (n e : nat) :
  exists start,
    Path.basename_scan path n (Some e) false = (start, Some e) /\
    (start <= n)%nat /\
    forall j, (start <= j < n)%nat ->
              (charCodeAt path j =? CHAR_FORWARD_SLASH) = false.
Proof.
  induction n as [|i IH].
  - exists O. repeat split; [lia | intros j Hj; lia].
  - simpl Path.basename_scan.
    destruct (charCodeAt path i =? CHAR_FORWARD_SLASH) eqn:E.
    + exists (S i). repeat split; [lia | intros j Hj; lia].
    + destruct IH as (start & Hs & Hle & Hno).
      exists start. repeat split; [exact Hs | lia |].
      intros j Hj. destruct (Nat.eq_dec j i) as [->|Hne]; [exact E|].
      apply Hno. lia.
Qed.

Lemma basename_scan_range (n : nat) :
  match Path.basename_scan path n None true with
  | (_, None) => True
  | (start, Some e) =>
      (start <= e <= n)%nat /\
      forall j, (start <= j < e)%nat ->
                (charCodeAt path j =? CHAR_FORWARD_SLASH) = false
  end.
Proof.
  induction n as [|i IH]; [exact I|].
  simpl Path.basename_scan.
  destruct (charCodeAt path i =? CHAR_FORWARD_SLASH) eqn:E.
  - simpl negb. cbn iota.
    destruct (Path.basename_scan path i None true) as [start [e|]]; [|exact I].
    destruct IH as [Hle Hno]. split; [lia | exact Hno].
  - destruct (basename_scan_found i (S i)) as (start & Hs & Hle & Hno).
    rewrite Hs. split; [lia|].
    intros j Hj. destruct (Nat.eq_dec j i) as [->|Hne]; [exact E|].
    apply Hno. lia.
Qed.

(** The scan of [dirname] never stops at index 0. *)
Lemma dirname_scan_positive (i : nat) (matchedSlash : bool) (e : nat) :
  Path.dirname_scan path i matchedSlash = Some e -> (1 <= e <= i)%nat.
Proof.
  revert matchedSlash; induction i as [|i IH]; intros m H; [discriminate|].
  simpl in H.
  destruct (charCodeAt path (S i) =? CHAR_FORWARD_SLASH).
  - destruct (negb m).
    + injection H as <-. lia.
    + apply IH in H. lia.
  - apply IH in H. lia.
Qed.

End ScanFacts.

Lemma firstn_forallb (P : N -> bool) (e : nat) :
  forall l, (forall j, (j < e)%nat -> P (nth j l 0) = true) ->
            (e <= List.length l)%nat ->
            forallb P (firstn e l) = true.
Proof.
  induction e as [|e IH]; intros l H Hlen; [reflexivity|].
  destruct l as [|c l]; [simpl in Hlen; lia|].
  simpl firstn. simpl forallb.
  pose proof (H O ltac:(lia)) as H0. simpl in H0. rewrite H0. simpl.
  apply IH; [|simpl in Hlen; lia].
  intros j Hj. apply (H (S j)). lia.
Qed.

Lemma slice_forallb (P : N -> bool) (start : nat) :
  forall l e, (forall j, (start <= j < e)%nat -> P (nth j l 0) = true) ->
              (e <= List.length l)%nat ->
              forallb P (slice l start e) = true.
Proof.
  unfold slice.
  induction start as [|s IH]; intros l e H Hlen.
  - rewrite Nat.sub_0_r. simpl skipn.
    apply firstn_forallb; [|exact Hlen]. intros j Hj. apply H. lia.
  - destruct l as [|c l]; [simpl; now rewrite firstn_nil|].
    simpl skipn. destruct e as [|e]; [reflexivity|].
    simpl Nat.sub. apply IH; [|simpl in Hlen; lia].
    intros j Hj. apply (H (S j)). lia.
Qed.

(** The base name of any path is free of [/]. *)
Lemma basename_noSlash (path : jsstring) :
  noSlash (Path.basename path) = true.
Proof.
  unfold Path.basename.
  pose proof (basename_scan_range path (List.length path)) as H.
  destruct (Path.basename_scan path (List.length path) None true)
    as [start [e|]]; [|reflexivity].
  destruct H as [Hle Hno]. unfold noSlash.
  apply slice_forallb; [|lia].
  intros j Hj. apply negb_true_iff. apply (Hno j Hj).
Qed.

(** The directory of a path that starts with [/] starts with [/]. *)
Lemma dirname_rooted (rest : jsstring) :
  startsWith (Path.dirname (CHAR_FORWARD_SLASH :: rest)) (lit "/") = true.
Proof.
  unfold Path.dirname. simpl Nat.eqb. cbn iota.
  change (charCodeAt (CHAR_FORWARD_SLASH :: rest) 0 =? CHAR_FORWARD_SLASH) with true.
  destruct (Path.dirname_scan _ _ true) as [e|] eqn:E; [|reflexivity].
  apply dirname_scan_positive in E.
  simpl andb. destruct (e =? 1)%nat; [reflexivity|].
  unfold slice. rewrite Nat.sub_0_r. simpl skipn.
  destruct e as [|e]; [lia|]. simpl. now destruct (firstn e rest).
Qed.

(* ================================================================== *)
(** ** Invariants of index and blob store *)

Section WorldInvariant.

Variable env : Env.
Variable pkgVersion : PackageVersion.

(** [R] holds of the paths that are materialized, [I] is a property of
    index and blob store, [P] a property of entries. *)
Variable R : jsstring -> Prop.
Variable I : list PackageVersionFile -> list (Dist * jsstring) -> Prop.
Variable P : PackageVersionFile -> Prop.

(** Storing the blob of a new path keeps [I], adding its entry keeps [I],
    and the entry has [P]. *)
Hypothesis step :
  forall pkg path localFile dp ix bs,
    R path -> encodeURI path = Some dp -> indexed pkgVersion path ix = None ->
    I ix bs ->
    I ix (bs ++ [(newDist env pkg pkgVersion localFile dp, localFile)]) /\
    I (ix ++ [newFile env pkg pkgVersion path localFile dp])
      (bs ++ [(newDist env pkg pkgVersion localFile dp, localFile)]) /\
    P (newFile env pkg pkgVersion path localFile dp).

(** Entries of an index with [I] have [P]. *)
Hypothesis stored : forall ix bs f, I ix bs -> In f ix -> P f.

Lemma save_world_invariant (pkg : Package) (path localFile : jsstring)
  (w w' : World) (r : Outcome PackageVersionFile) :
  R path -> I (index w) (blobs w) ->
  savePackageVersionFile env pkg pkgVersion path localFile w = (r, w') ->
  I (index w') (blobs w') /\ (forall f, r = Ok f -> P f).
Proof.
  intros HR HI H. apply save_run in H.
  inversion H as [e w0 F U | f0 w0 Hix U | e w0 Hix F U | e w0 Hix F U
                 | w0 Hix Henc U | dp e w0 Hix Henc F U
                 | dp e w0 Hix Henc F U | dp w0 Hix Henc U]; subst;
    destruct U as (_ & Hi & Hb & _); rewrite Hi, Hb;
    try (destruct (step pkg path localFile dp _ _ HR Henc Hix HI) as (H1 & H2 & H3)).
  - split; [exact HI | discriminate].
  - split; [exact HI|]. intros f Hf. injection Hf as <-.
    apply find_some in Hix as [Hin _]. exact (stored _ _ _ HI Hin).
  - split; [exact HI | discriminate].
  - split; [exact HI | discriminate].
  - split; [exact HI | discriminate].
  - split; [exact HI | discriminate].
  - split; [exact H1|]. intros f Hf. apply caughtDup_Ok in Hf. now subst f.
  - split; [exact H2|]. intros f Hf. now injection Hf as <-.
Qed.

Lemma materialize_world_invariant (pkg : Package) (tmpdir : jsstring)
  (ps : list jsstring) :
  forall fr r fr',
    Forall R ps -> I (index (world fr)) (blobs (world fr)) ->
    Forall P (files fr) ->
    materialize env pkg pkgVersion tmpdir ps fr = (r, fr') ->
    I (index (world fr')) (blobs (world fr')) /\ Forall P (files fr').
Proof.
  induction ps as [|path rest IH]; intros fr r fr' HR HI HF H.
  - injection H as _ <-. auto.
  - rewrite materialize_cons in H.
    inversion HR as [|p ps' Hp Hrest]; subst.
    destruct (savePackageVersionFile _ _ _ _ _ _) as [[f|e] w1] eqn:Hs;
      apply (save_world_invariant _ _ _ _ _ _ Hp HI) in Hs as [HI1 Hf].
    + apply IH in H; auto. simpl.
      apply Forall_app. split; [exact HF | constructor; auto].
    + injection H as _ <-. auto.
Qed.

Lemma sync_world_invariant (w w' : World)
  (r : Outcome (list PackageVersionFile)) :
  Forall R (manifestOf (members (tarball env (tarDist pkgVersion)))) ->
  I (index w) (blobs w) ->
  syncPackageVersionFiles env pkgVersion w = (r, w') ->
  I (index w') (blobs w') /\ (forall fs, r = Ok fs -> Forall P fs).
Proof.
  intros HR HI H. apply sync_run in H.
  inversion H as [e0 w0 F Ht Hi Hb | Hnone | pkg0 e0 w0 Hf F Ht Hi Hb
                 | pkg r0 body cleanup d1 w0 Hf F1 F2 Htry Hcl Ht Hw]; subst.
  - rewrite Hi, Hb. split; [exact HI | discriminate].
  - split; [exact HI|]. intros fs Hfs. injection Hfs as <-. constructor.
  - rewrite Hi, Hb. split; [exact HI | discriminate].
  - destruct Hw as [(Hi & Hb & Hfs) | (rm & frM & Hm & Hi & Hb & Hfs)].
    + rewrite Hi, Hb. split; [exact HI|].
      intros fs E. rewrite (Hfs fs E). constructor.
    + apply materialize_world_invariant in Hm; [| exact HR | exact HI | constructor].
      destruct Hm as [HI1 HF1]. rewrite Hi, Hb. split; [exact HI1|].
      intros fs E. now rewrite (Hfs fs E).
Qed.

End WorldInvariant.

Lemma manifest_rooted (ms : list TarEntry) :
  Forall (fun p => exists rest, p = CHAR_FORWARD_SLASH :: rest) (manifestOf ms).
Proof.
  unfold manifestOf. apply Forall_forall. intros p Hin.
  apply in_map_iff in Hin as (m & <- & _). eexists. reflexivity.
Qed.

Lemma indexed_none_key (pkgVersion : PackageVersion) (path : jsstring)
  (ix : list PackageVersionFile) :
  indexed pkgVersion path ix = None ->
  ~ In (pathKey pkgVersion path) (map fileKey ix).
Proof.
  intros H Hin. apply in_map_iff in Hin as (f & Hk & Hin).
  apply (find_none _ _ H) in Hin.
  apply sameFile_key in Hk. unfold pathKey in Hk. congruence.
Qed.

(** X4. The unique tuple.  [syncPackageVersionFiles] never adds a second
    entry for a tuple (version, directory, name): when the tuples of the
    index are pairwise distinct before a run, they are so after it,
    whatever fails during the run. *)
Theorem sync_keeps_tuples_unique (env : Env) (pkgVersion : PackageVersion)
  (w w' : World) (r : Outcome (list PackageVersionFile)) :
  NoDup (map fileKey (index w)) ->
  syncPackageVersionFiles env pkgVersion w = (r, w') ->
  NoDup (map fileKey (index w')).
Proof.
  intros Hnd H.
  apply (sync_world_invariant env pkgVersion (fun _ => True)
           (fun ix _ => NoDup (map fileKey ix)) (fun _ => True)) in H.
  - tauto.
  - intros pkg path localFile dp ix bs _ _ Hix Hn.
    split; [exact Hn|]. split; [|exact I].
    rewrite map_app. simpl map.
    apply (NoDup_Add (a := fileKey (newFile env pkg pkgVersion path localFile dp))
             (l := map fileKey ix)).
    + rewrite <- (app_nil_r (map fileKey ix)) at 1. apply Add_app.
    + split; [exact Hn|]. now apply indexed_none_key.
  - auto.
  - apply Forall_forall. auto.
  - exact Hnd.
Qed.

Lemma sync_keeps_tuples_unique_witness :
  NoDup (map fileKey
           (index (snd (syncPackageVersionFiles
                          (Demo.env Demo.tgz_readmes Demo.noFault)
                          Demo.foo_1_0_0 Demo.w0)))).
Proof.
  eapply (sync_keeps_tuples_unique (Demo.env Demo.tgz_readmes Demo.noFault)
            Demo.foo_1_0_0 Demo.w0).
  - constructor.
  - apply surjective_pairing.
Defined.

(** X5. No entry without its blob.  [#savePackageVersionFile] stores the
    blob before it inserts the entry, so [syncPackageVersionFiles] keeps
    the blob store complete for the index: when the blob of every index
    entry is in the blob store before a run, it is so after it, whatever
    fails during the run. *)
Theorem sync_keeps_blobs_complete (env : Env) (pkgVersion : PackageVersion)
  (w w' : World) (r : Outcome (list PackageVersionFile)) :
  Forall (blobStored (blobs w)) (index w) ->
  syncPackageVersionFiles env pkgVersion w = (r, w') ->
  Forall (blobStored (blobs w')) (index w').
Proof.
  intros Hall H.
  apply (sync_world_invariant env pkgVersion (fun _ => True)
           (fun ix bs => Forall (blobStored bs) ix) (fun _ => True)) in H.
  - tauto.
  - intros pkg path localFile dp ix bs _ _ _ Hn.
    assert (Hmono : Forall (blobStored
                      (bs ++ [(newDist env pkg pkgVersion localFile dp, localFile)])) ix).
    { eapply Forall_impl; [|exact Hn]. intros f Hf. unfold blobStored in *.
      rewrite map_app. apply in_or_app. now left. }
    split; [exact Hmono|]. split; [|exact I].
    apply Forall_app. split; [exact Hmono|]. constructor; [|constructor].
    unfold blobStored. rewrite map_app. apply in_or_app. right. now left.
  - auto.
  - apply Forall_forall. auto.
  - exact Hall.
Qed.

Lemma sync_keeps_blobs_complete_witness :
  let first := syncPackageVersionFiles
                 (Demo.env Demo.tgz_basic
                    (Scenario.statFails Scenario.readmeFile Demo.EIO))
                 Demo.foo_1_0_0 Demo.w0 in
  let second := syncPackageVersionFiles
                  (Demo.env Demo.tgz_basic (Demo.faultOn Demo.isRm Demo.EPERM))
                  Demo.foo_1_0_0 (snd first) in
  fst first = Throw Demo.EIO
  /\ List.length (index (snd first)) = 1%nat
  /\ Forall (blobStored (blobs (snd first))) (index (snd first))
  /\ List.length (index (snd second)) = 2%nat
  /\ Forall (blobStored (blobs (snd second))) (index (snd second)).
Proof.
  intros first second.
  assert (H1 : Forall (blobStored (blobs (snd first))) (index (snd first))).
  { apply (sync_keeps_blobs_complete
             (Demo.env Demo.tgz_basic
                (Scenario.statFails Scenario.readmeFile Demo.EIO))
             Demo.foo_1_0_0 Demo.w0 (snd first) (fst first)).
    - constructor.
    - apply surjective_pairing. }
  split; [reflexivity|]. split; [reflexivity|]. split; [exact H1|].
  split; [reflexivity|].
  apply (sync_keeps_blobs_complete
           (Demo.env Demo.tgz_basic (Demo.faultOn Demo.isRm Demo.EPERM))
           Demo.foo_1_0_0 (snd first) (snd second) (fst second)).
  - exact H1.
  - apply surjective_pairing.
Defined.

(** X6. Append only.  A run of [syncPackageVersionFiles] never removes or
    changes an index entry or a blob: index and blob store after the run
    are those before it with entries and blobs appended.  Every appended
    entry belongs to the version and carries its publish time, every
    appended blob carries its version string, and no entry is appended
    without a blob. *)
Theorem sync_append_only (env : Env) (pkgVersion : PackageVersion)
  (w w' : World) (r : Outcome (list PackageVersionFile)) :
  syncPackageVersionFiles env pkgVersion w = (r, w') ->
  exists added stored,
    index w' = index w ++ added /\ blobs w' = blobs w ++ stored /\
    Forall (fun f => filePackageVersionId f = packageVersionId pkgVersion /\
                     mtime f = publishTime pkgVersion) added /\
    Forall (fun b => distVersion (fst b) = version pkgVersion) stored /\
    (List.length added <= List.length stored)%nat.
Proof.
  intros H.
  apply (sync_world_invariant env pkgVersion (fun _ => True)
           (fun ix bs =>
              exists added stored,
                ix = index w ++ added /\ bs = blobs w ++ stored /\
                Forall (fun f => filePackageVersionId f = packageVersionId pkgVersion /\
                                 mtime f = publishTime pkgVersion) added /\
                Forall (fun b => distVersion (fst b) = version pkgVersion) stored /\
                (List.length added <= List.length stored)%nat)
           (fun _ => True)) in H.
  - tauto.
  - intros pkg path localFile dp ix bs _ _ _ (a & b & -> & -> & Ha & Hb & Hl).
    assert (Hb' : Forall (fun b0 : Dist * jsstring => distVersion (fst b0) = version pkgVersion)
                    (b ++ [(newDist env pkg pkgVersion localFile dp, localFile)])).
    { apply Forall_app. split; [exact Hb|]. constructor; [reflexivity | constructor]. }
    split; [|split; [|exact I]].
    + exists a, (b ++ [(newDist env pkg pkgVersion localFile dp, localFile)]).
      rewrite app_assoc. repeat split; auto. rewrite length_app. simpl. lia.
    + exists (a ++ [newFile env pkg pkgVersion path localFile dp]),
             (b ++ [(newDist env pkg pkgVersion localFile dp, localFile)]).
      rewrite !app_assoc. repeat split; auto.
      * apply Forall_app. split; [exact Ha|]. constructor; [|constructor].
        split; reflexivity.
      * rewrite !length_app. simpl. lia.
  - auto.
  - apply Forall_forall. auto.
  - exists [], []. rewrite !app_nil_r. repeat split; auto.
Qed.

Lemma sync_append_only_witness :
  let run := syncPackageVersionFiles (Demo.env Demo.tgz_basic Demo.noFault)
               Demo.foo_1_0_0 Demo.w0 in
  exists added stored,
    index (snd run) = index Demo.w0 ++ added /\
    blobs (snd run) = blobs Demo.w0 ++ stored /\
    (List.length added <= List.length stored)%nat.
Proof.
  intros run.
  destruct (sync_append_only (Demo.env Demo.tgz_basic Demo.noFault)
              Demo.foo_1_0_0 Demo.w0 (snd run) (fst run) (surjective_pairing run))
    as (added & stored & Hi & Hb & _ & _ & Hl).
  exists added, stored. auto.
Defined.

(** X7. Names and directories.  The name [#getDirectoryAndName] gives
    never contains a [/], and for a path that starts with [/] the
    directory starts with [/].  Hence [syncPackageVersionFiles] keeps the
    index well placed: when every entry has a name without [/] and a
    directory that starts with [/] before a run, so has every entry after
    it and every entry it returns. *)
Theorem entries_well_placed (env : Env) (pkgVersion : PackageVersion)
  (w w' : World) (r : Outcome (list PackageVersionFile)) :
  (forall path, noSlash (snd (getDirectoryAndName path)) = true)
  /\ (forall rest,
        startsWith (fst (getDirectoryAndName (lit "/" ++ rest))) (lit "/") = true)
  /\ (Forall wellPlaced (index w) ->
      syncPackageVersionFiles env pkgVersion w = (r, w') ->
      Forall wellPlaced (index w') /\
      (forall fs, r = Ok fs -> Forall wellPlaced fs)).
Proof.
  split; [intros path; apply basename_noSlash|].
  split; [intros rest; apply dirname_rooted|].
  intros Hall H.
  apply (sync_world_invariant env pkgVersion
           (fun p => exists rest, p = CHAR_FORWARD_SLASH :: rest)
           (fun ix _ => Forall wellPlaced ix) wellPlaced) in H.
  - exact H.
  - intros pkg path localFile dp ix bs [rest ->] _ _ Hn.
    assert (Hnew : wellPlaced
              (newFile env pkg pkgVersion (CHAR_FORWARD_SLASH :: rest) localFile dp)).
    { split; [apply basename_noSlash | apply dirname_rooted]. }
    split; [exact Hn|]. split; [|exact Hnew].
    apply Forall_app. split; [exact Hn | now constructor].
  - intros ix bs f Hn Hin. rewrite Forall_forall in Hn. now apply Hn.
  - apply manifest_rooted.
  - exact Hall.
Qed.

Lemma entries_well_placed_witness :
  Forall wellPlaced
    (index (snd (syncPackageVersionFiles
                   (Demo.env Demo.tgz_readmes Demo.noFault) Demo.foo_1_0_0 Demo.w0))).
Proof.
  pose (run := syncPackageVersionFiles (Demo.env Demo.tgz_readmes Demo.noFault)
                 Demo.foo_1_0_0 Demo.w0).
  destruct (entries_well_placed (Demo.env Demo.tgz_readmes Demo.noFault)
              Demo.foo_1_0_0 Demo.w0 (snd run) (fst run)) as (_ & _ & H).
  destruct (H (Forall_nil _) (surjective_pairing run)) as [Hix _].
  exact Hix.
Defined.

(* ================================================================== *)
(** ** Failures and what they leave behind *)

(** X8. What a failing [#savePackageVersionFile] leaves behind.  A call
    that throws has added no index entry.  A call whose insert failed,
    the swallowed duplicate included, has added no index entry but has
    stored the blob of the entry it built.  In every run the index is
    either unchanged or has gained exactly the entry that is returned,
    together with its blob. *)
Theorem save_failure_effects (env : Env) (pkg : Package)
  (pkgVersion : PackageVersion) (path localFile : jsstring) (w w' : World)
  (r : Outcome PackageVersionFile) :
  savePackageVersionFile env pkg pkgVersion path localFile w = (r, w') ->
  (forall e, r = Throw e -> index w' = index w)
  /\ (forall f e,
        In (CcreatePackageVersionFile f, Some e) (newEvents w w') ->
        index w' = index w /\ blobs w' = blobs w ++ [(dist f, localFile)])
  /\ (index w' = index w \/
      exists f, r = Ok f /\ index w' = index w ++ [f] /\
                blobs w' = blobs w ++ [(dist f, localFile)]).
Proof.
  intros H. apply save_run in H.
  inversion H as [e w0 F U | f0 w0 Hix U | e w0 Hix F U | e w0 Hix F U
                 | w0 Hix Henc U | dp e w0 Hix Henc F U
                 | dp e w0 Hix Henc F U | dp w0 Hix Henc U]; subst;
    destruct U as (Ht & Hi & Hb & _); rewrite (newEvents_app _ _ _ Ht);
    (split; [intros e1 He1; try discriminate He1; try exact Hi|]);
    (split; [intros f1 e1 Hin; in_cases Hin|]);
    try (left; exact Hi).
  - injection Hin as <- <-. split; [exact Hi | exact Hb].
  - right. eexists. split; [reflexivity|]. split; [exact Hi | exact Hb].
Qed.

Lemma save_failure_effects_witness :
  let run := savePackageVersionFile
               (Demo.env Demo.tgz_basic (Demo.faultOn Demo.isCreateFile Demo.dupEntry))
               Demo.foo Demo.foo_1_0_0 (lit "/index.js") (lit "/tmp/f") Demo.w0 in
  index (snd run) = [] /\ List.length (blobs (snd run)) = 1%nat.
Proof.
  intros run.
  destruct (save_failure_effects
              (Demo.env Demo.tgz_basic (Demo.faultOn Demo.isCreateFile Demo.dupEntry))
              Demo.foo Demo.foo_1_0_0 (lit "/index.js") (lit "/tmp/f") Demo.w0
              (snd run) (fst run) (surjective_pairing run)) as (_ & Hins & _).
  assert (Hin : exists f, In (CcreatePackageVersionFile f, Some Demo.dupEntry)
                            (newEvents Demo.w0 (snd run))).
  { eexists. vm_compute. do 4 right. left. reflexivity. }
  destruct Hin as [f Hin]. destruct (Hins f Demo.dupEntry Hin) as [Hi Hb].
  split; [exact Hi|]. rewrite Hb. reflexivity.
Defined.

Section LoopPrefix.

Variable env : Env.
Variables (pkg : Package) (pkgVersion : PackageVersion) (tmpdir : jsstring).

(** The entries the loop has collected when it ends belong, in order, to
    the first paths of its list: to all of them when it completes, to
    fewer when it throws. *)
Lemma materialize_prefix (ps : list jsstring) :
  forall fr r fr',
    materialize env pkg pkgVersion tmpdir ps fr = (r, fr') ->
    exists fs,
      files fr' = files fr ++ fs /\
      (List.length fs <= List.length ps)%nat /\
      map fileKey fs = map (pathKey pkgVersion) (firstn (List.length fs) ps) /\
      (forall e, r = Throw e -> (List.length fs < List.length ps)%nat).
Proof.
  induction ps as [|path rest IH]; intros fr r fr' H.
  - injection H as <- <-. exists []. rewrite app_nil_r.
    repeat split; auto. discriminate.
  - rewrite materialize_cons in H.
    destruct (savePackageVersionFile _ _ _ _ _ _) as [[f|e] w1] eqn:Hs.
    + apply IH in H as (fs & Hf & Hl & Hk & Hthrow). simpl in Hf.
      exists (f :: fs). rewrite Hf, <- app_assoc.
      repeat split; simpl; [lia | | intros e He; apply Hthrow in He; lia].
      now rewrite Hk, (save_ok_key _ _ _ _ _ _ _ _ Hs).
    + injection H as <- <-. exists []. rewrite app_nil_r.
      repeat split; simpl; auto; lia.
Qed.

End LoopPrefix.

Lemma sync_trace (env : Env) (pkgVersion : PackageVersion) (w w' : World)
  (r : Outcome (list PackageVersionFile)) :
  syncPackageVersionFiles env pkgVersion w = (r, w') ->
  trace w' = trace w ++ newEvents w w'.
Proof.
  intros H. apply sync_run in H.
  inversion H as [e0 w0 F Ht | Hnone | pkg0 e0 w0 Hf F Ht
                 | pkg r0 body cleanup d1 w0 Hf F1 F2 Htry Hcl Ht]; subst;
    try (now rewrite (newEvents_app _ _ _ Ht)).
  now rewrite (newEvents_app w _ [(CfindPackageByPackageId (packageId pkgVersion), None)]).
Qed.

(** X9. Partial results.  Whatever [syncPackageVersionFiles] returns
    belongs, entry by entry and in order, to the first paths of the
    manifest.  When the package is found and fewer entries than manifest
    paths are returned, the [catch] block has produced the result: the
    error was logged and the success line was not. *)
Theorem sync_returns_manifest_prefix (env : Env) (pkgVersion : PackageVersion)
  (w w' : World) (fs : list PackageVersionFile) :
  syncPackageVersionFiles env pkgVersion w = (Ok fs, w') ->
  let manifest := manifestOf (members (tarball env (tarDist pkgVersion))) in
  (List.length fs <= List.length manifest)%nat
  /\ map fileKey fs
     = map (pathKey pkgVersion) (firstn (List.length fs) manifest)
  /\ (findPackage pkgVersion w <> None ->
      (List.length fs < List.length manifest)%nat ->
      In logError (newEvents w w') /\ ~ In logSuccess (newEvents w w')).
Proof.
  intros H manifest. apply sync_run in H.
  inversion H as [e0 w0 F Ht | Hnone | pkg0 e0 w0 Hf F Ht
                 | pkg r0 body cleanup d1 w0 Hf F1 F2 Htry Hcl Ht Hw]; subst.
  - split; [simpl; lia|]. split; [reflexivity|]. intros Hp; congruence.
  - assert (Hpre : (List.length fs <= List.length manifest)%nat /\
                   map fileKey fs
                   = map (pathKey pkgVersion) (firstn (List.length fs) manifest)).
    { destruct Hw as [(_ & _ & Hfs) | (rm & frM & Hm & _ & _ & Hfs)].
      - rewrite (Hfs fs eq_refl). simpl. split; [lia | reflexivity].
      - apply materialize_prefix in Hm as (fs' & Hf' & Hl & Hk & _).
        rewrite (Hfs fs eq_refl), Hf'. simpl. split; assumption. }
    destruct Hpre as [Hl Hk]. split; [exact Hl|]. split; [exact Hk|].
    intros _ Hlt. rewrite (newEvents_app _ _ _ Ht).
    assert (Hcl' : ~ In logSuccess cleanup /\ ~ In logError cleanup).
    { inversion Hcl; subst; split; intros Hin; in_cases Hin. }
    inversion Htry as [e F | e F | e mat fs0 Hc Hmat | mat fs0 Hc Hmat Hkeys Hr
                      | mat fs0 Hc Hmat Hkeys Hr | mat fs0 e Hc Hmat Hkeys Hr]; subst;
      try (apply (f_equal (@List.length _)) in Hkeys; rewrite !length_map in Hkeys;
           fold manifest in Hkeys; lia).
    + split; [simpl; auto 10|].
      intros Hin. in_cases Hin. now apply (proj1 Hcl').
    + split; [simpl; auto 10|].
      intros Hin. in_cases Hin. now apply (proj1 Hcl').
    + split.
      * apply in_or_app. right. apply in_or_app. left.
        apply in_or_app. right. apply in_or_app. right. now left.
      * intros Hin. in_cases Hin; try not_save_event Hin.
        now apply (proj1 Hcl').
    + match goal with E : caught _ _ = Ok _ |- _ => apply caught_Ok in E; subst fs end.
      apply (f_equal (@List.length _)) in Hkeys. rewrite !length_map in Hkeys.
      fold manifest in Hkeys. lia.
Qed.

Lemma sync_returns_manifest_prefix_witness :
  let run := syncPackageVersionFiles
               (Demo.env Demo.tgz_basic
                  (Scenario.statFails Scenario.readmeFile Scenario.badArchive))
               Demo.foo_1_0_0 Demo.w0 in
  exists fs, fst run = Ok fs /\ List.length fs = 1%nat /\
             In logError (newEvents Demo.w0 (snd run)).
Proof.
  intros run.
  assert (E : exists fs, run = (Ok fs, snd run) /\ List.length fs = 1%nat).
  { eexists. split; [vm_compute; reflexivity | reflexivity]. }
  destruct E as (fs & E & Hl). exists fs.
  split; [now rewrite E|]. split; [exact Hl|].
  destruct (sync_returns_manifest_prefix _ _ _ _ _ E) as (_ & _ & Hlog).
  apply Hlog; [discriminate | rewrite Hl; vm_compute; lia].
Defined.

Lemma caught_Throw (e e' : JsError) (fs : list PackageVersionFile) :
  caught e fs = Throw e' -> e' = e /\ hasCode e TAR_BAD_ARCHIVE = false.
Proof.
  unfold caught. destruct (hasCode e TAR_BAD_ARCHIVE); intros H;
    [discriminate | injection H as <-; auto].
Qed.

Lemma countCalls_none (p : Call -> bool) (evs : list Event) (c : Call)
  (o : option JsError) :
  countCalls p evs = 0%nat -> In (c, o) evs -> p c = false.
Proof.
  unfold countCalls. induction evs as [|[c1 o1] evs IH]; intros H Hin; [contradiction|].
  simpl in H. destruct (p c1) eqn:E; [discriminate|].
  destruct Hin as [Hin|Hin]; [injection Hin as <- _; exact E | auto].
Qed.

Lemma try_run_no_setup (env : Env) (pkgVersion : PackageVersion)
  (tmpdir tarFile : jsstring) (r : Outcome (list PackageVersionFile))
  (body : list Event) :
  TryRun env pkgVersion tmpdir tarFile r body ->
  countCalls isSetupCall body = 0%nat.
Proof.
  assert (Hsave : forall mat, forallb isSaveEvent mat = true ->
                              countCalls isSetupCall mat = 0%nat).
  { intros mat. apply save_events_count. intros c; destruct c; simpl; congruence. }
  intros H.
  inversion H as [e F | e F | e mat fs Hc Hmat | mat fs Hc Hmat Hk Hr
                 | mat fs Hc Hmat Hk Hr | mat fs e Hc Hmat Hk Hr]; subst;
    try reflexivity;
    rewrite !countCalls_app, (Hsave mat Hmat); reflexivity.
Qed.

Lemma cleanup_no_setup (env : Env) (tmpdir tarFile : jsstring)
  (d d' : list (jsstring * Node)) (cleanup : list Event) :
  CleanupRun env tmpdir tarFile d cleanup d' ->
  countCalls isSetupCall cleanup = 0%nat.
Proof. intros H; inversion H; subst; reflexivity. Qed.

(** What the [try]/[catch] part throws is not of kind [TAR_BAD_ARCHIVE]
    and has been logged. *)
Lemma try_run_throws (env : Env) (pkgVersion : PackageVersion)
  (tmpdir tarFile : jsstring) (e : JsError) (body : list Event) :
  TryRun env pkgVersion tmpdir tarFile (Throw e) body ->
  hasCode e TAR_BAD_ARCHIVE = false /\ In logError body.
Proof.
  intros H.
  inversion H as [e1 F E | e1 F E | e1 mat fs Hc Hmat E
                 | | | mat fs e1 Hc Hmat Hk Hr E]; subst;
    apply caught_Throw in E as [-> Hcode]; (split; [exact Hcode|]);
    repeat (apply in_or_app; right); simpl; auto 10.
Qed.

(** X10. What the [catch] block covers.  An error of the package lookup or
    of the creation of the temporary directory is raised as it is,
    whatever its kind.  Once the temporary directory exists, no run
    raises an error of kind [TAR_BAD_ARCHIVE], whichever call threw it,
    and every error that is raised has been logged by the [catch]
    block. *)
Theorem sync_catch_covers_try (env : Env) (pkgVersion : PackageVersion)
  (w w' : World) (r : Outcome (list PackageVersionFile)) :
  syncPackageVersionFiles env pkgVersion w = (r, w') ->
  (forall c e,
      isSetupCall c = true -> In (c, Some e) (newEvents w w') -> r = Throw e)
  /\ (forall base hint,
        In (CcreateTempDir base hint, None) (newEvents w w') ->
        forall e, r = Throw e ->
                  hasCode e TAR_BAD_ARCHIVE = false /\
                  In logError (newEvents w w')).
Proof.
  intros H. apply sync_run in H.
  inversion H as [e0 w0 F Ht | Hnone | pkg0 e0 w0 Hf F Ht
                 | pkg r0 body cleanup d1 w0 Hf F1 F2 Htry Hcl Ht]; subst.
  - rewrite (newEvents_app _ _ _ Ht).
    split; [intros c e Hc Hin | intros base hint Hin]; in_cases Hin.
    now injection Hin as _ <-.
  - rewrite (newEvents_app w _ [(CfindPackageByPackageId (packageId pkgVersion), None)])
      by reflexivity.
    split; [intros c e Hc Hin | intros base hint Hin]; in_cases Hin.
  - rewrite (newEvents_app _ _ _ Ht).
    split; [intros c e Hc Hin | intros base hint Hin]; in_cases Hin.
    now injection Hin as _ <-.
  - rewrite (newEvents_app _ _ _ Ht).
    split.
    + intros c e Hc Hin. exfalso. in_cases Hin.
      * apply (countCalls_none _ _ _ _ (try_run_no_setup _ _ _ _ _ _ Htry)) in Hin.
        congruence.
      * apply (countCalls_none _ _ _ _ (cleanup_no_setup _ _ _ _ _ _ Hcl)) in Hin.
        congruence.
    + intros base hint _ e ->.
      apply try_run_throws in Htry as [Hcode Hlog].
      split; [exact Hcode|].
      apply in_or_app. right. apply in_or_app. now left.
Qed.

Lemma sync_catch_covers_try_witness :
  fst (syncPackageVersionFiles
         (Demo.env Demo.tgz_basic
            (Demo.faultOn Scenario.isCreateTempDir Scenario.badArchive))
         Demo.foo_1_0_0 Demo.w0)
  = Throw Scenario.badArchive.
Proof.
  pose (run := syncPackageVersionFiles
                 (Demo.env Demo.tgz_basic
                    (Demo.faultOn Scenario.isCreateTempDir Scenario.badArchive))
                 Demo.foo_1_0_0 Demo.w0).
  destruct (sync_catch_covers_try _ _ _ (snd run) (fst run) (surjective_pairing run))
    as [Hsetup _].
  apply (Hsetup (CcreateTempDir (lit "/data") (lit "unpkg_@scope_foo@1.0.0_u1"))
           Scenario.badArchive); [reflexivity|].
  vm_compute. right. left. reflexivity.
Defined.

Section CorruptRuns.

Variable env : Env.
Variables (pkg : Package) (pkgVersion : PackageVersion).
Variables (tmpdir tarFile : jsstring).

(** With a corrupt archive the [try] block never reaches its loop,
    whatever fails: index, blobs and READMEs stay as they are and no
    entry is collected. *)
Lemma sync_primary_corrupt_any (w : World) (fr1 : Frame)
  (r : Outcome (list PackageVersionFile)) :
  corrupt (tarball env (tarDist pkgVersion)) = true ->
  sync_primary env pkg pkgVersion tmpdir tarFile (mkFrame w [] [] []) = (r, fr1) ->
  index (world fr1) = index w /\ blobs (world fr1) = blobs w /\
  readmes (world fr1) = readmes w /\ packages (world fr1) = packages w /\
  exists e, r = caught e [].
Proof.
  intros Hc H. apply corrupt_rejected in Hc as [e0 Hc].
  unfold sync_primary, try_catch, sync_try in H.
  unfold bind at 1 in H. unfold liftW at 1, logger at 1 in H. cbn [world] in H.
  unfold bind at 1 in H.
  unfold liftW at 1, downloadDistToFile, invoke in H.
  cbn [world files paths readmeFilename] in H.
  destruct (fault env (CdownloadDistToFile _ _) _) as [e|] eqn:F1.
  { rewrite caught_catch in H. injection H as <- <-. simpl. repeat split. eauto. }
  unfold bind at 1 in H. unfold liftW at 1, logger at 1 in H.
  cbn [world files paths readmeFilename] in H.
  unfold bind at 1 in H. unfold tar_extract in H.
  cbn [world files paths readmeFilename] in H.
  destruct (fault env (Ctar_extract _ _) _) as [e|] eqn:F2.
  { rewrite caught_catch in H. injection H as <- <-. simpl. repeat split. eauto. }
  cbn [disk emit set_disk] in H. rewrite disk_lookup_head in H.
  rewrite onentry_fold, Hc in H. cbn [world files paths readmeFilename falsy app] in H.
  rewrite caught_catch in H. injection H as <- <-. simpl. repeat split. eauto.
Qed.

End CorruptRuns.

(** X11. A corrupt archive is never indexed in part.  Although [onentry]
    has collected the paths of the members that were readable, a run on a
    corrupt archive writes nothing, whatever else fails: index, blob
    store and README store are as before, no call of the materialization
    is made, and entries that are returned are none. *)
Theorem corrupt_archive_writes_nothing (env : Env) (pkgVersion : PackageVersion)
  (w w' : World) (r : Outcome (list PackageVersionFile)) :
  corrupt (tarball env (tarDist pkgVersion)) = true ->
  syncPackageVersionFiles env pkgVersion w = (r, w') ->
  index w' = index w /\ blobs w' = blobs w /\ readmes w' = readmes w
  /\ (forall fs, r = Ok fs -> fs = [])
  /\ countCalls isMaterializeCall (newEvents w w') = 0%nat
  /\ countCalls isReadmeCall (newEvents w w') = 0%nat.
Proof.
  intros Hc H.
  assert (Hcalls : countCalls isMaterializeCall (newEvents w w') = 0%nat /\
                   countCalls isReadmeCall (newEvents w w') = 0%nat).
  { pose proof (sync_run _ _ _ _ _ H) as R.
    inversion R as [e0 w0 F Ht | Hnone | pkg0 e0 w0 Hf F Ht
                   | pkg r0 body cleanup d1 w0 Hf F1 F2 Htry Hcl Ht]; subst.
    - rewrite (newEvents_app _ _ _ Ht). split; reflexivity.
    - rewrite (newEvents_app w _ [(CfindPackageByPackageId (packageId pkgVersion), None)])
        by reflexivity.
      split; reflexivity.
    - rewrite (newEvents_app _ _ _ Ht). split; reflexivity.
    - rewrite (newEvents_app _ _ _ Ht), !countCalls_app.
      destruct (cleanup_counts _ _ _ _ _ _ Hcl) as (_ & -> & ->).
      inversion Htry; subst; try congruence; split; reflexivity. }
  unfold syncPackageVersionFiles in H.
  unfold bind at 1 in H. unfold findPackageByPackageId, invoke in H.
  destruct (fault env (CfindPackageByPackageId _) w) as [e|] eqn:F1.
  { injection H as <- <-. simpl. repeat split; try tauto. discriminate. }
  fold (findPackage pkgVersion w) in H.
  destruct (findPackage pkgVersion w) as [pkg|] eqn:Hfind.
  2:{ injection H as <- <-. simpl. repeat split; try tauto.
      intros fs E. now injection E as <-. }
  unfold bind at 1 in H. unfold bind at 1 in H.
  unfold createTempDir, invoke in H.
  destruct (fault env (CcreateTempDir _ _) _) as [e|] eqn:F2.
  { injection H as <- <-. simpl. repeat split; try tauto. discriminate. }
  cbn [thrown] in H. unfold with_locals in H.
  match type of H with
  | context [sync_protected _ _ _ ?t ?f ?fr] =>
      destruct (sync_primary env pkg pkgVersion t f fr) as [r1 fr1] eqn:Hprim
  end.
  pose proof (sync_primary_corrupt_any _ _ _ _ _ _ _ _ Hc Hprim)
    as (Hi & Hb & Hr & _ & e & He).
  pose proof (sync_protected_run _ _ _ _ _ _ _ _ Hprim)
    as (fr2 & cleanup & Hp & _ & _ & _ & Hi2 & Hb2 & Hr2 & _).
  rewrite Hp in H. injection H as <- <-.
  rewrite Hi2, Hb2, Hr2, Hi, Hb, Hr. simpl.
  repeat split; try tauto.
  intros fs E. rewrite He in E. now apply caught_Ok in E.
Qed.

Lemma corrupt_archive_writes_nothing_witness :
  let run := syncPackageVersionFiles
               (Demo.env Demo.tgz_truncated (Demo.faultOn Demo.isRm Demo.EPERM))
               Demo.foo_1_0_0 Demo.w0 in
  index (snd run) = [] /\ blobs (snd run) = [].
Proof.
  intros run.
  destruct (corrupt_archive_writes_nothing
              (Demo.env Demo.tgz_truncated (Demo.faultOn Demo.isRm Demo.EPERM))
              Demo.foo_1_0_0 Demo.w0 (snd run) (fst run) eq_refl
              (surjective_pairing run)) as (Hi & Hb & _).
  split; [exact Hi | exact Hb].
Defined.

(* ================================================================== *)
(** ** The read operations *)

Section ReadFacts.

Variable env : Env.
Variable pkgVersion : PackageVersion.

Local Abbreviation tgz := (tarball env (tarDist pkgVersion)).
Local Abbreviation vid := (packageVersionId pkgVersion).

(** The lazy trigger when the existence check does not fail. *)
Lemma ensure_checked (w : World) :
  fault env (ChasPackageVersionFiles vid) w = None ->
  ensurePackageVersionFilesSync env pkgVersion w
  = if hasFiles pkgVersion w
    then (Ok tt, emit (ChasPackageVersionFiles vid, None) w)
    else bind (syncPackageVersionFiles env pkgVersion) (fun _ => ret tt)
           (emit (ChasPackageVersionFiles vid, None) w).
Proof.
  intros F. unfold ensurePackageVersionFilesSync, hasFiles.
  unfold bind at 1. unfold hasPackageVersionFiles, invoke. rewrite F.
  cbn [thrown]. now destruct (existsb _ (index w)).
Qed.

Lemma hasFiles_filter (w : World) (dir : jsstring) :
  hasFiles pkgVersion w = false ->
  filter (fun f => eqb (filePackageVersionId f) vid && eqb (directory f) dir)
    (index w) = [].
Proof.
  unfold hasFiles. induction (index w) as [|f ix IH]; [reflexivity|].
  simpl. intros H. apply orb_false_iff in H as [Hf Hix].
  rewrite Hf. simpl. now apply IH.
Qed.

Hypothesis no_fault : NoFault env.

(** A fault-free run for a package that is found downloads once. *)
Lemma sync_nofault_downloads (w w' : World) (pkg : Package)
  (r : Outcome (list PackageVersionFile)) :
  findPackage pkgVersion w = Some pkg ->
  syncPackageVersionFiles env pkgVersion w = (r, w') ->
  countCalls isDownloadCall (newEvents w w') = 1%nat.
Proof.
  intros Hfind H. apply sync_run in H.
  inversion H as [e0 w0 F Ht | Hnone | pkg0 e0 w0 Hf F Ht
                 | pkg1 r0 body cleanup d1 w0 Hf F1 F2 Htry Hcl Ht]; subst;
    try congruence;
    try (destruct F as [w1 F]; rewrite no_fault in F; discriminate).
  rewrite (newEvents_app _ _ _ Ht), !countCalls_app.
  rewrite (proj1 (try_run_downloads _ _ _ _ _ _ Htry)).
  rewrite (proj1 (cleanup_no_download _ _ _ _ _ _ Hcl)). reflexivity.
Qed.

(** A fault-free run that finds nothing to materialize: the reader
    rejects the archive with [TAR_BAD_ARCHIVE], or it accepts an archive
    without a member to index. *)
Lemma sync_nofault_nothing (w : World) (pkg : Package) :
  findPackage pkgVersion w = Some pkg ->
  (exists e, rejection tgz = Some e /\ hasCode e TAR_BAD_ARCHIVE = true)
  \/ (corrupt tgz = false /\ manifestOf (members tgz) = []) ->
  exists w',
    syncPackageVersionFiles env pkgVersion w = (Ok [], w') /\
    index w' = index w /\ packages w' = packages w.
Proof.
  intros Hfind [(e & Hrej & Hcode) | (Hc & Hempty)].
  { destruct (sync_nofault_rejected env pkgVersion no_fault w pkg e Hfind Hrej)
      as (w' & E & Hi & _ & _ & Hp).
    unfold caught in E. rewrite Hcode in E.
    exists w'. auto. }
  destruct (sync_nofault_intact env pkgVersion no_fault w pkg (Ok tt)
              (extractedFrame env pkgVersion (syncTempDir env pkg pkgVersion w)
                 (syncTempDir env pkg pkgVersion w ++ lit ".tgz")
                 (preparedWorld env pkg pkgVersion w)) Hfind Hc)
    as (w' & E & Hi & _ & Hp & _).
  { now rewrite Hempty. }
  exists w'. split; [exact E|]. split; [exact Hi | exact Hp].
Qed.

End ReadFacts.

Lemma Forall2_In_l {A B} (R : A -> B -> Prop) (l : list A) (l' : list B) (a : A) :
  Forall2 R l l' -> In a l -> exists b, In b l' /\ R a b.
Proof.
  induction 1 as [|x y l l' Hxy _ IH]; intros Hin; [contradiction|].
  destruct Hin as [<-|Hin].
  - exists y. split; [now left | exact Hxy].
  - destruct (IH Hin) as (b & Hb & Hr). exists b. split; [now right | exact Hr].
Qed.

(** X12. A version without entries is synchronized on every read.  When
    the index has no entry of the version and the reader rejects the
    tarball with an error of code [TAR_BAD_ARCHIVE], as it does an
    archive without any member, or accepts a tarball that has no member
    to index, a fault-free [listPackageVersionFiles] downloads the
    tarball, returns the empty list and leaves the index without an entry
    of the version: the next read meets the same conditions and downloads
    again. *)
Theorem empty_version_resyncs (env : Env) (pkgVersion : PackageVersion)
  (w : World) (pkg : Package) (dir : jsstring) :
  NoFault env ->
  findPackage pkgVersion w = Some pkg ->
  hasFiles pkgVersion w = false ->
  (exists e, rejection (tarball env (tarDist pkgVersion)) = Some e /\
             hasCode e TAR_BAD_ARCHIVE = true)
  \/ (corrupt (tarball env (tarDist pkgVersion)) = false /\
      manifestOf (members (tarball env (tarDist pkgVersion))) = []) ->
  exists w',
    listPackageVersionFiles env pkgVersion dir w = (Ok [], w') /\
    countCalls isDownloadCall (newEvents w w') = 1%nat /\
    index w' = index w /\
    hasFiles pkgVersion w' = false /\
    findPackage pkgVersion w' = Some pkg.
Proof.
  intros Hnf Hfind Hhas Hnothing.
  unfold listPackageVersionFiles. unfold bind at 1.
  rewrite ensure_checked by apply Hnf. rewrite Hhas.
  set (wa := emit (ChasPackageVersionFiles (packageVersionId pkgVersion), None) w).
  assert (Hfa : findPackage pkgVersion wa = Some pkg) by exact Hfind.
  destruct (sync_nofault_nothing env pkgVersion Hnf wa pkg Hfa Hnothing)
    as (w1 & E & Hi & Hp).
  pose proof (sync_nofault_downloads env pkgVersion Hnf wa w1 pkg _ Hfa E) as Hd.
  pose proof (sync_trace _ _ _ _ _ E) as Ht.
  unfold bind at 1. rewrite E. unfold ret.
  unfold listPackageVersionFilesRepo, invoke. rewrite Hnf.
  rewrite hasFiles_filter by (unfold hasFiles; rewrite Hi; exact Hhas).
  eexists. split; [reflexivity|]. cbn [thrown].
  split; [|split; [exact Hi | split]].
  - rewrite (newEvents_app w _
               ([(ChasPackageVersionFiles (packageVersionId pkgVersion), None)]
                ++ newEvents wa w1
                ++ [(ClistPackageVersionFiles (packageVersionId pkgVersion) dir, None)])).
    + rewrite !countCalls_app, Hd. reflexivity.
    + cbn [trace emit]. rewrite Ht. unfold wa. cbn [trace emit].
      now rewrite <- !app_assoc.
  - unfold hasFiles. cbn [index emit]. rewrite Hi. exact Hhas.
  - unfold findPackage. cbn [packages emit]. rewrite Hp. exact Hfind.
Qed.

Lemma empty_version_resyncs_witness :
  (exists w',
      listPackageVersionFiles (Demo.env Demo.tgz_empty Demo.noFault)
        Demo.foo_1_0_0 (lit "/") Demo.w0 = (Ok [], w') /\
      hasFiles Demo.foo_1_0_0 w' = false)
  /\ (exists w',
        listPackageVersionFiles (Demo.env Demo.tgz_dir_only Demo.noFault)
          Demo.foo_1_0_0 (lit "/") Demo.w0 = (Ok [], w') /\
        hasFiles Demo.foo_1_0_0 w' = false).
Proof.
  split.
  - destruct (empty_version_resyncs (Demo.env Demo.tgz_empty Demo.noFault)
                Demo.foo_1_0_0 Demo.w0 Demo.foo (lit "/"))
      as (w' & E & _ & _ & Hh & _);
      [intros c w; reflexivity | reflexivity | reflexivity
      | left; exists unrecognized; split; reflexivity |].
    exists w'. split; [exact E | exact Hh].
  - destruct (empty_version_resyncs (Demo.env Demo.tgz_dir_only Demo.noFault)
                Demo.foo_1_0_0 Demo.w0 Demo.foo (lit "/"))
      as (w' & E & _ & _ & Hh & _);
      [intros c w; reflexivity | reflexivity | reflexivity
      | right; split; reflexivity |].
    exists w'. split; [exact E | exact Hh].
Defined.

(** X13. The first read of a file.  When the index has no entry of the
    version, a fault-free [showPackageVersionFile] of a manifest path of
    an intact tarball synchronizes the version, with one download, and
    returns the entry of the path, which is then in the index.  A second
    read of the path returns the same entry without download and leaves
    the index as it is. *)
Theorem first_read_finds_file (env : Env) (pkgVersion : PackageVersion)
  (w : World) (pkg : Package) (p : jsstring) :
  NoFault env ->
  findPackage pkgVersion w = Some pkg ->
  corrupt (tarball env (tarDist pkgVersion)) = false ->
  Forall (fun e => wellFormed (entryPath e) = true)
    (filter retained (members (tarball env (tarDist pkgVersion)))) ->
  hasFiles pkgVersion w = false ->
  In p (manifestOf (members (tarball env (tarDist pkgVersion)))) ->
  exists f w',
    showPackageVersionFile env pkgVersion p w = (Ok (Some f), w') /\
    fileKey f = pathKey pkgVersion p /\
    In f (index w') /\
    countCalls isDownloadCall (newEvents w w') = 1%nat /\
    exists w'',
      showPackageVersionFile env pkgVersion p w' = (Ok (Some f), w'') /\
      countCalls isDownloadCall (newEvents w' w'') = 0%nat /\
      index w'' = index w'.
Proof.
  intros Hnf Hfind Hc Hwf Hhas Hin.
  assert (Hwf' : Forall (fun q => wellFormed q = true)
                   (manifestOf (members (tarball env (tarDist pkgVersion))))).
  { unfold manifestOf. apply Forall_forall. intros q Hq.
    apply in_map_iff in Hq as (m & <- & Hm).
    rewrite Forall_forall in Hwf. apply wellFormed_manifest_path. now apply Hwf. }
  set (wa := emit (ChasPackageVersionFiles (packageVersionId pkgVersion), None) w).
  assert (Hfa : findPackage pkgVersion wa = Some pkg) by exact Hfind.
  destruct (materialize_completes env pkg pkgVersion (syncTempDir env pkg pkgVersion wa)
              Hnf _ Hwf'
              (extractedFrame env pkgVersion (syncTempDir env pkg pkgVersion wa)
                 (syncTempDir env pkg pkgVersion wa ++ lit ".tgz")
                 (preparedWorld env pkg pkgVersion wa))) as [frM Hm].
  destruct (sync_nofault_intact env pkgVersion Hnf wa pkg (Ok tt) frM Hfa Hc Hm)
    as (w1 & E & _).
  pose proof (sync_ok_indexed env Hnf pkgVersion wa w1 pkg (files frM) Hfa Hc E) as Hall.
  destruct (Forall2_In_l _ _ _ _ Hall Hin) as (f & _ & Hix).
  pose proof (sync_nofault_downloads env pkgVersion Hnf wa w1 pkg _ Hfa E) as Hd.
  pose proof (sync_trace _ _ _ _ _ E) as Ht.
  assert (Hfind1 : forall w0, index w0 = index w1 ->
            findPackageVersionFile env (packageVersionId pkgVersion)
              (Path.dirname p) (Path.basename p) w0
            = (Ok (Some f),
               emit (CfindPackageVersionFile (packageVersionId pkgVersion)
                       (Path.dirname p) (Path.basename p), None) w0)).
  { intros w0 Hi0. unfold findPackageVersionFile, invoke. rewrite Hnf, Hi0.
    unfold indexed in Hix. now rewrite Hix. }
  exists f. eexists.
  split.
  { unfold showPackageVersionFile. unfold bind at 1.
    rewrite ensure_checked by apply Hnf. rewrite Hhas.
    unfold bind at 1. fold wa. rewrite E. unfold ret.
    unfold getDirectoryAndName. cbv beta iota.
    apply Hfind1. reflexivity. }
  split; [exact (indexed_key _ _ _ _ Hix)|].
  split; [cbn [index emit]; apply find_some in Hix; tauto|].
  split.
  { rewrite (newEvents_app w _
               ([(ChasPackageVersionFiles (packageVersionId pkgVersion), None)]
                ++ newEvents wa w1
                ++ [(CfindPackageVersionFile (packageVersionId pkgVersion)
                       (Path.dirname p) (Path.basename p), None)])).
    - rewrite !countCalls_app, Hd. reflexivity.
    - cbn [trace emit]. rewrite Ht. unfold wa. cbn [trace emit].
      now rewrite <- !app_assoc. }
  eexists. split.
  { unfold showPackageVersionFile. unfold bind at 1.
    rewrite ensure_checked by apply Hnf.
    assert (Hh : hasFiles pkgVersion
                   (emit (CfindPackageVersionFile (packageVersionId pkgVersion)
                            (Path.dirname p) (Path.basename p), None) w1) = true).
    { unfold hasFiles. cbn [index emit]. exact (indexed_has_files _ _ _ _ Hix). }
    rewrite Hh. unfold getDirectoryAndName. cbv beta iota.
    apply Hfind1. reflexivity. }
  split; [|reflexivity].
  unfold newEvents. cbn [trace emit].
  rewrite <- app_assoc, skipn_app, skipn_all, Nat.sub_diag. reflexivity.
Qed.

Lemma first_read_finds_file_witness :
  exists f w',
    showPackageVersionFile (Demo.env Demo.tgz_basic Demo.noFault)
      Demo.foo_1_0_0 (lit "/index.js") Demo.w0 = (Ok (Some f), w') /\
    In f (index w').
Proof.
  destruct (first_read_finds_file (Demo.env Demo.tgz_basic Demo.noFault)
              Demo.foo_1_0_0 Demo.w0 Demo.foo (lit "/index.js"))
    as (f & w' & E & _ & Hin & _);
    [intros c w; reflexivity | reflexivity | reflexivity
    | repeat constructor | reflexivity | left; reflexivity |].
  exists f, w'. split; [exact E | exact Hin].
Defined.

(* ================================================================== *)
(** ** [encodeURI] is injective *)

Section Utf8Facts.

(** [N.lor] with a constant whose low bits are clear is an addition. *)
Lemma lor_small (C : N) (n : nat) :
  forallb (fun k => N.lor C (N.of_nat k) =? C + N.of_nat k) (seq 0 n) = true ->
  forall x, x < N.of_nat n -> N.lor C x = C + x.
Proof.
  intros H x Hx. rewrite forallb_forall in H.
  specialize (H (N.to_nat x)). rewrite N2Nat.id in H.
  apply N.eqb_eq, H, in_seq. lia.
Qed.

Lemma lor_80 (x : N) : x < 64 -> N.lor 0x80 x = 128 + x.
Proof. apply (lor_small 0x80 64). vm_compute. reflexivity. Qed.

Lemma lor_C0 (x : N) : x < 32 -> N.lor 0xC0 x = 192 + x.
Proof. apply (lor_small 0xC0 32). vm_compute. reflexivity. Qed.

Lemma lor_E0 (x : N) : x < 16 -> N.lor 0xE0 x = 224 + x.
Proof. apply (lor_small 0xE0 16). vm_compute. reflexivity. Qed.

Lemma lor_F0 (x : N) : x < 8 -> N.lor 0xF0 x = 240 + x.
Proof. apply (lor_small 0xF0 8). vm_compute. reflexivity. Qed.

Lemma low6 (x : N) : N.land x 0x3F = x mod 64.
Proof. change 0x3F with (N.ones 6). now rewrite N.land_ones. Qed.

Lemma low6_lt (x : N) : x mod 64 < 64.
Proof. apply N.mod_lt. discriminate. Qed.

Lemma div64_lt (x q : N) : x < 64 * q -> x / 64 < q.
Proof. intros H. now apply N.Div0.div_lt_upper_bound. Qed.

(** The octets of a code point, in arithmetic form. *)
Lemma utf8_1 (cp : N) : cp < 0x80 -> utf8 cp = [cp].
Proof. intros H. unfold utf8. apply N.ltb_lt in H. now rewrite H. Qed.

Lemma utf8_2 (cp : N) :
  0x80 <= cp -> cp < 0x800 ->
  utf8 cp = [192 + cp / 64; 128 + cp mod 64].
Proof.
  intros H1 H2. unfold utf8.
  apply N.ltb_ge in H1. rewrite H1.
  pose proof H2 as H2'. apply N.ltb_lt in H2'. rewrite H2'.
  rewrite low6, N.shiftr_div_pow2. change (2 ^ 6) with 64.
  rewrite lor_C0 by (apply div64_lt; lia).
  now rewrite lor_80 by apply low6_lt.
Qed.

Lemma utf8_3 (cp : N) :
  0x800 <= cp -> cp < 0x10000 ->
  utf8 cp = [224 + cp / 64 / 64; 128 + (cp / 64) mod 64; 128 + cp mod 64].
Proof.
  intros H1 H2. unfold utf8.
  assert (E1 : (cp <? 0x80) = false) by (apply N.ltb_ge; lia).
  assert (E2 : (cp <? 0x800) = false) by (apply N.ltb_ge; lia).
  pose proof H2 as H2'. apply N.ltb_lt in H2'. rewrite E1, E2, H2'.
  rewrite !low6, !N.shiftr_div_pow2.
  change (2 ^ 6) with 64. change (2 ^ 12) with (64 * 64).
  rewrite <- N.Div0.div_div.
  rewrite lor_E0 by (apply div64_lt, div64_lt; lia).
  now rewrite !lor_80 by apply low6_lt.
Qed.

Lemma utf8_4 (cp : N) :
  0x10000 <= cp -> cp < 0x200000 ->
  utf8 cp = [240 + cp / 64 / 64 / 64; 128 + (cp / 64 / 64) mod 64;
             128 + (cp / 64) mod 64; 128 + cp mod 64].
Proof.
  intros H1 H2. unfold utf8.
  assert (E1 : (cp <? 0x80) = false) by (apply N.ltb_ge; lia).
  assert (E2 : (cp <? 0x800) = false) by (apply N.ltb_ge; lia).
  assert (E3 : (cp <? 0x10000) = false) by (apply N.ltb_ge; lia).
  rewrite E1, E2, E3.
  rewrite !low6, !N.shiftr_div_pow2.
  change (2 ^ 6) with 64. change (2 ^ 12) with (64 * 64).
  change (2 ^ 18) with (64 * 64 * 64).
  rewrite <- !N.Div0.div_div.
  rewrite lor_F0 by (apply div64_lt, div64_lt, div64_lt; lia).
  now rewrite !lor_80 by apply low6_lt.
Qed.

End Utf8Facts.

Section PercentFacts.

Lemma hexDigit_inj (d1 d2 : N) :
  d1 < 16 -> d2 < 16 -> hexDigit d1 = hexDigit d2 -> d1 = d2.
Proof.
  unfold hexDigit. intros H1 H2.
  destruct (d1 <? 10) eqn:E1; destruct (d2 <? 10) eqn:E2;
    try apply N.ltb_lt in E1; try apply N.ltb_lt in E2;
    try apply N.ltb_ge in E1; try apply N.ltb_ge in E2; lia.
Qed.

Lemma percent_arith (o : N) :
  percent o = [CHAR_PERCENT; hexDigit (o / 16); hexDigit (o mod 16)].
Proof.
  unfold percent. rewrite N.shiftr_div_pow2.
  change 0xF with (N.ones 4). now rewrite N.land_ones.
Qed.

Lemma percentAll_cons (o : N) (os : list N) :
  percentAll (o :: os) = percent o ++ percentAll os.
Proof. reflexivity. Qed.

(** One escape determines its octet and what follows it. *)
Lemma percent_app_inj (o1 o2 : N) (x y : jsstring) :
  o1 < 256 -> o2 < 256 ->
  percent o1 ++ x = percent o2 ++ y -> o1 = o2 /\ x = y.
Proof.
  intros H1 H2 H. rewrite !percent_arith in H.
  injection H as Hhi Hlo Hxy.
  pose proof (N.Div0.div_mod o1 16) as E1.
  pose proof (N.Div0.div_mod o2 16) as E2.
  assert (L1 : o1 mod 16 < 16) by (apply N.mod_lt; discriminate).
  assert (L2 : o2 mod 16 < 16) by (apply N.mod_lt; discriminate).
  apply hexDigit_inj in Hlo; [|exact L1 | exact L2].
  apply hexDigit_inj in Hhi;
    [| apply N.Div0.div_lt_upper_bound; lia | apply N.Div0.div_lt_upper_bound; lia].
  split; [lia | exact Hxy].
Qed.

Lemma escape_head (cp : N) :
  exists t, percentAll (utf8 cp) = CHAR_PERCENT :: t.
Proof.
  unfold utf8.
  destruct (cp <? 0x80); [eexists; reflexivity|].
  destruct (cp <? 0x800); [eexists; reflexivity|].
  destruct (cp <? 0x10000); eexists; reflexivity.
Qed.

End PercentFacts.

(** The quotients and remainders of a code point by 64. *)
Ltac sextets a :=
  pose proof (N.Div0.div_mod a 64);
  pose proof (N.Div0.div_mod (a / 64) 64);
  pose proof (N.Div0.div_mod (a / 64 / 64) 64);
  pose proof (low6_lt a);
  pose proof (low6_lt (a / 64));
  pose proof (low6_lt (a / 64 / 64)).

(** The shape of [utf8] by the range of the code point. *)
Ltac utf8_shape a H :=
  destruct (N.lt_ge_cases a 0x80);
  [rewrite (utf8_1 a) in H by assumption
  |destruct (N.lt_ge_cases a 0x800);
   [rewrite (utf8_2 a) in H by assumption
   |destruct (N.lt_ge_cases a 0x10000);
    [rewrite (utf8_3 a) in H by assumption
    |rewrite (utf8_4 a) in H by (try assumption; lia)]]].

(** Linear arithmetic over the sextets of [a] and [b], taken as
    unknowns. *)
Ltac hide t := let x := fresh "s" in set (x := t) in *; clearbody x.

Ltac sextet_lia a b :=
  hide (a / 64 / 64 / 64); hide ((a / 64 / 64) mod 64);
  hide (a / 64 / 64); hide ((a / 64) mod 64);
  hide (a / 64); hide (a mod 64);
  hide (b / 64 / 64 / 64); hide ((b / 64 / 64) mod 64);
  hide (b / 64 / 64); hide ((b / 64) mod 64);
  hide (b / 64); hide (b mod 64);
  lia.

(** The escape of a code point determines the code point and what
    follows the escape. *)
Lemma escape_inj (a b : N) (x y : jsstring) :
  a < 0x110000 -> b < 0x110000 ->
  percentAll (utf8 a) ++ x = percentAll (utf8 b) ++ y -> a = b /\ x = y.
Proof.
  intros Ha Hb H. sextets a. sextets b.
  utf8_shape a H; utf8_shape b H;
    rewrite ?percentAll_cons, <- ?app_assoc in H;
    repeat match type of H with
           | percent _ ++ _ = percent _ ++ _ =>
               let Ho := fresh "Ho" in
               apply percent_app_inj in H as [Ho H];
               [|sextet_lia a b|sextet_lia a b]
           end;
    try (exfalso; sextet_lia a b).
  all: simpl in H; split; [sextet_lia a b | exact H].
Qed.

Section EncodeInjective.

Lemma pair_range (c c2 : N) :
  isLeadingSurrogate c = true -> isTrailingSurrogate c2 = true ->
  0x10000 <= UTF16SurrogatePairToCodePoint c c2 < 0x110000.
Proof.
  unfold isLeadingSurrogate, isTrailingSurrogate, inRange,
    UTF16SurrogatePairToCodePoint.
  rewrite !andb_true_iff, !N.leb_le. lia.
Qed.

Lemma pair_inj (c c2 d d2 : N) :
  isLeadingSurrogate c = true -> isTrailingSurrogate c2 = true ->
  isLeadingSurrogate d = true -> isTrailingSurrogate d2 = true ->
  UTF16SurrogatePairToCodePoint c c2 = UTF16SurrogatePairToCodePoint d d2 ->
  c = d /\ c2 = d2.
Proof.
  unfold isLeadingSurrogate, isTrailingSurrogate, inRange,
    UTF16SurrogatePairToCodePoint.
  rewrite !andb_true_iff, !N.leb_le. lia.
Qed.

(** How [encodeURI] consumes the head of a string. *)
Lemma encodeURI_view (c : N) (t r : jsstring) :
  encodeURI (c :: t) = Some r ->
  (unescapedURISet c = true /\
   exists r', encodeURI t = Some r' /\ r = c :: r')
  \/ (unescapedURISet c = false /\ isLeadingSurrogate c = false /\
      exists r', encodeURI t = Some r' /\ r = percentAll (utf8 c) ++ r')
  \/ (unescapedURISet c = false /\ isLeadingSurrogate c = true /\
      exists c2 t' r',
        t = c2 :: t' /\ isTrailingSurrogate c2 = true /\
        encodeURI t' = Some r' /\
        r = percentAll (utf8 (UTF16SurrogatePairToCodePoint c c2)) ++ r').
Proof.
  intros H. rewrite encodeURI_cons in H.
  destruct (unescapedURISet c).
  - left. apply option_map_Some in H as (x & Hx & ->). eauto.
  - right. destruct (isTrailingSurrogate c); [discriminate|].
    destruct (isLeadingSurrogate c).
    + right. destruct t as [|c2 t']; [discriminate|].
      destruct (isTrailingSurrogate c2) eqn:Ht; [|discriminate].
      apply option_map_Some in H as (x & Hx & ->).
      split; [reflexivity|]. split; [reflexivity|].
      exists c2, t', x. auto.
    + left. apply option_map_Some in H as (x & Hx & ->). eauto.
Qed.

Lemma plain_not_escape (c cp : N) (x y : jsstring) :
  unescapedURISet c = true -> c :: x <> percentAll (utf8 cp) ++ y.
Proof.
  intros Hu E. destruct (escape_head cp) as [t Ht]. rewrite Ht in E.
  injection E as -> _. discriminate Hu.
Qed.

Lemma encodeURI_inj_bounded (n : nat) :
  forall s1 s2 r,
    (List.length s1 <= n)%nat ->
    validUnits s1 = true -> validUnits s2 = true ->
    encodeURI s1 = Some r -> encodeURI s2 = Some r -> s1 = s2.
Proof.
  induction n as [|n IH]; intros s1 s2 r Hn V1 V2 E1 E2.
  - destruct s1; [|simpl in Hn; lia]. injection E1 as <-.
    apply encodeURI_length in E2. destruct s2; [reflexivity | simpl in E2; lia].
  - destruct s1 as [|c1 t1].
    { injection E1 as <-. apply encodeURI_length in E2.
      destruct s2; [reflexivity | simpl in E2; lia]. }
    destruct s2 as [|c2 t2].
    { injection E2 as <-. apply encodeURI_length in E1. simpl in E1. lia. }
    change (validUnits (c1 :: t1)) with ((c1 <? 0x10000) && validUnits t1) in V1.
    change (validUnits (c2 :: t2)) with ((c2 <? 0x10000) && validUnits t2) in V2.
    apply andb_true_iff in V1 as [B1 V1]. apply andb_true_iff in V2 as [B2 V2].
    apply N.ltb_lt in B1. apply N.ltb_lt in B2.
    simpl in Hn.
    apply encodeURI_view in E1. apply encodeURI_view in E2.
    destruct E1 as [(U1 & x1 & X1 & R1) | [(U1 & L1 & x1 & X1 & R1)
                   | (U1 & L1 & d1 & t1' & x1 & -> & T1 & X1 & R1)]];
      destruct E2 as [(U2 & x2 & X2 & R2) | [(U2 & L2 & x2 & X2 & R2)
                     | (U2 & L2 & d2 & t2' & x2 & -> & T2 & X2 & R2)]];
      subst r.
    + injection R2 as Ec Ex. subst c2 x2. f_equal. apply (IH t1 t2 x1); auto; lia.
    + exfalso. exact (plain_not_escape _ _ _ _ U1 R2).
    + exfalso. exact (plain_not_escape _ _ _ _ U1 R2).
    + exfalso. symmetry in R2. exact (plain_not_escape _ _ _ _ U2 R2).
    + apply escape_inj in R2 as [Ec Ex]; [|lia|lia]. subst c2 x2.
      f_equal. apply (IH t1 t2 x1); auto; lia.
    + exfalso. pose proof (pair_range _ _ L2 T2).
      apply escape_inj in R2 as [E _]; lia.
    + exfalso. symmetry in R2. exact (plain_not_escape _ _ _ _ U2 R2).
    + exfalso. pose proof (pair_range _ _ L1 T1).
      apply escape_inj in R2 as [E _]; lia.
    + pose proof (pair_range _ _ L1 T1). pose proof (pair_range _ _ L2 T2).
      apply escape_inj in R2 as [E Ex]; [|lia|lia]. subst x2.
      apply pair_inj in E as [Ec Ed]; auto. subst c2 d2.
      simpl in V1, V2. apply andb_true_iff in V1 as [_ V1].
      apply andb_true_iff in V2 as [_ V2].
      do 2 f_equal. apply (IH t1' t2' x1); auto. simpl in Hn. lia.
Qed.

(** [encodeURI] is injective on strings of code units. *)
Lemma encodeURI_inj (s1 s2 r : jsstring) :
  validUnits s1 = true -> validUnits s2 = true ->
  encodeURI s1 = Some r -> encodeURI s2 = Some r -> s1 = s2.
Proof. apply (encodeURI_inj_bounded (List.length s1)). lia. Qed.

End EncodeInjective.

(** X14. Blob keys do not collide.  [encodeURI] is injective: when
    [#savePackageVersionFile] has stored blobs for two paths that were
    not indexed, and the two blobs have the same path key, the two paths
    are the same. *)
Theorem blob_keys_distinct (env : Env) (pkg : Package) (pkgVersion : PackageVersion)
  (p1 p2 l1 l2 : jsstring) (w1 w1' w2 w2' : World) (f1 f2 : PackageVersionFile) :
  validUnits p1 = true -> validUnits p2 = true ->
  indexed pkgVersion p1 (index w1) = None ->
  indexed pkgVersion p2 (index w2) = None ->
  savePackageVersionFile env pkg pkgVersion p1 l1 w1 = (Ok f1, w1') ->
  savePackageVersionFile env pkg pkgVersion p2 l2 w2 = (Ok f2, w2') ->
  distPath (dist f1) = distPath (dist f2) ->
  p1 = p2.
Proof.
  intros V1 V2 I1 I2 S1 S2 E.
  apply (save_created _ _ _ _ _ _ _ _ I1) in S1 as (d1 & E1 & -> & _).
  apply (save_created _ _ _ _ _ _ _ _ I2) in S2 as (d2 & E2 & -> & _).
  simpl in E. subst d2.
  exact (encodeURI_inj p1 p2 d1 V1 V2 E1 E2).
Qed.

Lemma blob_keys_distinct_witness :
  Demo.chi_manifest_path = Demo.chi_manifest_path.
Proof.
  pose (run := savePackageVersionFile (Demo.env Demo.tgz_chi Demo.noFault)
                 Demo.foo Demo.foo_1_0_0 Demo.chi_manifest_path (lit "/tmp/f") Demo.w0).
  apply (blob_keys_distinct (Demo.env Demo.tgz_chi Demo.noFault)
           Demo.foo Demo.foo_1_0_0 Demo.chi_manifest_path Demo.chi_manifest_path
           (lit "/tmp/f") (lit "/tmp/f") Demo.w0 (snd run) Demo.w0 (snd run)
           (newFile (Demo.env Demo.tgz_chi Demo.noFault) Demo.foo Demo.foo_1_0_0
              Demo.chi_manifest_path (lit "/tmp/f") (lit "/resource/ToOneFrom%CF%87.js"))
           (newFile (Demo.env Demo.tgz_chi Demo.noFault) Demo.foo Demo.foo_1_0_0
              Demo.chi_manifest_path (lit "/tmp/f") (lit "/resource/ToOneFrom%CF%87.js")));
    reflexivity.
Defined.

(** X15. Plain paths and escapes.  The blob that
    [#savePackageVersionFile] stores for a path that was not indexed is
    keyed by the path itself exactly when the path consists of characters
    that [encodeURI] leaves alone (letters, digits and
    [; / ? : @ & = + $ , - _ . ! ~ * ' ( ) #]).  The key is never shorter
    than the path, and a [%] of the path is itself escaped, as [%25]. *)
Theorem blob_key_of_plain_path (env : Env) (pkg : Package)
  (pkgVersion : PackageVersion) (path localFile : jsstring) (w w' : World)
  (f : PackageVersionFile) :
  indexed pkgVersion path (index w) = None ->
  savePackageVersionFile env pkg pkgVersion path localFile w = (Ok f, w') ->
  (distPath (dist f) = path <-> forallb unescapedURISet path = true)
  /\ (List.length path <= List.length (distPath (dist f)))%nat
  /\ (forall a b : jsstring,
        path = a ++ CHAR_PERCENT :: b ->
        exists ra rb,
          encodeURI a = Some ra /\ encodeURI b = Some rb /\
          distPath (dist f) = ra ++ lit "%25" ++ rb).
Proof.
  intros Hix H.
  apply (save_created _ _ _ _ _ _ _ _ Hix) in H as (dp & Henc & -> & _).
  simpl. split; [|split].
  - split.
    + intros ->. now apply encodeURI_fixed.
    + intros Hs. rewrite (encodeURI_unescaped _ Hs) in Henc. congruence.
  - now apply encodeURI_length.
  - intros a b ->.
    apply (encodeURI_escaped_unit CHAR_PERCENT) in Henc; auto.
Qed.

Lemma blob_key_of_plain_path_witness :
  let run := savePackageVersionFile (Demo.env Demo.tgz_basic Demo.noFault)
               Demo.foo Demo.foo_1_0_0 (lit "/dir/sub/file.js") (lit "/tmp/f")
               Demo.w0 in
  exists f, fst run = Ok f /\ distPath (dist f) = lit "/dir/sub/file.js".
Proof.
  intros run.
  assert (E : exists f, run = (Ok f, snd run)).
  { eexists. vm_compute. reflexivity. }
  destruct E as [f E]. exists f. split; [now rewrite E|].
  apply (blob_key_of_plain_path (Demo.env Demo.tgz_basic Demo.noFault)
           Demo.foo Demo.foo_1_0_0 (lit "/dir/sub/file.js") (lit "/tmp/f")
           Demo.w0 (snd run) f eq_refl E).
  reflexivity.
Defined.

(* ================================================================== *)
(** ** What the index holds after the first read *)

Lemma hasFiles_none (pkgVersion : PackageVersion) (w : World) (f : PackageVersionFile) :
  hasFiles pkgVersion w = false -> In f (index w) ->
  filePackageVersionId f <> packageVersionId pkgVersion.
Proof.
  unfold hasFiles. intros H Hin E.
  assert (Hex : existsb (fun g => eqb (filePackageVersionId g)
                                    (packageVersionId pkgVersion)) (index w) = true).
  { apply existsb_exists. exists f. split; [exact Hin|]. now apply jseqb_eq. }
  congruence.
Qed.

(** When the index holds no entry of the version before a run, every
    entry of the version it holds afterwards is that of a manifest
    path. *)
Lemma sync_index_sound (env : Env) (pkgVersion : PackageVersion) (w w' : World)
  (r : Outcome (list PackageVersionFile)) :
  hasFiles pkgVersion w = false ->
  syncPackageVersionFiles env pkgVersion w = (r, w') ->
  forall f, In f (index w') ->
            filePackageVersionId f = packageVersionId pkgVersion ->
            exists p, In p (manifestOf (members (tarball env (tarDist pkgVersion)))) /\
                      fileKey f = pathKey pkgVersion p.
Proof.
  intros Hhas H.
  apply (sync_world_invariant env pkgVersion
           (fun p => In p (manifestOf (members (tarball env (tarDist pkgVersion)))))
           (fun ix _ =>
              forall f, In f ix ->
                        filePackageVersionId f = packageVersionId pkgVersion ->
                        exists p,
                          In p (manifestOf (members (tarball env (tarDist pkgVersion)))) /\
                          fileKey f = pathKey pkgVersion p)
           (fun _ => True)) in H.
  - tauto.
  - intros pkg path localFile dp ix bs Hp _ _ Hn.
    split; [exact Hn|]. split; [|exact I].
    intros f Hin Hv. apply in_app_or in Hin as [Hin|[<-|[]]]; [now apply Hn|].
    exists path. split; [exact Hp | reflexivity].
  - auto.
  - apply Forall_forall. auto.
  - intros f Hin Hv. exfalso. exact (hasFiles_none _ _ _ Hhas Hin Hv).
Qed.

Section FirstRead.

Variable env : Env.
Hypothesis no_fault : NoFault env.
Variable pkgVersion : PackageVersion.

Local Abbreviation tgz := (tarball env (tarDist pkgVersion)).

(** A fault-free run on well-formed member names returns entries,
    unless the reader rejects the archive with an error of another code
    than [TAR_BAD_ARCHIVE]. *)
Lemma sync_nofault_returns (w : World) (pkg : Package) :
  findPackage pkgVersion w = Some pkg ->
  (forall e, rejection tgz = Some e -> hasCode e TAR_BAD_ARCHIVE = true) ->
  Forall (fun e => wellFormed (entryPath e) = true) (filter retained (members tgz)) ->
  exists fs w', syncPackageVersionFiles env pkgVersion w = (Ok fs, w').
Proof.
  intros Hfind Hbad Hwf.
  destruct (rejection tgz) as [e|] eqn:Hrej.
  { destruct (sync_nofault_rejected env pkgVersion no_fault w pkg e Hfind Hrej)
      as (w' & E & _).
    unfold caught in E. rewrite (Hbad e eq_refl) in E. eauto. }
  apply corrupt_accepted in Hrej. rename Hrej into Hc.
  assert (Hwf' : Forall (fun q => wellFormed q = true) (manifestOf (members tgz))).
  { unfold manifestOf. apply Forall_forall. intros q Hq.
    apply in_map_iff in Hq as (m & <- & Hm).
    rewrite Forall_forall in Hwf. apply wellFormed_manifest_path. now apply Hwf. }
  destruct (materialize_completes env pkg pkgVersion (syncTempDir env pkg pkgVersion w)
              no_fault _ Hwf'
              (extractedFrame env pkgVersion (syncTempDir env pkg pkgVersion w)
                 (syncTempDir env pkg pkgVersion w ++ lit ".tgz")
                 (preparedWorld env pkg pkgVersion w))) as [frM Hm].
  destruct (sync_nofault_intact env pkgVersion no_fault w pkg (Ok tt) frM Hfind Hc Hm)
    as (w' & E & _).
  eauto.
Qed.

End FirstRead.

(** X16. The first read of a path that the tarball does not have.  When
    the index has no entry of the version and no manifest path has the
    directory and name of the path asked for, a fault-free
    [showPackageVersionFile] synchronizes the version and answers that
    there is no such file, unless the reader rejects the tarball with an
    error of another code than [TAR_BAD_ARCHIVE]. *)
Theorem first_read_of_absent_file (env : Env) (pkgVersion : PackageVersion)
  (w : World) (pkg : Package) (p : jsstring) :
  NoFault env ->
  findPackage pkgVersion w = Some pkg ->
  (forall e, rejection (tarball env (tarDist pkgVersion)) = Some e ->
             hasCode e TAR_BAD_ARCHIVE = true) ->
  Forall (fun e => wellFormed (entryPath e) = true)
    (filter retained (members (tarball env (tarDist pkgVersion)))) ->
  hasFiles pkgVersion w = false ->
  (forall q, In q (manifestOf (members (tarball env (tarDist pkgVersion)))) ->
             pathKey pkgVersion q <> pathKey pkgVersion p) ->
  exists w',
    showPackageVersionFile env pkgVersion p w = (Ok None, w') /\
    countCalls isDownloadCall (newEvents w w') = 1%nat.
Proof.
  intros Hnf Hfind Hbad Hwf Hhas Habsent.
  set (wa := emit (ChasPackageVersionFiles (packageVersionId pkgVersion), None) w).
  assert (Hfa : findPackage pkgVersion wa = Some pkg) by exact Hfind.
  destruct (sync_nofault_returns env Hnf pkgVersion wa pkg Hfa Hbad Hwf)
    as (fs & w1 & E).
  pose proof (sync_index_sound env pkgVersion wa w1 _ Hhas E) as Hsound.
  pose proof (sync_nofault_downloads env pkgVersion Hnf wa w1 pkg _ Hfa E) as Hd.
  pose proof (sync_trace _ _ _ _ _ E) as Ht.
  assert (Hnone : find (sameFile (packageVersionId pkgVersion) (Path.dirname p)
                          (Path.basename p)) (index w1) = None).
  { destruct (find _ (index w1)) as [f|] eqn:Hf; [exfalso | reflexivity].
    apply find_some in Hf as [Hin Hk]. apply sameFile_key in Hk.
    destruct (Hsound f Hin) as (q & Hq & Hkq); [now inversion Hk|].
    apply (Habsent q Hq). unfold pathKey at 2. congruence. }
  eexists. split.
  { unfold showPackageVersionFile. unfold bind at 1.
    rewrite ensure_checked by apply Hnf. rewrite Hhas.
    unfold bind at 1. fold wa. rewrite E. unfold ret.
    unfold getDirectoryAndName. cbv beta iota.
    unfold findPackageVersionFile, invoke. rewrite Hnf, Hnone. reflexivity. }
  cbn [thrown].
  rewrite (newEvents_app w _
             ([(ChasPackageVersionFiles (packageVersionId pkgVersion), None)]
              ++ newEvents wa w1
              ++ [(CfindPackageVersionFile (packageVersionId pkgVersion)
                     (Path.dirname p) (Path.basename p), None)])).
  - rewrite !countCalls_app, Hd. reflexivity.
  - cbn [trace emit]. rewrite Ht. unfold wa. cbn [trace emit].
    now rewrite <- !app_assoc.
Qed.

Lemma first_read_of_absent_file_witness :
  exists w',
    showPackageVersionFile (Demo.env Demo.tgz_basic Demo.noFault)
      Demo.foo_1_0_0 (lit "/lib/missing.js") Demo.w0 = (Ok None, w').
Proof.
  destruct (first_read_of_absent_file (Demo.env Demo.tgz_basic Demo.noFault)
              Demo.foo_1_0_0 Demo.w0 Demo.foo (lit "/lib/missing.js"))
    as (w' & E & _);
    [intros c w; reflexivity | reflexivity | intros e He; discriminate He
    | repeat constructor | reflexivity | |].
  - intros q [<-|[<-|[]]]; discriminate.
  - exists w'. exact E.
Defined.

(** X17. The first listing of a directory.  When the index has no entry of
    the version, a fault-free [listPackageVersionFiles] on an intact
    tarball synchronizes the version and lists the directory as the
    tarball has it: every manifest path of that directory has its entry
    in the list, and every entry of the list belongs to the version, lies
    in the directory and has the name of a manifest path of that
    directory. *)
Theorem first_listing (env : Env) (pkgVersion : PackageVersion)
  (w : World) (pkg : Package) (dir : jsstring) :
  NoFault env ->
  findPackage pkgVersion w = Some pkg ->
  corrupt (tarball env (tarDist pkgVersion)) = false ->
  Forall (fun e => wellFormed (entryPath e) = true)
    (filter retained (members (tarball env (tarDist pkgVersion)))) ->
  hasFiles pkgVersion w = false ->
  exists fs w',
    listPackageVersionFiles env pkgVersion dir w = (Ok fs, w') /\
    (forall p, In p (manifestOf (members (tarball env (tarDist pkgVersion)))) ->
               Path.dirname p = dir ->
               exists f, In f fs /\ name f = Path.basename p) /\
    (forall f, In f fs ->
               filePackageVersionId f = packageVersionId pkgVersion /\
               directory f = dir /\
               exists p, In p (manifestOf (members (tarball env (tarDist pkgVersion)))) /\
                         Path.dirname p = dir /\ name f = Path.basename p).
Proof.
  intros Hnf Hfind Hc Hwf Hhas.
  set (wa := emit (ChasPackageVersionFiles (packageVersionId pkgVersion), None) w).
  assert (Hfa : findPackage pkgVersion wa = Some pkg) by exact Hfind.
  destruct (sync_nofault_returns env Hnf pkgVersion wa pkg Hfa
              (accepted_no_error _ Hc) Hwf) as (fs0 & w1 & E).
  pose proof (sync_index_sound env pkgVersion wa w1 _ Hhas E) as Hsound.
  pose proof (sync_ok_indexed env Hnf pkgVersion wa w1 pkg fs0 Hfa Hc E) as Hall.
  eexists _, _. split.
  { unfold listPackageVersionFiles. unfold bind at 1.
    rewrite ensure_checked by apply Hnf. rewrite Hhas.
    unfold bind at 1. fold wa. rewrite E. unfold ret.
    unfold listPackageVersionFilesRepo, invoke. rewrite Hnf. reflexivity. }
  split.
  - intros p Hp Hdir.
    destruct (Forall2_In_l _ _ _ _ Hall Hp) as (f & _ & Hix).
    apply find_some in Hix as [Hin Hk].
    pose proof (proj1 (sameFile_key _ _ _ _) Hk) as Hkey.
    unfold fileKey in Hkey. injection Hkey as Hv Hd Hn.
    exists f. split; [|exact Hn].
    apply filter_In. split; [exact Hin|].
    rewrite Hv, Hd, Hdir, !jseqb_refl. reflexivity.
  - intros f Hin. apply filter_In in Hin as [Hin Hk].
    apply andb_true_iff in Hk as [Hv Hd].
    apply jseqb_eq in Hv. apply jseqb_eq in Hd.
    split; [exact Hv|]. split; [exact Hd|].
    destruct (Hsound f Hin Hv) as (q & Hq & Hkq).
    unfold fileKey, pathKey in Hkq. injection Hkq as _ Hd' Hn'.
    exists q. split; [exact Hq|]. split; [congruence | exact Hn'].
Qed.

Lemma first_listing_witness :
  exists fs w',
    listPackageVersionFiles (Demo.env Demo.tgz_readmes Demo.noFault)
      Demo.foo_1_0_0 (lit "/dir/sub") Demo.w0 = (Ok fs, w') /\
    exists f, In f fs /\ name f = lit "file.js".
Proof.
  destruct (first_listing (Demo.env Demo.tgz_readmes Demo.noFault)
              Demo.foo_1_0_0 Demo.w0 Demo.foo (lit "/dir/sub"))
    as (fs & w' & E & Hall & _);
    [intros c w; reflexivity | reflexivity | reflexivity | repeat constructor
    | reflexivity |].
  exists fs, w'. split; [exact E|].
  apply (Hall (lit "/dir/sub/file.js")); [right; left; reflexivity | reflexivity].
Defined.

(** X18. A partial index is not completed by reads.  When a run of
    [syncPackageVersionFiles] has changed the index, whether it then
    returned or threw, the index holds an entry of the version.  From
    then on the lazy trigger does not synchronize: a
    [showPackageVersionFile] whose two repository calls do not fail makes
    only these two calls and answers from the index as it is, so a path
    whose materialization was not reached is reported as absent. *)
Theorem partial_sync_is_not_resumed (env : Env) (pkgVersion : PackageVersion)
  (w w' : World) (r : Outcome (list PackageVersionFile)) (p : jsstring) :
  syncPackageVersionFiles env pkgVersion w = (r, w') ->
  index w' <> index w ->
  fault env (ChasPackageVersionFiles (packageVersionId pkgVersion)) w' = None ->
  fault env (CfindPackageVersionFile (packageVersionId pkgVersion)
               (Path.dirname p) (Path.basename p))
    (emit (ChasPackageVersionFiles (packageVersionId pkgVersion), None) w') = None ->
  hasFiles pkgVersion w' = true
  /\ showPackageVersionFile env pkgVersion p w'
     = (Ok (indexed pkgVersion p (index w')),
        emit (CfindPackageVersionFile (packageVersionId pkgVersion)
                (Path.dirname p) (Path.basename p), None)
          (emit (ChasPackageVersionFiles (packageVersionId pkgVersion), None) w')).
Proof.
  intros H Hchanged F1 F2.
  assert (Hhas : hasFiles pkgVersion w' = true).
  { apply (sync_world_invariant env pkgVersion (fun _ => True)
             (fun ix _ =>
                ix = index w \/
                existsb (fun f => eqb (filePackageVersionId f)
                                    (packageVersionId pkgVersion)) ix = true)
             (fun _ => True)) in H.
    - destruct H as [[Hsame | Hex] _]; [contradiction | exact Hex].
    - intros pkg path localFile dp ix bs _ _ _ Hn.
      split; [exact Hn|]. split; [|exact I].
      right. rewrite existsb_app. simpl. rewrite jseqb_refl.
      simpl. now rewrite orb_true_r.
    - auto.
    - apply Forall_forall. auto.
    - now left. }
  split; [exact Hhas|].
  unfold showPackageVersionFile. unfold bind at 1.
  rewrite ensure_checked by exact F1. rewrite Hhas.
  unfold getDirectoryAndName. cbv beta iota.
  unfold findPackageVersionFile, invoke. rewrite F2. reflexivity.
Qed.

Lemma partial_sync_is_not_resumed_witness :
  let env := Demo.env Demo.tgz_basic
               (Scenario.statFails Scenario.readmeFile Demo.EIO) in
  let run := syncPackageVersionFiles env Demo.foo_1_0_0 Demo.w0 in
  fst run = Throw Demo.EIO
  /\ fst (showPackageVersionFile env Demo.foo_1_0_0 (lit "/README.md") (snd run))
     = Ok None.
Proof.
  intros env run. split; [reflexivity|].
  destruct (partial_sync_is_not_resumed env Demo.foo_1_0_0 Demo.w0 (snd run)
              (fst run) (lit "/README.md") (surjective_pairing run))
    as [_ E].
  - intros Hsame. apply (f_equal (@List.length _)) in Hsame.
    vm_compute in Hsame. discriminate Hsame.
  - reflexivity.
  - reflexivity.
  - rewrite E. vm_compute. reflexivity.
Defined.

(* ================================================================== *)
(** ** Paths that [encodeURI] rejects *)

Lemma trailing_not_unescaped (c : N) :
  isTrailingSurrogate c = true -> unescapedURISet c = false.
Proof.
  intros H. destruct (unescapedURISet c) eqn:E; [|reflexivity].
  apply unescaped_ascii in E.
  unfold isTrailingSurrogate, inRange in H.
  apply andb_true_iff in H as [H _]. apply N.leb_le in H. lia.
Qed.

Lemma unescaped_not_surrogate (c : N) :
  unescapedURISet c = true ->
  isLeadingSurrogate c = false /\ isTrailingSurrogate c = false.
Proof.
  intros H. split.
  - destruct (isLeadingSurrogate c) eqn:E; [|reflexivity].
    apply leading_not_unescaped in E. congruence.
  - destruct (isTrailingSurrogate c) eqn:E; [|reflexivity].
    apply trailing_not_unescaped in E. congruence.
Qed.

(** [encodeURI] is defined on well-formed strings only. *)
Lemma encodeURI_defined (s : jsstring) :
  forall r, encodeURI s = Some r -> wellFormed s = true.
Proof.
  induction s as [|c|c c2 s IHs IHc] using jsstring_ind2; intros r H.
  - reflexivity.
  - rewrite encodeURI_cons in H. simpl.
    destruct (unescapedURISet c) eqn:Hu.
    + destruct (unescaped_not_surrogate c Hu) as [-> ->]. reflexivity.
    + destruct (isTrailingSurrogate c); [discriminate|].
      destruct (isLeadingSurrogate c); [discriminate | reflexivity].
  - rewrite encodeURI_cons in H.
    change (wellFormed (c :: c2 :: s)) with
      (if isLeadingSurrogate c then isTrailingSurrogate c2 && wellFormed s
       else negb (isTrailingSurrogate c) && wellFormed (c2 :: s)).
    destruct (unescapedURISet c) eqn:Hu.
    + destruct (unescaped_not_surrogate c Hu) as [-> ->].
      apply option_map_Some in H as (x & Hx & _). simpl. now apply (IHc x).
    + destruct (isTrailingSurrogate c); [discriminate|].
      destruct (isLeadingSurrogate c).
      * destruct (isTrailingSurrogate c2); [|discriminate].
        apply option_map_Some in H as (x & Hx & _). simpl. now apply (IHs x).
      * apply option_map_Some in H as (x & Hx & _). simpl. now apply (IHc x).
Qed.

(** X19. Ill-formed paths.  [encodeURI] throws exactly on strings with an
    unpaired surrogate.  So, without faults, [#savePackageVersionFile] on
    a path that is not indexed returns an entry exactly when the path is
    well-formed UTF-16; on an ill-formed path it throws the [URIError]
    after it has read the file (stat and digest), and stores neither blob
    nor entry. *)
Theorem ill_formed_path_rejected (env : Env) (pkg : Package)
  (pkgVersion : PackageVersion) (path localFile : jsstring) (w w' : World)
  (r : Outcome PackageVersionFile) :
  NoFault env ->
  indexed pkgVersion path (index w) = None ->
  savePackageVersionFile env pkg pkgVersion path localFile w = (r, w') ->
  (encodeURI path = None <-> wellFormed path = false)
  /\ (wellFormed path = true -> exists f, r = Ok f)
  /\ (wellFormed path = false ->
      r = Throw URIError /\ index w' = index w /\ blobs w' = blobs w /\
      newEvents w w'
      = [(CfindPackageVersionFile (packageVersionId pkgVersion)
            (Path.dirname path) (Path.basename path), None);
         (Cfs_stat localFile, None);
         (CcalculateIntegrity localFile, None)]).
Proof.
  intros Hnf Hix H.
  assert (Hiff : encodeURI path = None <-> wellFormed path = false).
  { split.
    - intros Hn. destruct (wellFormed path) eqn:Hw; [|reflexivity].
      destruct (encodeURI_wellFormed path Hw) as [x Hx]. congruence.
    - intros Hw. destruct (encodeURI path) as [x|] eqn:Hx; [|reflexivity].
      apply encodeURI_defined in Hx. congruence. }
  split; [exact Hiff|].
  apply save_run in H.
  inversion H as [e w0 F U | f0 w0 Hix0 U | e w0 Hix0 F U | e w0 Hix0 F U
                 | w0 Hix0 Henc U | dp e w0 Hix0 Henc F U
                 | dp e w0 Hix0 Henc F U | dp w0 Hix0 Henc U]; subst;
    try (destruct F as [w1 F]; rewrite Hnf in F; discriminate);
    try congruence.
  - apply Hiff in Henc. split; [congruence|]. intros _.
    destruct U as (Ht & Hi & Hb & _).
    rewrite (newEvents_app _ _ _ Ht). auto.
  - split; [eauto|]. intros Hw. apply Hiff in Hw. congruence.
Qed.

Lemma ill_formed_path_rejected_witness :
  fst (savePackageVersionFile (Demo.env Demo.tgz_basic Demo.noFault)
         Demo.foo Demo.foo_1_0_0 (lit "/a" ++ [0xD83D] ++ lit ".js") (lit "/tmp/f")
         Demo.w0)
  = Throw URIError.
Proof.
  pose (run := savePackageVersionFile (Demo.env Demo.tgz_basic Demo.noFault)
                 Demo.foo Demo.foo_1_0_0 (lit "/a" ++ [0xD83D] ++ lit ".js")
                 (lit "/tmp/f") Demo.w0).
  destruct (ill_formed_path_rejected (Demo.env Demo.tgz_basic Demo.noFault)
              Demo.foo Demo.foo_1_0_0 (lit "/a" ++ [0xD83D] ++ lit ".js")
              (lit "/tmp/f") Demo.w0 (snd run) (fst run))
    as (_ & _ & Hbad);
    [intros c w; reflexivity | reflexivity | apply surjective_pairing |].
  apply Hbad. reflexivity.
Defined.

(* ================================================================== *)
(** ** Which members are skipped *)

Section IncludesFacts.

Lemma startsWith_iff (pat : jsstring) :
  forall s, startsWith s pat = true <-> exists b, s = pat ++ b.
Proof.
  induction pat as [|p pat IH]; intros s.
  - split; [intros _; exists s; reflexivity | intros _; now destruct s].
  - destruct s as [|c s]; simpl.
    + split; [discriminate | intros [b Hb]; discriminate].
    + rewrite andb_true_iff, N.eqb_eq, IH. split.
      * intros [-> [b ->]]. exists b. reflexivity.
      * intros [b Hb]. injection Hb as -> ->. eauto.
Qed.

(** [s.includes(pat)] holds exactly of the strings that have [pat] as a
    substring. *)
Lemma includes_iff (pat : jsstring) :
  forall s, includes s pat = true <-> exists a b, s = a ++ pat ++ b.
Proof.
  induction s as [|c s IH].
  - change (includes [] pat) with (startsWith [] pat || false).
    rewrite orb_false_r, startsWith_iff. split.
    + intros [b Hb]. exists [], b. exact Hb.
    + intros (a & b & Hab). destruct a; [eauto|discriminate].
  - change (includes (c :: s) pat) with (startsWith (c :: s) pat || includes s pat).
    rewrite orb_true_iff, startsWith_iff, IH. split.
    + intros [[b Hb] | (a & b & Hab)].
      * exists [], b. exact Hb.
      * exists (c :: a), b. now rewrite Hab.
    + intros (a & b & Hab). destruct a as [|c' a].
      * left. eauto.
      * right. injection Hab as _ ->. eauto.
Qed.

Lemma includes_skip (seg t : jsstring) :
  noSlash seg = true ->
  includes (seg ++ t) (lit "/./") = includes t (lit "/./").
Proof.
  induction seg as [|c seg IH]; intros H; [reflexivity|].
  simpl in H. apply andb_true_iff in H as [Hc Hs].
  apply negb_true_iff in Hc. unfold CHAR_FORWARD_SLASH in Hc.
  simpl. rewrite Hc. simpl. now apply IH.
Qed.

End IncludesFacts.

(** X20. Which members are skipped.  [onentry] leaves a member out
    exactly when it is not a regular file or its name has the three
    characters [/./] in a row.  A file in a directory whose name starts
    with a dot, such as [pkg/.d/nm], is not left out: it is recorded
    under the path [/.d/nm]. *)
Theorem skipped_members (e : TarEntry) (fr : Frame) :
  (retained e = false <->
   entryType e <> File \/ exists a b, entryPath e = a ++ lit "/./" ++ b)
  /\ (retained e = false -> onentry e fr = fr)
  /\ (forall seg d nm : jsstring,
        noSlash seg = true -> noSlash d = true -> d <> [] -> noSlash nm = true ->
        entryType e = File ->
        entryPath e = seg ++ lit "/." ++ d ++ lit "/" ++ nm ->
        paths (onentry e fr) = paths fr ++ [lit "/." ++ d ++ lit "/" ++ nm]).
Proof.
  split; [|split].
  - unfold retained, isFileEntry, hidden.
    rewrite andb_false_iff, negb_false_iff,
      (includes_iff (lit "/./") (entryPath e)).
    split; (intros [H|H]; [left | right; exact H]).
    + intros E. rewrite E in H. discriminate.
    + destruct (entryType e); try reflexivity. contradiction.
  - unfold retained, isFileEntry, hidden, onentry.
    destruct (EntryType_eqb (entryType e) File); [|reflexivity].
    destruct (includes (entryPath e) _); [reflexivity | discriminate].
  - intros seg d nm Hseg Hd Hne Hnm Hty Hpath.
    assert (Hvis : includes (entryPath e) (lit "/./") = false).
    { rewrite Hpath, (includes_skip seg _ Hseg).
      destruct d as [|c d']; [contradiction|].
      simpl in Hd. apply andb_true_iff in Hd as [Hc Hd'].
      apply negb_true_iff in Hc. unfold CHAR_FORWARD_SLASH in Hc.
      change (lit "/." ++ (c :: d') ++ lit "/" ++ nm)
        with (47 :: 46 :: c :: d' ++ 47 :: nm).
      simpl includes at 1. rewrite Hc. simpl orb.
      change (includes (d' ++ 47 :: nm) [47; 46; 47])
        with (includes (d' ++ 47 :: nm) (lit "/./")).
      rewrite (includes_skip d' (47 :: nm) Hd').
      destruct nm as [|n1 nm']; [reflexivity|].
      simpl in Hnm. apply andb_true_iff in Hnm as [Hn1 Hnm'].
      apply negb_true_iff in Hn1. unfold CHAR_FORWARD_SLASH in Hn1.
      simpl includes at 1.
      assert (Hrest : includes (n1 :: nm') (lit "/./") = false).
      { apply noSlash_not_hidden. unfold noSlash. simpl.
        unfold CHAR_FORWARD_SLASH. now rewrite Hn1. }
      assert (Hhead : (n1 =? 46) && startsWith nm' [47] = false).
      { destruct (n1 =? 46); [|reflexivity]. simpl.
        destruct nm' as [|n2 nm'']; [reflexivity|].
        simpl in Hnm'. apply andb_true_iff in Hnm' as [Hn2 _].
        apply negb_true_iff in Hn2. unfold CHAR_FORWARD_SLASH in Hn2.
        simpl. now rewrite Hn2. }
      simpl startsWith. rewrite Hhead. exact Hrest. }
    unfold onentry. rewrite Hty. simpl negb. cbn iota. rewrite Hvis.
    assert (Hstrip : stripFirstSegment (entryPath e) = lit "." ++ d ++ lit "/" ++ nm).
    { rewrite Hpath.
      change (seg ++ lit "/." ++ d ++ lit "/" ++ nm)
        with (seg ++ CHAR_FORWARD_SLASH :: (lit "." ++ d ++ lit "/" ++ nm)).
      now apply stripFirstSegment_segment. }
    rewrite Hstrip.
    destruct (falsy (readmeFilename _)); [|reflexivity].
    destruct (isReadmeName _); reflexivity.
Qed.

Lemma skipped_members_witness :
  paths (onentry (Demo.file "package/.github/ci.yml") (mkFrame Demo.w0 [] [] []))
  = [lit "/.github/ci.yml"].
Proof.
  destruct (skipped_members (Demo.file "package/.github/ci.yml")
              (mkFrame Demo.w0 [] [] [])) as (_ & _ & Hdot).
  apply (Hdot (lit "package") (lit "github") (lit "ci.yml"));
    [reflexivity | reflexivity | discriminate | reflexivity | reflexivity | reflexivity].
Defined.

(* ================================================================== *)
(** ** Failed and partial synchronizations *)

(** X21. A read fails with the synchronization it triggers.  When the
    existence check fails, a read throws its error and synchronizes
    nothing.  When the index has no entry of the version and the run of
    [syncPackageVersionFiles] that the lazy trigger starts throws, both
    [listPackageVersionFiles] and [showPackageVersionFile] throw that
    error and stop in the world the run left: the index is not asked. *)
Theorem read_propagates_sync_error (env : Env) (pkgVersion : PackageVersion)
  (w : World) (dir p : jsstring) :
  (forall e,
      fault env (ChasPackageVersionFiles (packageVersionId pkgVersion)) w = Some e ->
      listPackageVersionFiles env pkgVersion dir w
      = (Throw e, emit (ChasPackageVersionFiles (packageVersionId pkgVersion), Some e) w)
      /\ showPackageVersionFile env pkgVersion p w
         = (Throw e, emit (ChasPackageVersionFiles (packageVersionId pkgVersion), Some e) w))
  /\ (forall e w1,
        fault env (ChasPackageVersionFiles (packageVersionId pkgVersion)) w = None ->
        hasFiles pkgVersion w = false ->
        syncPackageVersionFiles env pkgVersion
          (emit (ChasPackageVersionFiles (packageVersionId pkgVersion), None) w)
        = (Throw e, w1) ->
        listPackageVersionFiles env pkgVersion dir w = (Throw e, w1)
        /\ showPackageVersionFile env pkgVersion p w = (Throw e, w1)).
Proof.
  split.
  - intros e F.
    unfold listPackageVersionFiles, showPackageVersionFile,
      ensurePackageVersionFilesSync, hasPackageVersionFiles, bind, invoke.
    rewrite F. split; reflexivity.
  - intros e w1 F Hhas E.
    split; unfold listPackageVersionFiles, showPackageVersionFile;
      unfold bind at 1;
      rewrite (ensure_checked env pkgVersion w F), Hhas;
      unfold bind; rewrite E; reflexivity.
Qed.

Lemma read_propagates_sync_error_witness :
  let env := Demo.env Demo.tgz_basic (Demo.faultOn isDownloadCall Demo.EIO) in
  fst (listPackageVersionFiles env Demo.foo_1_0_0 (lit "/") Demo.w0) = Throw Demo.EIO.
Proof.
  intros env.
  pose (wa := emit (ChasPackageVersionFiles (packageVersionId Demo.foo_1_0_0), None)
                Demo.w0).
  pose (run := syncPackageVersionFiles env Demo.foo_1_0_0 wa).
  destruct (read_propagates_sync_error env Demo.foo_1_0_0 Demo.w0 (lit "/") (lit "/x"))
    as [_ Hsync].
  destruct (Hsync Demo.EIO (snd run)) as [Hlist _];
    [reflexivity | reflexivity | vm_compute; reflexivity |].
  now rewrite Hlist.
Defined.

(** X22. An explicit run completes a partial index.  In every run of
    [syncPackageVersionFiles] the entries appended to the index are
    entries of manifest paths that had no entry before, and a path that
    had an entry keeps it.  Without faults, on an intact tarball with
    well-formed member names, the run returns one entry per manifest
    path, each the one the index then holds for the path, from whatever
    index it starts. *)
Theorem explicit_sync_completes_index (env : Env) (pkgVersion : PackageVersion)
  (w : World) :
  let manifest := manifestOf (members (tarball env (tarDist pkgVersion))) in
  (forall r w',
      syncPackageVersionFiles env pkgVersion w = (r, w') ->
      (exists added,
          index w' = index w ++ added /\
          Forall (fun f => exists q, In q manifest /\
                                     indexed pkgVersion q (index w) = None /\
                                     fileKey f = pathKey pkgVersion q) added)
      /\ (forall q f, indexed pkgVersion q (index w) = Some f ->
                      indexed pkgVersion q (index w') = Some f))
  /\ (forall pkg,
         NoFault env ->
         findPackage pkgVersion w = Some pkg ->
         corrupt (tarball env (tarDist pkgVersion)) = false ->
         Forall (fun e => wellFormed (entryPath e) = true)
           (filter retained (members (tarball env (tarDist pkgVersion)))) ->
         exists fs w',
           syncPackageVersionFiles env pkgVersion w = (Ok fs, w') /\
           Forall2 (fun q f => indexed pkgVersion q (index w') = Some f) manifest fs).
Proof.
  intros manifest. split.
  - intros r w' H.
    assert (Happ : exists added,
               index w' = index w ++ added /\
               Forall (fun f => exists q, In q manifest /\
                                          indexed pkgVersion q (index w) = None /\
                                          fileKey f = pathKey pkgVersion q) added).
    { apply (sync_world_invariant env pkgVersion (fun q => In q manifest)
               (fun ix _ =>
                  exists added,
                    ix = index w ++ added /\
                    Forall (fun f => exists q, In q manifest /\
                                               indexed pkgVersion q (index w) = None /\
                                               fileKey f = pathKey pkgVersion q) added)
               (fun _ => True)) in H.
      - tauto.
      - intros pkg path localFile dp ix bs Hp _ Hix (added & -> & Hadded).
        split; [eauto|]. split; [|exact I].
        exists (added ++ [newFile env pkg pkgVersion path localFile dp]).
        rewrite app_assoc. split; [reflexivity|].
        apply Forall_app. split; [exact Hadded|]. constructor; [|constructor].
        exists path. split; [exact Hp|]. split; [|reflexivity].
        destruct (indexed pkgVersion path (index w)) as [f|] eqn:E; [|reflexivity].
        rewrite (indexed_app _ _ _ added _ E) in Hix. discriminate.
      - auto.
      - apply Forall_forall. auto.
      - exists []. rewrite app_nil_r. split; [reflexivity | constructor]. }
    split; [exact Happ|].
    destruct Happ as (added & -> & _). intros q f. apply indexed_app.
  - intros pkg Hnf Hfind Hc Hwf.
    destruct (sync_nofault_returns env Hnf pkgVersion w pkg Hfind
                (accepted_no_error _ Hc) Hwf) as (fs & w' & E).
    exists fs, w'. split; [exact E|].
    exact (sync_ok_indexed env Hnf pkgVersion w w' pkg fs Hfind Hc E).
Qed.

Lemma explicit_sync_completes_index_witness :
  let broken := Demo.env Demo.tgz_basic
                  (Scenario.statFails Scenario.readmeFile Demo.EIO) in
  let w1 := snd (syncPackageVersionFiles broken Demo.foo_1_0_0 Demo.w0) in
  List.length (index w1) = 1%nat
  /\ exists fs w2,
       syncPackageVersionFiles (Demo.env Demo.tgz_basic Demo.noFault)
         Demo.foo_1_0_0 w1 = (Ok fs, w2)
       /\ List.length fs = 2%nat.
Proof.
  intros broken w1. split; [reflexivity|].
  destruct (explicit_sync_completes_index (Demo.env Demo.tgz_basic Demo.noFault)
              Demo.foo_1_0_0 w1) as [_ Hok].
  destruct (Hok Demo.foo) as (fs & w2 & E & Hall);
    [intros c w; reflexivity | reflexivity | reflexivity | repeat constructor |].
  exists fs, w2. split; [exact E|].
  apply Forall2_length in Hall. rewrite <- Hall. reflexivity.
Defined.

(* ================================================================== *)
(** ** Examples *)

Section Examples.

Example split_example :
  split CHAR_FORWARD_SLASH (lit "package/dir/sub/file.js")
  = [lit "package"; lit "dir"; lit "sub"; lit "file.js"].
Proof. reflexivity. Qed.

Example split_empty_example : split CHAR_FORWARD_SLASH [] = [[]].
Proof. reflexivity. Qed.

Example strip_example :
  stripFirstSegment (lit "lodash-es/dir/sub/file.js") = lit "dir/sub/file.js".
Proof. reflexivity. Qed.

Example strip_single_example : stripFirstSegment (lit "index.js") = [].
Proof. reflexivity. Qed.

Example includes_example :
  includes (lit "package/lib/./x.js") (lit "/./") = true
  /\ includes (lit "package/lib/.x.js") (lit "/./") = false.
Proof. split; reflexivity. Qed.

Example replace_example :
  replace CHAR_FORWARD_SLASH (lit "_") (lit "@scope/foo/bar") = lit "@scope_foo/bar".
Proof. reflexivity. Qed.

Example dirname_examples :
  Path.dirname (lit "/dir/sub/file.js") = lit "/dir/sub"
  /\ Path.dirname (lit "/a.txt") = lit "/"
  /\ Path.dirname (lit "/") = lit "/"
  /\ Path.dirname [] = lit "."
  /\ Path.dirname (lit "a.txt") = lit "."
  /\ Path.dirname (lit "/a//b") = lit "/a/"
  /\ Path.dirname (lit "//x") = lit "//"
  /\ Path.dirname (lit "/a/b/") = lit "/a".
Proof. repeat split; reflexivity. Qed.

Example basename_examples :
  Path.basename (lit "/dir/sub/file.js") = lit "file.js"
  /\ Path.basename (lit "/a.txt") = lit "a.txt"
  /\ Path.basename (lit "/") = []
  /\ Path.basename [] = []
  /\ Path.basename (lit "/a/b/") = lit "b".
Proof. repeat split; reflexivity. Qed.

Example encodeURI_examples :
  encodeURI Demo.chi_manifest_path = Some (lit "/resource/ToOneFrom%CF%87.js")
  /\ encodeURI (lit "/a b#c?d=[e]") = Some (lit "/a%20b#c?d=%5Be%5D")
  /\ encodeURI [0xD83D; 0xDE00] = Some (lit "%F0%9F%98%80")
  /\ encodeURI [0x4E2D] = Some (lit "%E4%B8%AD")
  /\ encodeURI [0xD83D] = None
  /\ encodeURI [0xDE00; 0xD83D] = None.
Proof. repeat split; reflexivity. Qed.

(** The example of the specification: [package/index.js] and
    [package/README.md] give two entries and one README hand-over, and
    nothing temporary is left. *)
Example sync_basic_example :
  let run := syncPackageVersionFiles (Demo.env Demo.tgz_basic Demo.noFault)
               Demo.foo_1_0_0 Demo.w0 in
  (exists fs, fst run = Ok fs /\
              map (fun f => (directory f, name f, distPath (dist f))) fs
              = [(lit "/", lit "index.js", lit "/index.js");
                 (lit "/", lit "README.md", lit "/README.md")])
  /\ readmes (snd run)
     = [(lit "ver-1", lit "/data/unpkg_@scope_foo@1.0.0_u1/README.md")]
  /\ List.length (index (snd run)) = 2%nat
  /\ disk (snd run) = [].
Proof.
  intros run. split; [eexists; split; [vm_compute; reflexivity | reflexivity]|].
  repeat split; reflexivity.
Qed.

(** A truncated [.tgz]: one member was read, nothing is indexed and the
    error of the decompressor is raised after cleanup. *)
Example sync_truncated_example :
  let run := syncPackageVersionFiles (Demo.env Demo.tgz_truncated Demo.noFault)
               Demo.foo_1_0_0 Demo.w0 in
  fst run = Throw Demo.Z_BUF_ERROR /\ index (snd run) = [] /\ disk (snd run) = [].
Proof. repeat split; reflexivity. Qed.

(** An archive without any member: the reader rejects it with
    [TAR_BAD_ARCHIVE], which the [catch] block turns into the empty
    result. *)
Example sync_empty_example :
  let run := syncPackageVersionFiles (Demo.env Demo.tgz_empty Demo.noFault)
               Demo.foo_1_0_0 Demo.w0 in
  fst run = Ok [] /\ index (snd run) = [] /\ disk (snd run) = []
  /\ In (Ctar_extract (lit "/data/unpkg_@scope_foo@1.0.0_u1.tgz")
           (lit "/data/unpkg_@scope_foo@1.0.0_u1"), Some unrecognized)
       (newEvents Demo.w0 (snd run)).
Proof.
  intros run. split; [reflexivity|]. split; [reflexivity|].
  split; [reflexivity|]. vm_compute. tauto.
Qed.

(** The first read of a version whose [.tgz] is truncated throws the
    error of the decompressor, and so does every later read: the index
    stays without an entry of the version. *)
Example show_truncated_example :
  let env := Demo.env Demo.tgz_truncated Demo.noFault in
  let read := showPackageVersionFile env Demo.foo_1_0_0 (lit "/index.js") Demo.w0 in
  let again := showPackageVersionFile env Demo.foo_1_0_0 (lit "/index.js") (snd read) in
  fst read = Throw Demo.Z_BUF_ERROR /\ fst again = Throw Demo.Z_BUF_ERROR
  /\ index (snd again) = [].
Proof. repeat split; vm_compute; reflexivity. Qed.

(** A failing [stat] aborts the run with that error after cleanup. *)
Example sync_fatal_example :
  let run := syncPackageVersionFiles
               (Demo.env Demo.tgz_basic (Demo.faultOn Demo.isStat Demo.EIO))
               Demo.foo_1_0_0 Demo.w0 in
  fst run = Throw Demo.EIO /\ disk (snd run) = [].
Proof. repeat split; reflexivity. Qed.

(** Both removals sit in one [try] block: when the removal of the
    tarball file fails, a warning is logged, the removal of the directory
    is not attempted, and the result of the run is unaffected. *)
Example cleanup_failure_example :
  let run := syncPackageVersionFiles
               (Demo.env Demo.tgz_basic (Demo.faultOn Demo.isRmFile Demo.EPERM))
               Demo.foo_1_0_0 Demo.w0 in
  let tmpdir := lit "/data/unpkg_@scope_foo@1.0.0_u1" in
  (exists fs, fst run = Ok fs /\ List.length fs = 2%nat)
  /\ disk_exists tmpdir (disk (snd run)) = true
  /\ disk_exists (tmpdir ++ lit ".tgz") (disk (snd run)) = true
  /\ countCalls Demo.isRm (newEvents Demo.w0 (snd run)) = 1%nat.
Proof.
  intros run tmpdir.
  split; [eexists; split; [vm_compute; reflexivity | reflexivity]|].
  repeat split; reflexivity.
Qed.

End Examples.
